(** * Document search server: shallow embedding and verified properties

    The server (one TypeScript module) mirrors the [.txt] files of a Dropbox
    account into an Elasticsearch index and answers [GET /api/search].

    Modelling conventions.
    - A JavaScript string is a Rocq [string] holding its UTF-8 code units, so
      [Buffer.from(s)] is the identity on the representation.  The patterns
      the server matches on ([".txt"], ["www.dropbox.com"], ["?dl=0"]) are
      ASCII, for which suffix tests and first-occurrence replacement agree on
      UTF-8 and UTF-16 code units.
    - [Date.now()] and [expires_in] are integers, modelled in [Z].
    - Every remote collaborator (wall clock, OAuth endpoint, Dropbox SDK,
      Elasticsearch transport) is a transition on an abstract external world
      [W]; the module-level [dropboxTokens] variable, the console and the
      contents of the index are explicit fields of the state.
    - A rejected promise or a thrown exception is the [Throw] result. *)

From Stdlib Require Import ZArith QArith Ascii String.
From stdpp Require Import base option list strings pretty gmap fin_maps sorting.

Local Open Scope string_scope.
#[local] Set Warnings "-clear-no-such-hyp".

(** ** JavaScript string primitives used by the server *)

Module JsString.

Fixpoint drop (n : nat) (s : string) : string :=
  match n, s with
  | O, _ => s
  | S _, EmptyString => EmptyString
  | S n', String _ s' => drop n' s'
  end.

Fixpoint startsWith (pat s : string) : bool :=
  match pat, s with
  | EmptyString, _ => true
  | String _ _, EmptyString => false
  | String a pat', String b s' => if Ascii.eqb a b then startsWith pat' s' else false
  end.

(** [String.prototype.endsWith(searchString)]: with [start = len -
    searchLength], false when [start < 0], otherwise the code units from
    [start] on are compared with [searchString]. *)
Definition endsWith (s suffix : string) : bool :=
  let len := String.length s in
  let searchLength := String.length suffix in
  if (searchLength <=? len)%nat
  then String.eqb (drop (len - searchLength) s) suffix
  else false.

(** [String.prototype.replace(pattern, replacement)] with a string pattern:
    only the first occurrence is replaced.  (The replacements used by the
    server contain no [$], so no substitution pattern is expanded.) *)
Fixpoint replace (pat rep s : string) : string :=
  if startsWith pat s then rep +:+ drop (String.length pat) s
  else match s with
       | EmptyString => EmptyString
       | String c s' => String c (replace pat rep s')
       end.

(** [occurs pat s]: [pat] occurs somewhere in [s]. *)
Fixpoint occurs (pat s : string) : bool :=
  if startsWith pat s then true
  else match s with
       | EmptyString => false
       | String _ s' => occurs pat s'
       end.

(** The truthiness of a possibly-undefined string: [undefined] and [""]
    are falsy. *)
Definition truthy (v : option string) : bool :=
  match v with
  | Some (String _ _) => true
  | _ => false
  end.

End JsString.

(** ** [Buffer.from(s).toString("base64")]

    The encoder is Node's, not the repository's; it is modelled after
    RFC 4648 (standard alphabet, [=] padding) on the bits of each byte. *)

Module Base64.

Definition alphabet : string :=
  "ABCDEFGHIJKLMNOPQRSTUVWXYZabcdefghijklmnopqrstuvwxyz0123456789+/".

(** A sextet, most significant bit first. *)
Definition sextet : Type := bool * bool * bool * bool * bool * bool.

Definition sextet_value (x : sextet) : nat :=
  let '(b5, b4, b3, b2, b1, b0) := x in
  (if b5 then 32 else 0) + (if b4 then 16 else 0) + (if b3 then 8 else 0)
  + (if b2 then 4 else 0) + (if b1 then 2 else 0) + (if b0 then 1 else 0).

Definition digit (x : sextet) : ascii :=
  match String.get (sextet_value x) alphabet with
  | Some c => c
  | None => "="%char
  end.

(** [Ascii b0 .. b7] lists the least significant bit first. *)
Fixpoint encode (s : string) : string :=
  match s with
  | EmptyString => EmptyString
  | String (Ascii a0 a1 a2 a3 a4 a5 a6 a7) EmptyString =>
      String (digit (a7, a6, a5, a4, a3, a2))
        (String (digit (a1, a0, false, false, false, false)) "==")
  | String (Ascii a0 a1 a2 a3 a4 a5 a6 a7)
      (String (Ascii b0 b1 b2 b3 b4 b5 b6 b7) EmptyString) =>
      String (digit (a7, a6, a5, a4, a3, a2))
        (String (digit (a1, a0, b7, b6, b5, b4))
           (String (digit (b3, b2, b1, b0, false, false)) "="))
  | String (Ascii a0 a1 a2 a3 a4 a5 a6 a7)
      (String (Ascii b0 b1 b2 b3 b4 b5 b6 b7)
         (String (Ascii c0 c1 c2 c3 c4 c5 c6 c7) rest)) =>
      String (digit (a7, a6, a5, a4, a3, a2))
        (String (digit (a1, a0, b7, b6, b5, b4))
           (String (digit (b3, b2, b1, b0, c7, c6))
              (String (digit (c5, c4, c3, c2, c1, c0)) (encode rest))))
  end.

(** The inverse table, used only to show that [encode] is injective. *)
Definition all_sextets : list sextet :=
  b5 ← [false; true]; b4 ← [false; true]; b3 ← [false; true];
  b2 ← [false; true]; b1 ← [false; true]; b0 ← [false; true];
  [(b5, b4, b3, b2, b1, b0)].

Definition undigit (c : ascii) : option sextet :=
  List.find (fun x => Ascii.eqb (digit x) c) all_sextets.

Definition is_pad (c : ascii) : bool := Ascii.eqb c "=".

Fixpoint decode (fuel : nat) (s : string) : option string :=
  match fuel with
  | O => None
  | S fuel' =>
      match s with
      | EmptyString => Some EmptyString
      | String c1 (String c2 (String c3 (String c4 rest))) =>
          match undigit c1, undigit c2 with
          | Some (a7, a6, a5, a4, a3, a2), Some (a1, a0, b7, b6, b5, b4) =>
              if is_pad c3
              then if is_pad c4 && String.eqb rest ""
                   then Some (String (Ascii a0 a1 a2 a3 a4 a5 a6 a7) EmptyString)
                   else None
              else
                match undigit c3 with
                | Some (b3, b2, b1, b0, c7, c6) =>
                    if is_pad c4
                    then if String.eqb rest ""
                         then Some (String (Ascii a0 a1 a2 a3 a4 a5 a6 a7)
                                      (String (Ascii b0 b1 b2 b3 b4 b5 b6 b7) EmptyString))
                         else None
                    else
                      match undigit c4, decode fuel' rest with
                      | Some (c5, c4, c3, c2, c1, c0), Some tl =>
                          Some (String (Ascii a0 a1 a2 a3 a4 a5 a6 a7)
                                  (String (Ascii b0 b1 b2 b3 b4 b5 b6 b7)
                                     (String (Ascii c0 c1 c2 c3 c4 c5 c6 c7) tl)))
                      | _, _ => None
                      end
                | None => None
                end
          | _, _ => None
          end
      | _ => None
      end
  end.

End Base64.

(** ** Data model *)

(** A thrown JavaScript value, reduced to its message. *)
Definition Error : Type := string.

Inductive Res (A : Type) : Type :=
| Ok (a : A)
| Throw (e : Error).
Arguments Ok {A} a.
Arguments Throw {A} e.

(** [interface DropboxTokens] *)
Record DropboxTokens : Type := {
  access_token : string;
  refresh_token : string;
  expires_at : Z
}.

(** The SDK client built by [new Dropbox({ accessToken })]. *)
Record Dropbox : Type := { accessToken : string }.

(** The body of the refresh-grant POST ([URLSearchParams]). *)
Record TokenRequest : Type := {
  grant_type : string;
  req_refresh_token : string;
  client_id : string;
  client_secret : string
}.

(** The JSON document returned by the token endpoint; [refresh_token] may be
    missing. *)
Record TokenData : Type := {
  data_access_token : string;
  data_refresh_token : option string;
  expires_in : Z
}.

(** The [Response] of [fetch]; [json] is the outcome of [response.json()]. *)
Record FetchResponse : Type := {
  ok : bool;
  statusText : string;
  json : Res TokenData
}.

(** An entry of a folder listing ([files.MetadataReference]); folders carry
    no [server_modified]. *)
Record Entry : Type := {
  name : string;
  path_lower : string;
  server_modified : option string
}.

(** [files.ListFolderResult] of the Dropbox SDK: one page of a listing. *)
Record ListFolderResult : Type := {
  entries : list Entry;
  cursor : string;
  has_more : bool
}.

Record SharedLinkMetadata : Type := { url : string }.

Record ListSharedLinksResult : Type := { links : list SharedLinkMetadata }.

(** The result of [filesDownload], read through [as any]: [fileBinary] is a
    [Buffer] when present. *)
Record FileDownload : Type := { fileBinary : option string }.

(** The document body written to and read from the index
    ([interface FileDocument]); [lastModified] is whatever
    [server_modified] was. *)
Record FileDocument : Type := {
  filename : string;
  content : string;
  path : string;
  lastModified : option string;
  doc_url : string
}.

Inductive FieldMapping : Type :=
| keyword
| text (analyzer : string)
| date.

(** The body of [esClient.search]. *)
Record SearchRequest : Type := {
  search_index : string;
  multi_match_query : string;
  multi_match_fields : list string;
  highlight_fields : list string
}.

(** A hit of the search response: [_source], [_score] and [highlight] may
    each be absent. *)
Record Hit : Type := {
  _source : option FileDocument;
  _score : option Q;
  highlight : option (gmap string (list string))
}.

(** [interface SearchResult] *)
Record SearchResult : Type := {
  res_filename : string;
  res_url : string;
  res_lastModified : string;
  score : Q;
  excerpt : option string
}.

(** [interface SearchQueryParams] *)
Record SearchQueryParams : Type := { q : option string }.

Inductive Body : Type :=
| ErrorBody (error : string)
| ResultsBody (results : list SearchResult).

(** What [res.status(..).json(..)] sends; [res.json] alone sends 200. *)
Record HttpResponse : Type := {
  status : nat;
  body : Body
}.

Inductive Level : Type := LOG | WARN | ERROR.

(** One console line: the formatted text and, for [console.error(msg, e)],
    the error passed along. *)
Record LogLine : Type := {
  level : Level;
  message : string;
  detail : option Error
}.

(** The remote calls the server issues, in the order it issues them. *)
Inductive Call : Type :=
| TokenExchange (req : TokenRequest)
| FilesListFolder (dbx : Dropbox) (folder : string) (recursive : bool)
| SharingListSharedLinks (dbx : Dropbox) (p : string)
| SharingCreateSharedLink (dbx : Dropbox) (p : string)
| FilesDownload (dbx : Dropbox) (p : string)
| IndicesExists (index : string)
| IndicesCreate (index : string)
| EsIndex (index id : string)
| EsSearch (req : SearchRequest).

(** Everything outside the module: the process environment and the remote
    collaborators, each a transition on the external world [W]. *)
Record Env (W : Type) : Type := {
  process_env : string -> option string;
  Date_now : W -> W * Z;
  fetch_token : TokenRequest -> W -> W * Res FetchResponse;
  filesListFolder : Dropbox -> string -> bool -> W -> W * Res ListFolderResult;
  filesListFolderContinue : Dropbox -> string -> W -> W * Res ListFolderResult;
  sharingListSharedLinks : Dropbox -> string -> W -> W * Res ListSharedLinksResult;
  sharingCreateSharedLink : Dropbox -> string -> W -> W * Res SharedLinkMetadata;
  filesDownload : Dropbox -> string -> W -> W * Res FileDownload;
  (** [Buffer.prototype.toString("utf-8")]; it never throws. *)
  toString_utf8 : string -> string;
  indices_exists : string -> W -> W * Res bool;
  indices_create : string -> list (string * FieldMapping) -> W -> W * Res unit;
  (** The outcome of the write request of [esClient.index]. *)
  es_index : string -> string -> FileDocument -> W -> W * Res unit;
  es_search : SearchRequest -> W -> W * Res (list Hit)
}.
Arguments process_env {W} _ _.
Arguments Date_now {W} _ _.
Arguments fetch_token {W} _ _ _.
Arguments filesListFolder {W} _ _ _ _ _.
Arguments filesListFolderContinue {W} _ _ _ _.
Arguments sharingListSharedLinks {W} _ _ _ _.
Arguments sharingCreateSharedLink {W} _ _ _ _.
Arguments filesDownload {W} _ _ _ _.
Arguments toString_utf8 {W} _ _.
Arguments indices_exists {W} _ _ _.
Arguments indices_create {W} _ _ _ _.
Arguments es_index {W} _ _ _ _ _.
Arguments es_search {W} _ _ _.

(** The state of the process and of the index it maintains. *)
Record State (W : Type) : Type := {
  world : W;
  dropboxTokens : option DropboxTokens;
  es_docs : gmap string FileDocument;
  console : list LogLine;
  calls : list Call
}.
Arguments world {W} _.
Arguments dropboxTokens {W} _.
Arguments es_docs {W} _.
Arguments console {W} _.
Arguments calls {W} _.
Arguments Build_State {W} _ _ _ _ _.

(** ** The server *)

Section Server.

Context {W : Type} (E : Env W).

(** *** Control flow: state, exceptions, [try]/[catch] *)

Definition M (A : Type) : Type := State W -> State W * Res A.

Definition ret {A} (a : A) : M A := fun s => (s, Ok a).

Definition throw {A} (e : Error) : M A := fun s => (s, Throw e).

Definition bind {A B} (m : M A) (k : A -> M B) : M B :=
  fun s =>
    match m s with
    | (s', Ok a) => k a s'
    | (s', Throw e) => (s', Throw e)
    end.

Definition try_catch {A} (m : M A) (handler : Error -> M A) : M A :=
  fun s =>
    match m s with
    | (s', Ok a) => (s', Ok a)
    | (s', Throw e) => handler e s'
    end.

Local Notation "x <- m ;; k" := (bind m (fun x => k))
  (at level 100, m at next level, right associativity).
Local Notation "m ;;; k" := (bind m (fun _ => k))
  (at level 100, right associativity).

(** [await op(..)]: the call is recorded, the world moves, the promise
    resolves or rejects. *)
Definition await {A} (c : Call) (op : W -> W * Res A) : M A :=
  fun s =>
    let '(w', r) := op (world s) in
    (Build_State w' (dropboxTokens s) (es_docs s) (console s) (calls s ++ [c]), r).

Definition now : M Z :=
  fun s =>
    let '(w', t) := Date_now E (world s) in
    (Build_State w' (dropboxTokens s) (es_docs s) (console s) (calls s), Ok t).

Definition print (l : Level) (msg : string) (d : option Error) : M unit :=
  fun s =>
    (Build_State (world s) (dropboxTokens s) (es_docs s)
       (console s ++ [{| level := l; message := msg; detail := d |}]) (calls s),
     Ok tt).

Definition read_tokens : M (option DropboxTokens) :=
  fun s => (s, Ok (dropboxTokens s)).

Definition write_tokens (t : DropboxTokens) : M unit :=
  fun s => (Build_State (world s) (Some t) (es_docs s) (console s) (calls s), Ok tt).

(** [esClient.index({ index, id, body, refresh: true })]: when the request
    succeeds the document stored under [id] is [doc], replacing any former
    one, and is visible at once. *)
Definition esClient_index (index id : string) (doc : FileDocument) : M unit :=
  fun s =>
    let '(w', r) := es_index E index id doc (world s) in
    match r with
    | Ok _ =>
        (Build_State w' (dropboxTokens s) (<[id := doc]> (es_docs s)) (console s)
           (calls s ++ [EsIndex index id]), Ok tt)
    | Throw e =>
        (Build_State w' (dropboxTokens s) (es_docs s) (console s)
           (calls s ++ [EsIndex index id]), Throw e)
    end.

(** *** [getDropboxClient] (lines 23-75) *)

Definition missing_credentials : bool :=
  negb (JsString.truthy (process_env E "DROPBOX_APP_KEY"))
  || negb (JsString.truthy (process_env E "DROPBOX_APP_SECRET"))
  || negb (JsString.truthy (process_env E "DROPBOX_REFRESH_TOKEN")).

Definition refresh_request : TokenRequest :=
  {| grant_type := "refresh_token";
     req_refresh_token := default "" (process_env E "DROPBOX_REFRESH_TOKEN");
     client_id := default "" (process_env E "DROPBOX_APP_KEY");
     client_secret := default "" (process_env E "DROPBOX_APP_SECRET") |}.

(** [!dropboxTokens || Date.now() >= dropboxTokens.expires_at]; the clock
    is read only when a token is cached. *)
Definition needs_refresh : M bool :=
  tokens <- read_tokens ;;
  match tokens with
  | None => ret true
  | Some t => t_now <- now ;; ret (expires_at t <=? t_now)%Z
  end.

(** The body of the [try] block of [getDropboxClient] (lines 34-65). *)
Definition refresh : M unit :=
  response <- await (TokenExchange refresh_request) (fetch_token E refresh_request) ;;
  (if negb (ok response)
   then throw ("Failed to refresh token: " +:+ statusText response)
   else ret tt) ;;;
  data <- (fun s => (s, json response)) ;;
  t_now <- now ;;
  write_tokens
    {| access_token := data_access_token data;
       refresh_token :=
         (if JsString.truthy (data_refresh_token data)
          then default "" (data_refresh_token data)
          else default "" (process_env E "DROPBOX_REFRESH_TOKEN"));
       expires_at := (t_now + expires_in data * 1000)%Z |} ;;;
  print LOG "Successfully refreshed Dropbox access token" None.

Definition getDropboxClient : M Dropbox :=
  if missing_credentials
  then throw "Missing Dropbox credentials in environment variables"
  else
    stale <- needs_refresh ;;
    (if stale : bool
     then try_catch refresh
            (fun error =>
               print ERROR "Error refreshing Dropbox token:" (Some error) ;;;
               throw error)
     else ret tt) ;;;
    tokens <- read_tokens ;;
    match tokens with
    | Some t => ret {| accessToken := access_token t |}
    | None => throw "TypeError: Cannot read properties of null (reading 'access_token')"
    end.

(** *** [initializeIndex] (lines 101-127) *)

Definition indexName : string := "dropbox_files".

Definition index_mappings : list (string * FieldMapping) :=
  [("filename", keyword); ("content", text "standard"); ("path", keyword);
   ("lastModified", date); ("url", keyword)].

Definition initializeIndex : M unit :=
  try_catch
    (indexExists <- await (IndicesExists indexName) (indices_exists E indexName) ;;
     if indexExists : bool
     then ret tt
     else await (IndicesCreate indexName) (indices_create E indexName index_mappings))
    (fun error => print ERROR "Error creating index:" (Some error) ;;; throw error).

(** *** [indexDropboxFiles] (lines 129-213) *)

(** [.replace("www.dropbox.com", "dl.dropboxusercontent.com").replace("?dl=0", "")] *)
Definition direct_link (u : string) : string :=
  JsString.replace "?dl=0" ""
    (JsString.replace "www.dropbox.com" "dl.dropboxusercontent.com" u).

(** The id under which a file is indexed:
    [Buffer.from(file.path_lower).toString("base64")]. *)
Definition document_id (file : Entry) : string :=
  Base64.encode (path_lower file).

(** The predicate passed to [entries.filter]. *)
Definition isTextFile (entry : Entry) : bool :=
  JsString.endsWith (name entry) ".txt".

(** The enumeration (lines 133-141): the client, the listing call and the
    filter. *)
Definition listTextFiles : M (list Entry) :=
  dbx <- getDropboxClient ;;
  listResult <- await (FilesListFolder dbx "" true) (filesListFolder E dbx "" true) ;;
  ret (List.filter isTextFile (entries listResult)).

(** The inner [try]/[catch] computing [directLink] (lines 149-179). *)
Definition resolveLink (dbx : Dropbox) (file : Entry) : M string :=
  try_catch
    (existingSharedLinks <-
       await (SharingListSharedLinks dbx (path_lower file))
         (sharingListSharedLinks E dbx (path_lower file)) ;;
     match links existingSharedLinks with
     | first :: _ => ret (direct_link (url first))
     | [] =>
         shareLink <-
           await (SharingCreateSharedLink dbx (path_lower file))
             (sharingCreateSharedLink E dbx (path_lower file)) ;;
         ret (direct_link (url shareLink))
     end)
    (fun sharingError =>
       print WARN
         ("Could not create shared link for " +:+ name file +:+ ", using temporary link")
         None ;;;
       ret ("temporary-link-for-" +:+ name file)).

(** Download, decode, write to the index, log (lines 181-203). *)
Definition fetchAndIndex (dbx : Dropbox) (file : Entry) (directLink : string) : M unit :=
  fileDownload <-
    await (FilesDownload dbx (path_lower file)) (filesDownload E dbx (path_lower file)) ;;
  content <-
    match fileBinary fileDownload with
    | Some buffer => ret (toString_utf8 E buffer)
    | None => throw "TypeError: Cannot read properties of undefined (reading 'toString')"
    end ;;
  esClient_index indexName (document_id file)
    {| filename := name file;
       content := content;
       path := path_lower file;
       lastModified := server_modified file;
       doc_url := directLink |} ;;;
  print LOG ("Indexed file: " +:+ name file) None.

(** The body of the per-file [try] block (lines 147-203). *)
Definition processFileBody (file : Entry) : M unit :=
  dbx <- getDropboxClient ;;
  directLink <- resolveLink dbx file ;;
  fetchAndIndex dbx file directLink.

(** One iteration of the [for] loop, with its [catch] (lines 146-207). *)
Definition processFile (file : Entry) : M unit :=
  try_catch (processFileBody file)
    (fun fileError =>
       print ERROR ("Error processing file " +:+ name file +:+ ":") (Some fileError)).

(** [for (const file of textFiles) { .. }] (lines 145-208) *)
Fixpoint forOf (textFiles : list Entry) : M unit :=
  match textFiles with
  | [] => ret tt
  | file :: rest => processFile file ;;; forOf rest
  end.

Definition indexDropboxFiles : M unit :=
  try_catch
    (textFiles <- listTextFiles ;;
     print LOG ("Found " +:+ pretty (length textFiles) +:+ " text files to index") None ;;;
     forOf textFiles)
    (fun error => print ERROR "Error indexing files:" (Some error) ;;; throw error).

(** The sync run started by the [listen] callback once the client has been
    obtained: schema, then files (lines 275-276). *)
Definition syncRun : M unit :=
  initializeIndex ;;; indexDropboxFiles.

(** The [listen] callback (lines 272-282); [false] is [process.exit(1)]. *)
Definition onListen (PORT : string) : State W -> State W * bool :=
  fun s =>
    match (getDropboxClient ;;; syncRun ;;;
           print LOG ("Server running on port " +:+ PORT) None) s with
    | (s', Ok _) => (s', true)
    | (s', Throw error) =>
        (fst (print ERROR "Failed to initialize server:" (Some error) s'), false)
    end.

(** *** [GET /api/search] (lines 215-269) *)

Definition search_request (searchTerm : string) : SearchRequest :=
  {| search_index := "dropbox_files";
     multi_match_query := searchTerm;
     multi_match_fields := ["content"; "filename"];
     highlight_fields := ["content"] |}.

(** The callback passed to [result.hits.hits.map]. *)
Definition to_result (hit : Hit) : SearchResult :=
  {| res_filename := default "" (filename <$> _source hit);
     res_url := default "" (doc_url <$> _source hit);
     res_lastModified := default "" (_source hit ≫= lastModified);
     score := default 0%Q (_score hit);
     excerpt :=
       match highlight hit ≫= (fun h => h !! "content") with
       | Some fragments => head fragments
       | None => None
       end |}.

Definition search_handler (query : SearchQueryParams) : State W -> State W * HttpResponse :=
  fun s =>
    match
      (if negb (JsString.truthy (q query))
       then ret {| status := 400; body := ErrorBody "Search term is required" |}
       else
         let searchTerm := default "" (q query) in
         hits <- await (EsSearch (search_request searchTerm))
                   (es_search E (search_request searchTerm)) ;;
         ret {| status := 200; body := ResultsBody (List.map to_result hits) |}) s
    with
    | (s', Ok response) => (s', response)
    | (s', Throw error) =>
        (fst (print ERROR "Search error:" (Some error) s'),
         {| status := 500; body := ErrorBody "Search failed" |})
    end.

End Server.

Arguments ret {W A} a _.
Arguments throw {W A} e _.
Arguments bind {W A B} m k _.
Arguments try_catch {W A} m handler _.

(** ** Notions used to state the properties *)

Section Notions.

Context {W : Type} (E : Env W).

Definition is_exchange (c : Call) : bool :=
  match c with
  | TokenExchange _ => true
  | _ => false
  end.

(** The number of refresh exchanges issued so far. *)
Definition exchanges (s : State W) : nat :=
  length (List.filter is_exchange (calls s)).

Definition is_search (c : Call) : bool :=
  match c with
  | EsSearch _ => true
  | _ => false
  end.

(** The number of queries sent to the index so far. *)
Definition searches (s : State W) : nat :=
  length (List.filter is_search (calls s)).

(** When a call of [getDropboxClient] in state [s] has to refresh, the
    world in which the exchange is issued; [None] when the cached token is
    still valid. *)
Definition refresh_due (s : State W) : option W :=
  match dropboxTokens s with
  | None => Some (world s)
  | Some t =>
      let '(w', t_now) := Date_now E (world s) in
      if (expires_at t <=? t_now)%Z then Some w' else None
  end.


(** Every document of the index is stored under the base64 encoding of its
    own path. *)
Definition index_keyed (idx : gmap string FileDocument) : Prop :=
  map_Forall (fun id doc => id = Base64.encode (path doc)) idx.


(** The Dropbox listing protocol: a listing comes in pages, and while a
    page has [has_more] set the rest is obtained from
    [filesListFolderContinue] at the page's [cursor].  [all_pages] follows
    the protocol from a first page up to [fuel] continuations. *)
Fixpoint all_pages (fuel : nat) (dbx : Dropbox) (page : ListFolderResult) (w : W)
  : option (list Entry) :=
  if has_more page
  then match fuel with
       | O => None
       | S fuel' =>
           match filesListFolderContinue E dbx (cursor page) w with
           | (w', Ok page') => app (entries page) <$> all_pages fuel' dbx page' w'
           | (_, Throw _) => None
           end
       end
  else Some (entries page).

(** The complete recursive listing under the root as the provider holds it
    in world [w]. *)
Definition complete_listing (fuel : nat) (dbx : Dropbox) (w : W) : option (list Entry) :=
  match filesListFolder E dbx "" true w with
  | (w', Ok page) => all_pages fuel dbx page w'
  | (_, Throw _) => None
  end.

End Notions.

(** ** The outcomes of [getDropboxClient], spelled out *)

Section TokenOutcomes.

Context {W : Type} (E : Env W).

Definition with_world (w : W) (s : State W) : State W :=
  Build_State w (dropboxTokens s) (es_docs s) (console s) (calls s).

Definition client_of (t : DropboxTokens) : Dropbox :=
  {| accessToken := access_token t |}.

(** The cache entry built from a token response read at time [t_exchange]. *)
Definition new_tokens (data : TokenData) (t_exchange : Z) : DropboxTokens :=
  {| access_token := data_access_token data;
     refresh_token :=
       (if JsString.truthy (data_refresh_token data)
        then default "" (data_refresh_token data)
        else default "" (process_env E "DROPBOX_REFRESH_TOKEN"));
     expires_at := (t_exchange + expires_in data * 1000)%Z |}.

(** The state after an exchange that ended in world [w] with the cache
    replaced by [t]. *)
Definition refreshed (s : State W) (w : W) (t : DropboxTokens) : State W :=
  Build_State w (Some t) (es_docs s)
    (console s ++ [{| level := LOG;
                      message := "Successfully refreshed Dropbox access token";
                      detail := None |}])
    (calls s ++ [TokenExchange (refresh_request E)]).

(** The state after an exchange that ended in world [w] with error [e]. *)
Definition refused (s : State W) (w : W) (e : Error) : State W :=
  Build_State w (dropboxTokens s) (es_docs s)
    (console s ++ [{| level := ERROR;
                      message := "Error refreshing Dropbox token:";
                      detail := Some e |}])
    (calls s ++ [TokenExchange (refresh_request E)]).

Definition getDropboxClient_outcome (s : State W) : State W * Res Dropbox :=
  if missing_credentials E
  then (s, Throw "Missing Dropbox credentials in environment variables")
  else
    match refresh_due E s with
    | None =>
        (with_world (fst (Date_now E (world s))) s,
         match dropboxTokens s with
         | Some t => Ok (client_of t)
         | None => Throw "TypeError: Cannot read properties of null (reading 'access_token')"
         end)
    | Some w =>
        match fetch_token E (refresh_request E) w with
        | (w1, Throw e) => (refused s w1 e, Throw e)
        | (w1, Ok response) =>
            if ok response
            then match json response with
                 | Throw e => (refused s w1 e, Throw e)
                 | Ok data =>
                     let '(w2, t_exchange) := Date_now E w1 in
                     (refreshed s w2 (new_tokens data t_exchange),
                      Ok (client_of (new_tokens data t_exchange)))
                 end
            else (refused s w1 ("Failed to refresh token: " +:+ statusText response),
                  Throw ("Failed to refresh token: " +:+ statusText response))
        end
    end.


End TokenOutcomes.


(** ** Notions used in the proofs *)

Section ProofNotions.

Context {W : Type} (E : Env W).

(** A relation between the state before and after a computation, whatever
    its outcome. *)
Definition relates {A} (P : State W -> State W -> Prop) (m : M A) : Prop :=
  forall s s' r, m s = (s', r) -> P s s'.

Definition same_docs (s s' : State W) : Prop := es_docs s' = es_docs s.

Definition same_tokens (s s' : State W) : Prop := dropboxTokens s' = dropboxTokens s.

(** The document written for [file] with decoded content [text] and link
    [link]. *)
Definition indexed_document (file : Entry) (text link : string) : FileDocument :=
  {| filename := name file; content := text; path := path_lower file;
     lastModified := server_modified file; doc_url := link |}.

(** What one loop iteration may do to the index: nothing, or write a
    document of the file under the file's id. *)
Definition upsert_step (file : Entry) (idx idx' : gmap string FileDocument) : Prop :=
  idx' = idx \/
  exists doc, path doc = path_lower file /\ filename doc = name file /\
              idx' = <[document_id file := doc]> idx.

Inductive upserted : list Entry -> gmap string FileDocument -> gmap string FileDocument -> Prop :=
| upserted_nil idx : upserted [] idx idx
| upserted_cons file files idx1 idx2 idx3 :
    upsert_step file idx1 idx2 -> upserted files idx2 idx3 ->
    upserted (file :: files) idx1 idx3.

(** The state in which the loop of a run reaches the entry that follows
    [before], the enumeration having ended in state [s1] with [files]: the
    line [Found <n> text files to index] is printed and the iterations of
    [before] are done. *)
Definition loop_reaches (files before : list Entry) (s1 : State W) : State W :=
  fst (forOf E before
         (fst (print LOG ("Found " +:+ pretty (length files) +:+ " text files to index")
                 None s1))).

(** The sharing calls of a file fail: the listing is rejected, or it
    finds no link and the creation is rejected. *)
Definition sharing_fails (dbx : Dropbox) (file : Entry) (s : State W) : Prop :=
  (exists w e,
      sharingListSharedLinks E dbx (path_lower file) (world s) = (w, Throw e))
  \/ (exists w w' e,
         sharingListSharedLinks E dbx (path_lower file) (world s)
           = (w, Ok {| links := [] |}) /\
         sharingCreateSharedLink E dbx (path_lower file) w = (w', Throw e)).

Definition placeholder (file : Entry) : string := "temporary-link-for-" +:+ name file.

Definition sharing_warning (file : Entry) : LogLine :=
  {| level := WARN;
     message := "Could not create shared link for " +:+ name file +:+ ", using temporary link";
     detail := None |}.

End ProofNotions.

Arguments same_docs {W} s s'.
Arguments same_tokens {W} s s'.
Arguments relates {W A} P m.

(** Case analysis on the next scrutinee of a run recorded in [H]. *)
Ltac step_in H :=
  match type of H with
  | context [match ?x with _ => _ end] =>
      lazymatch x with
      | context [match _ with _ => _ end] => fail
      | _ => destruct x eqn:?
      end
  end; cbn beta iota in H.

Ltac run_in H := repeat step_in H.

(** ** The search page ([SearchUI.tsx]) *)

(** [encodeURIComponent] on the UTF-8 code units of a string: the unreserved
    characters stand for themselves, every other code unit becomes [%XX]
    with upper-case hexadecimal digits. *)
Module JsUri.

Definition unreserved : string :=
  "ABCDEFGHIJKLMNOPQRSTUVWXYZabcdefghijklmnopqrstuvwxyz0123456789-_.!~*'()".

Definition is_unreserved (c : ascii) : bool :=
  JsString.occurs (String c "") unreserved.

Definition hex_digit (b3 b2 b1 b0 : bool) : ascii :=
  match String.get ((if b3 then 8 else 0) + (if b2 then 4 else 0)
                    + (if b1 then 2 else 0) + (if b0 then 1 else 0))
          "0123456789ABCDEF" with
  | Some c => c
  | None => "0"%char
  end.

Definition escape (c : ascii) : string :=
  let '(Ascii b0 b1 b2 b3 b4 b5 b6 b7) := c in
  String "%" (String (hex_digit b7 b6 b5 b4) (String (hex_digit b3 b2 b1 b0) "")).

Fixpoint encodeURIComponent (s : string) : string :=
  match s with
  | EmptyString => EmptyString
  | String c s' =>
      if is_unreserved c
      then String c (encodeURIComponent s')
      else escape c +:+ encodeURIComponent s'
  end.

End JsUri.

(** [String.prototype.replace(/<em>(.*?)<\/em>/g, "<strong>$1</strong>")]:
    the matches are found from left to right; at a position where [<em>]
    starts, the lazy group takes the code units up to the first [</em>],
    none of which may be a line terminator, and scanning resumes behind the
    match; where no match starts the code unit is copied. *)
Module JsRegExp.

(** The line terminators [.] does not match: LF, CR, U+2028 and U+2029 (the
    last two as their UTF-8 code units). *)
Definition line_terminator_at (s : string) : bool :=
  JsString.startsWith (String "010" "") s
  || JsString.startsWith (String "013" "") s
  || JsString.startsWith (String "226" (String "128" (String "168" ""))) s
  || JsString.startsWith (String "226" (String "128" (String "169" ""))) s.

(** [(.*?)</em>] from the start of [t]: the group and what follows the
    match. *)
Fixpoint lazy_until_close (t : string) : option (string * string) :=
  if JsString.startsWith "</em>" t then Some ("", JsString.drop 5 t)
  else if line_terminator_at t then None
  else match t with
       | EmptyString => None
       | String c t' =>
           match lazy_until_close t' with
           | Some (group, rest) => Some (String c group, rest)
           | None => None
           end
       end.

(** The global replacement; [fuel] bounds the number of positions
    visited. *)
Fixpoint replace_em (fuel : nat) (s : string) : string :=
  match fuel with
  | O => s
  | S fuel' =>
      match s with
      | EmptyString => EmptyString
      | String c s' =>
          if JsString.startsWith "<em>" s
          then match lazy_until_close (JsString.drop 4 s) with
               | Some (group, rest) =>
                   "<strong>" +:+ group +:+ "</strong>" +:+ replace_em fuel' rest
               | None => String c (replace_em fuel' s')
               end
          else String c (replace_em fuel' s')
      end
  end.

End JsRegExp.

Module SearchUI.

(** [Array.prototype.sort(compareFn)] on a copy of the array.  The sort is
    stable and a comparison yielding [NaN] counts as 0; for a consistent
    comparator the result is the one stable insertion computes. *)
Section ArraySort.

Context {A : Type} (compareFn : A -> A -> option Z).

Definition comparison (a b : A) : Z := default 0%Z (compareFn a b).

Fixpoint insert_sorted (a : A) (sorted : list A) : list A :=
  match sorted with
  | [] => [a]
  | b :: rest =>
      if (0 <? comparison a b)%Z
      then b :: insert_sorted a rest
      else a :: b :: rest
  end.

Fixpoint Array_sort (array : list A) : list A :=
  match array with
  | [] => []
  | a :: rest => insert_sorted a (Array_sort rest)
  end.

End ArraySort.

Inductive SortBy : Type := by_filename | by_date.

Inductive SortOrder : Type := asc | desc.

(** The state of the component ([useState]). *)
Record Component : Type := {
  searchTerm : string;
  results : list SearchResult;
  sortBy : SortBy;
  sortOrder : SortOrder;
  loading : bool;
  hasSearched : bool
}.

(** The initial render. *)
Definition initial : Component :=
  {| searchTerm := ""; results := []; sortBy := by_filename; sortOrder := asc;
     loading := false; hasSearched := false |}.

(** The [Response] of the page's [fetch]. *)
Record SearchResponse : Type := {
  response_ok : bool;
  response_status : nat;
  response_json : Res (list SearchResult)
}.

(** What the page runs in: the build-time API root, the network, and the
    built-ins whose result depends on the locale or on the date parser. *)
Record Browser (W : Type) : Type := {
  VITE_API_URL : option string;
  fetch : string -> W -> W * Res SearchResponse;
  (** [a.localeCompare(b)] *)
  localeCompare : string -> string -> Z;
  (** [new Date(s).getTime()]; [None] is [NaN]. *)
  getTime : string -> option Z
}.
Arguments VITE_API_URL {W} _.
Arguments fetch {W} _ _ _.
Arguments localeCompare {W} _ _ _.
Arguments getTime {W} _ _.

(** The page: the component, the network behind it, its console and the
    URLs it has requested. *)
Record Page (W : Type) : Type := {
  component : Component;
  network : W;
  page_console : list LogLine;
  requested : list string
}.
Arguments component {W} _.
Arguments network {W} _.
Arguments page_console {W} _.
Arguments requested {W} _.
Arguments Build_Page {W} _ _ _ _.

Section Component.

Context {W : Type} (B : Browser W).

(** [setSearchTerm(e.target.value)] *)
Definition setSearchTerm (value : string) (c : Component) : Component :=
  {| searchTerm := value; results := results c; sortBy := sortBy c;
     sortOrder := sortOrder c; loading := loading c; hasSearched := hasSearched c |}.

(** [toggleSort] (lines 59-61) *)
Definition toggleSort (c : Component) : Component :=
  {| searchTerm := searchTerm c; results := results c; sortBy := sortBy c;
     sortOrder := match sortOrder c with asc => desc | desc => asc end;
     loading := loading c; hasSearched := hasSearched c |}.

(** [handleSort] (lines 63-65), on the two values the select offers. *)
Definition handleSort (value : SortBy) (c : Component) : Component :=
  {| searchTerm := searchTerm c; results := results c; sortBy := value;
     sortOrder := sortOrder c; loading := loading c; hasSearched := hasSearched c |}.

(** The request URL of [handleSearch]; an undefined API root is rendered
    as [undefined] by the template. *)
Definition search_url (term : string) : string :=
  default "undefined" (VITE_API_URL B) +:+ "/api/search?q=" +:+ JsUri.encodeURIComponent term.

(** [handleSearch] (lines 30-51), from the click to the end of its
    [finally] block. *)
Definition handleSearch (p : Page W) : Page W :=
  let c := component p in
  if negb (JsString.truthy (Some (searchTerm c))) then p
  else
    let '(w, outcome) := fetch B (search_url (searchTerm c)) (network p) in
    let answer : Res (list SearchResult) :=
      match outcome with
      | Throw e => Throw e
      | Ok response =>
          if negb (response_ok response)
          then Throw ("HTTP error! status: " +:+ pretty (response_status response))
          else response_json response
      end in
    {| component :=
         {| searchTerm := searchTerm c;
            results := match answer with Ok data => data | Throw _ => results c end;
            sortBy := sortBy c; sortOrder := sortOrder c;
            loading := false; hasSearched := true |};
       network := w;
       page_console :=
         match answer with
         | Ok _ => page_console p
         | Throw e =>
             page_console p ++ [{| level := ERROR; message := "Search failed:";
                                   detail := Some e |}]
         end;
       requested := requested p ++ [search_url (searchTerm c)] |}.

(** [handleKeyPress] (lines 53-57) *)
Definition handleKeyPress (key : string) (p : Page W) : Page W :=
  if String.eqb key "Enter" then handleSearch p else p.

(** [replaceTagWithStrong] (lines 67-69); the default parameter turns
    [undefined] into the empty string. *)
Definition replaceTagWithStrong (excerpt : option string) : string :=
  let text := default "" excerpt in
  JsRegExp.replace_em (S (String.length text)) text.

(** The comparator of [sortResults] (lines 72-84). *)
Definition compareResults (c : Component) (a b : SearchResult) : option Z :=
  match sortBy c with
  | by_filename =>
      match sortOrder c with
      | asc => Some (localeCompare B (res_filename a) (res_filename b))
      | desc => Some (localeCompare B (res_filename b) (res_filename a))
      end
  | by_date =>
      match getTime B (res_lastModified a), getTime B (res_lastModified b) with
      | Some dateA, Some dateB =>
          match sortOrder c with
          | asc => Some (dateA - dateB)%Z
          | desc => Some (dateB - dateA)%Z
          end
      | _, _ => None
      end
  end.

(** [sortResults] (lines 71-86) *)
Definition sortResults (c : Component) (rs : list SearchResult) : list SearchResult :=
  Array_sort (compareResults c) rs.

(** The list the page renders (line 88). *)
Definition sortedResults (c : Component) : list SearchResult :=
  sortResults c (results c).

(** The condition under which the page shows [No results found for ..]
    (lines 216-219). *)
Definition showsNoResults (c : Component) : bool :=
  hasSearched c && (length (results c) =? 0)%nat && negb (loading c)
  && JsString.truthy (Some (searchTerm c)).

(** The condition under which the page shows its initial prompt
    (line 208). *)
Definition showsPrompt (c : Component) : bool := negb (hasSearched c).

End Component.

End SearchUI.

(** ** Notions on the trace and on the console *)

Section TraceNotions.

Context {W : Type} (E : Env W).

(** Between two states only calls satisfying [P] were issued. *)
Definition emits (P : Call -> Prop) (s s' : State W) : Prop :=
  exists new, calls s' = (calls s ++ new)%list /\ Forall P new.

(** Between two states only lines satisfying [P] were printed. *)
Definition prints (P : LogLine -> Prop) (s s' : State W) : Prop :=
  exists new, console s' = (console s ++ new)%list /\ Forall P new.

(** The line [Indexed file: <name>]. *)
Definition is_indexed_line (l : LogLine) : bool :=
  match level l with
  | LOG => JsString.startsWith "Indexed file: " (message l)
  | _ => false
  end.

(** The line [Error processing file <name>:]. *)
Definition is_failed_line (l : LogLine) : bool :=
  match level l with
  | ERROR => JsString.startsWith "Error processing file " (message l)
  | _ => false
  end.

Definition indexed_lines (ls : list LogLine) : nat := length (List.filter is_indexed_line ls).

Definition failed_lines (ls : list LogLine) : nat := length (List.filter is_failed_line ls).

(** A line that reports no per-file outcome. *)
Definition quiet_line (l : LogLine) : Prop :=
  is_indexed_line l = false /\ is_failed_line l = false.

(** The paths downloaded, in the order of the calls. *)
Definition download_paths (cs : list Call) : list string :=
  omap (fun c => match c with FilesDownload _ p => Some p | _ => None end) cs.

(** The ids written to the index, in the order of the calls. *)
Definition written_ids (cs : list Call) : list string :=
  omap (fun c => match c with EsIndex _ id => Some id | _ => None end) cs.

(** The client a Dropbox call is made with. *)
Definition call_client (c : Call) : option Dropbox :=
  match c with
  | FilesListFolder dbx _ _ | SharingListSharedLinks dbx _
  | SharingCreateSharedLink dbx _ | FilesDownload dbx _ => Some dbx
  | _ => None
  end.

(** The calls one loop iteration may issue for [file] once it holds the
    client [dbx]: the listing of the shared links, possibly the creation of
    one, the download, possibly the index write. *)
Definition file_calls (file : Entry) (dbx : Dropbox) (cs : list Call) : Prop :=
  exists sharing tail,
    cs = (sharing ++ tail)%list /\
    (sharing = [SharingListSharedLinks dbx (path_lower file)] \/
     sharing = [SharingListSharedLinks dbx (path_lower file);
                SharingCreateSharedLink dbx (path_lower file)]) /\
    (tail = [FilesDownload dbx (path_lower file)] \/
     tail = [FilesDownload dbx (path_lower file); EsIndex indexName (document_id file)]).

(** A call that is no exchange and, when made to Dropbox, carries the
    access token of [t]. *)
Definition carries_token (t : DropboxTokens) (c : Call) : Prop :=
  is_exchange c = false /\
  forall dbx, call_client c = Some dbx -> accessToken dbx = access_token t.

(** The calls the startup may issue. *)
Definition startup_call (c : Call) : Prop :=
  match c with
  | TokenExchange req => req = refresh_request E
  | FilesListFolder _ folder recursive => folder = "" /\ recursive = true
  | IndicesExists index | IndicesCreate index | EsIndex index _ => index = "dropbox_files"
  | EsSearch _ => False
  | _ => True
  end.

End TraceNotions.

(** ** Notions on the search page *)

Section PageNotions.

Context {W : Type} (B : SearchUI.Browser W).

(** The search started from page [p] fails: the request is rejected, the
    answer is not a 2xx one, or its body is not JSON. *)
Definition search_fails (p : SearchUI.Page W) : Prop :=
  match SearchUI.fetch B (SearchUI.search_url B (SearchUI.searchTerm (SearchUI.component p)))
          (SearchUI.network p) with
  | (_, Throw _) => True
  | (_, Ok response) =>
      SearchUI.response_ok response = false \/
      exists e, SearchUI.response_json response = Throw e
  end.

(** The timestamp of a result whose date parses. *)
Definition time_of (r : SearchResult) : Z :=
  default 0%Z (SearchUI.getTime B (res_lastModified r)).

(** [a] may stand before [b] under the comparator. *)
Definition in_order {A} (compareFn : A -> A -> option Z) (a b : A) : Prop :=
  (SearchUI.comparison compareFn a b <= 0)%Z.

End PageNotions.

(** A code unit the encoded term may hold. *)
Definition safe_unit (c : ascii) : Prop := JsUri.is_unreserved c = true \/ c = "%"%char.

(** No code unit of [s] starts a line terminator. *)
Fixpoint single_line (s : string) : bool :=
  match s with
  | EmptyString => true
  | String _ s' => negb (JsRegExp.line_terminator_at s) && single_line s'
  end.

(** ** A concrete browser *)

Module Browsers.

(** A browser whose network answers every request with [answer], which
    compares file names by length and reads the length of a date string as
    its timestamp, the empty string being no date. *)
Definition scripted (answer : Res SearchUI.SearchResponse) : SearchUI.Browser nat :=
  {| SearchUI.VITE_API_URL := Some "http://localhost:3001";
     SearchUI.fetch := fun _ w => (S w, answer);
     SearchUI.localeCompare := fun a b =>
       (Z.of_nat (String.length a) - Z.of_nat (String.length b))%Z;
     SearchUI.getTime := fun s =>
       match s with
       | EmptyString => None
       | _ => Some (Z.of_nat (String.length s))
       end |}.

Definition result (file modified : string) : SearchResult :=
  {| res_filename := file; res_url := "https://dl.dropboxusercontent.com/s/" +:+ file;
     res_lastModified := modified; score := 1%Q; excerpt := None |}.

(** A page on which [hello] has been typed, showing one earlier result. *)
Definition typed : SearchUI.Page nat :=
  {| SearchUI.component :=
       {| SearchUI.searchTerm := "hello";
          SearchUI.results := [result "old.txt" "2024"];
          SearchUI.sortBy := SearchUI.by_filename;
          SearchUI.sortOrder := SearchUI.asc;
          SearchUI.loading := false;
          SearchUI.hasSearched := true |};
     SearchUI.network := 0;
     SearchUI.page_console := [];
     SearchUI.requested := [] |}.

Definition by_date_descending : SearchUI.Component :=
  {| SearchUI.searchTerm := "hello"; SearchUI.results := [];
     SearchUI.sortBy := SearchUI.by_date; SearchUI.sortOrder := SearchUI.desc;
     SearchUI.loading := false; SearchUI.hasSearched := true |}.

End Browsers.

(** ** Concrete environments

    A scripted environment over a world that counts the clock reads and
    remote calls made so far. *)

Module Scenario.

Record Script : Type := {
  clock_at : nat -> Z;
  exchange_at : nat -> Res FetchResponse;
  first_page : Res ListFolderResult;
  next_page : string -> Res ListFolderResult;
  shared_links : string -> Res ListSharedLinksResult;
  new_link : string -> Res SharedLinkMetadata;
  download : string -> Res FileDownload;
  write : string -> Res unit;
  found : Res (list Hit)
}.

Definition credentials (key : string) : option string :=
  if String.eqb key "DROPBOX_APP_KEY" then Some "key"
  else if String.eqb key "DROPBOX_APP_SECRET" then Some "secret"
  else if String.eqb key "DROPBOX_REFRESH_TOKEN" then Some "refresh-0"
  else None.

Definition env (sc : Script) : Env nat :=
  {| process_env := credentials;
     Date_now := fun w => (S w, clock_at sc w);
     fetch_token := fun _ w => (S w, exchange_at sc w);
     filesListFolder := fun _ _ _ w => (S w, first_page sc);
     filesListFolderContinue := fun _ c w => (S w, next_page sc c);
     sharingListSharedLinks := fun _ p w => (S w, shared_links sc p);
     sharingCreateSharedLink := fun _ p w => (S w, new_link sc p);
     filesDownload := fun _ p w => (S w, download sc p);
     toString_utf8 := fun b => b;
     indices_exists := fun _ w => (S w, Ok false);
     indices_create := fun _ _ w => (S w, Ok tt);
     es_index := fun _ id _ w => (S w, write sc id);
     es_search := fun _ w => (S w, found sc) |}.

Definition start : State nat :=
  {| world := O; dropboxTokens := None; es_docs := ∅; console := []; calls := [] |}.

(** The token endpoint grants a token valid for one hour. *)
Definition granted (token : string) : Res FetchResponse :=
  Ok {| ok := true; statusText := "OK";
        json := Ok {| data_access_token := token;
                      data_refresh_token := None;
                      expires_in := 3600 |} |}.

Definition a_txt : Entry :=
  {| name := "a.txt"; path_lower := "/a.txt"; server_modified := Some "2024-01-01T00:00:00Z" |}.
Definition b_md : Entry :=
  {| name := "b.md"; path_lower := "/b.md"; server_modified := Some "2024-01-02T00:00:00Z" |}.
Definition c_TXT : Entry :=
  {| name := "c.TXT"; path_lower := "/c.txt"; server_modified := Some "2024-01-03T00:00:00Z" |}.
Definition b_txt : Entry :=
  {| name := "b.txt"; path_lower := "/b.txt"; server_modified := Some "2024-01-04T00:00:00Z" |}.
Definition d_txt : Entry :=
  {| name := "d.txt"; path_lower := "/d.txt"; server_modified := Some "2024-01-05T00:00:00Z" |}.

(** Three text files; every file has a shared link; the download of
    [b.txt] is rejected; the clock advances one second per read. *)
Definition three_files : Script :=
  {| clock_at := fun w => (1000 * Z.of_nat w)%Z;
     exchange_at := fun _ => granted "token-1";
     first_page := Ok {| entries := [a_txt; b_md; b_txt; c_TXT; d_txt]; cursor := ""; has_more := false |};
     next_page := fun _ => Throw "no such cursor";
     shared_links := fun p =>
       Ok {| links := [{| url := "https://www.dropbox.com/s" +:+ p +:+ "?dl=0" |}] |};
     new_link := fun _ => Throw "shared_link_already_exists";
     download := fun p =>
       if String.eqb p "/b.txt" then Throw "download failed"
       else Ok {| fileBinary := Some ("content of " +:+ p) |};
     write := fun _ => Ok tt;
     found := Ok [] |}.

(** The sharing endpoints are down: both listing and creation fail. *)
Definition sharing_down : Script :=
  {| clock_at := clock_at three_files;
     exchange_at := exchange_at three_files;
     first_page := Ok {| entries := [a_txt; d_txt]; cursor := ""; has_more := false |};
     next_page := next_page three_files;
     shared_links := fun _ => Throw "sharing unavailable";
     new_link := fun _ => Throw "sharing unavailable";
     download := fun p => Ok {| fileBinary := Some ("content of " +:+ p) |};
     write := fun _ => Ok tt;
     found := Ok [] |}.

(** A listing in two pages: [a.txt] on the first, [b.txt] on the second. *)
Definition two_pages : Script :=
  {| clock_at := clock_at three_files;
     exchange_at := exchange_at three_files;
     first_page := Ok {| entries := [a_txt]; cursor := "page-2"; has_more := true |};
     next_page := fun c =>
       if String.eqb c "page-2"
       then Ok {| entries := [b_txt]; cursor := "end"; has_more := false |}
       else Throw "no such cursor";
     shared_links := shared_links three_files;
     new_link := new_link three_files;
     download := fun p => Ok {| fileBinary := Some ("content of " +:+ p) |};
     write := fun _ => Ok tt;
     found := Ok [] |}.


(** Every exchange grants a token that lives two seconds. *)
Definition short_lived : Script :=
  {| clock_at := clock_at three_files;
     exchange_at := fun w =>
       Ok {| ok := true; statusText := "OK";
             json := Ok {| data_access_token := "token-" +:+ pretty w;
                           data_refresh_token := Some "refresh-1";
                           expires_in := 2 |} |};
     first_page := first_page three_files;
     next_page := next_page three_files;
     shared_links := shared_links three_files;
     new_link := new_link three_files;
     download := download three_files;
     write := write three_files;
     found := Ok [] |}.


Definition note_txt : FileDocument :=
  {| filename := "note.txt"; content := "hello world"; path := "/note.txt";
     lastModified := Some "2024-01-01T00:00:00Z";
     doc_url := "https://dl.dropboxusercontent.com/s/note.txt" |}.

(** A search answered with two hits: the first is scored and highlighted,
    the second has neither score nor highlight. *)
Definition two_hits : Script :=
  {| clock_at := clock_at three_files;
     exchange_at := exchange_at three_files;
     first_page := first_page three_files;
     next_page := next_page three_files;
     shared_links := shared_links three_files;
     new_link := new_link three_files;
     download := download three_files;
     write := write three_files;
     found := Ok [ {| _source := Some note_txt; _score := Some (3 # 2)%Q;
                      highlight := Some {[ "content" := ["<em>hello</em> world"; "hello again"] ]} |};
                   {| _source := Some note_txt; _score := None; highlight := None |} ] |}.

(** The index refuses every query. *)
Definition index_down : Script :=
  {| clock_at := clock_at three_files;
     exchange_at := exchange_at three_files;
     first_page := first_page three_files;
     next_page := next_page three_files;
     shared_links := shared_links three_files;
     new_link := new_link three_files;
     download := download three_files;
     write := write three_files;
     found := Throw "connect ECONNREFUSED 127.0.0.1:9200" |}.

(** Shared links in the form Dropbox gives them today: the preview marker
    follows the [rlkey] parameter. *)
Definition modern_links : Script :=
  {| clock_at := clock_at three_files;
     exchange_at := exchange_at three_files;
     first_page := Ok {| entries := [a_txt]; cursor := ""; has_more := false |};
     next_page := next_page three_files;
     shared_links := fun p =>
       Ok {| links := [{| url := "https://www.dropbox.com/scl/fi/abc" +:+ p +:+ "?rlkey=r&dl=0" |}] |};
     new_link := new_link three_files;
     download := fun p => Ok {| fileBinary := Some ("content of " +:+ p) |};
     write := fun _ => Ok tt;
     found := Ok [] |}.


End Scenario.

(** ** More concrete environments *)

Module Scenario2.

(** The three-file environment without [DROPBOX_APP_SECRET]. *)
Definition no_secret : Env nat :=
  let E := Scenario.env Scenario.three_files in
  {| process_env := fun key =>
       if String.eqb key "DROPBOX_APP_SECRET" then Some "" else process_env E key;
     Date_now := Date_now E;
     fetch_token := fetch_token E;
     filesListFolder := filesListFolder E;
     filesListFolderContinue := filesListFolderContinue E;
     sharingListSharedLinks := sharingListSharedLinks E;
     sharingCreateSharedLink := sharingCreateSharedLink E;
     filesDownload := filesDownload E;
     toString_utf8 := toString_utf8 E;
     indices_exists := indices_exists E;
     indices_create := indices_create E;
     es_index := es_index E;
     es_search := es_search E |}.

(** The three-file environment with the answers of the index management
    calls given. *)
Definition with_index (exists_answer : Res bool) (create_answer : Res unit) : Env nat :=
  let E := Scenario.env Scenario.three_files in
  {| process_env := process_env E;
     Date_now := Date_now E;
     fetch_token := fetch_token E;
     filesListFolder := filesListFolder E;
     filesListFolderContinue := filesListFolderContinue E;
     sharingListSharedLinks := sharingListSharedLinks E;
     sharingCreateSharedLink := sharingCreateSharedLink E;
     filesDownload := filesDownload E;
     toString_utf8 := toString_utf8 E;
     indices_exists := fun _ w => (S w, exists_answer);
     indices_create := fun _ _ w => (S w, create_answer);
     es_index := es_index E;
     es_search := es_search E |}.

(** The three-file script with the clock standing at time 5000. *)
Definition frozen_clock : Scenario.Script :=
  let sc := Scenario.three_files in
  {| Scenario.clock_at := fun _ => 5000%Z;
     Scenario.exchange_at := Scenario.exchange_at sc;
     Scenario.first_page := Scenario.first_page sc;
     Scenario.next_page := Scenario.next_page sc;
     Scenario.shared_links := Scenario.shared_links sc;
     Scenario.new_link := Scenario.new_link sc;
     Scenario.download := Scenario.download sc;
     Scenario.write := Scenario.write sc;
     Scenario.found := Scenario.found sc |}.

(** A state holding a token valid until time 10^9. *)
Definition holding_token : State nat :=
  {| world := 0;
     dropboxTokens := Some {| access_token := "token-0"; refresh_token := "rotated";
                              expires_at := 1000000000 |};
     es_docs := ∅; console := []; calls := [] |}.

(** An index holding a document of a file that is no longer listed. *)
Definition stale_index : State nat :=
  {| world := 0; dropboxTokens := None;
     es_docs := {[ Base64.encode "/old.txt" :=
                     {| filename := "old.txt"; content := "gone"; path := "/old.txt";
                        lastModified := None; doc_url := "https://dl.dropboxusercontent.com/s/old.txt" |} ]};
     console := []; calls := [] |}.

End Scenario2.

(** * Verified properties *)

(** ** The primitives on examples *)

Example base64_a_txt : Base64.encode "/a.txt" = "L2EudHh0".
Proof. reflexivity. Qed.

Example base64_one_pad : Base64.encode "/docs/a.txt" = "L2RvY3MvYS50eHQ=".
Proof. reflexivity. Qed.

Example base64_two_pads : Base64.encode "M" = "TQ==".
Proof. reflexivity. Qed.

Example base64_decode_back : Base64.decode 9 "L2RvY3MvYS50eHQ=" = Some "/docs/a.txt".
Proof. reflexivity. Qed.

Example replace_first_only : JsString.replace "a" "b" "banana" = "bbnana".
Proof. reflexivity. Qed.

Example endsWith_longer_suffix : JsString.endsWith "txt" ".txt" = false.
Proof. reflexivity. Qed.

(** ** Strings *)

Module JsStringFacts.
Import JsString.

Lemma append_cons (c : ascii) (a b : string) : String c a +:+ b = String c (a +:+ b).
Proof. reflexivity. Qed.

Lemma append_nil (b : string) : "" +:+ b = b.
Proof. reflexivity. Qed.

Lemma length_append (a b : string) :
  String.length (a +:+ b) = String.length a + String.length b.
Proof.
  induction a as [|c a IH]; [reflexivity |].
  rewrite append_cons. simpl. now rewrite IH.
Qed.

Lemma drop_append (a b : string) : drop (String.length a) (a +:+ b) = b.
Proof.
  induction a as [|c a IH]; [now destruct b |].
  rewrite append_cons. exact IH.
Qed.

Lemma drop_split (n : nat) (s : string) :
  n <= String.length s ->
  exists pre, s = pre +:+ drop n s /\ String.length pre = n.
Proof.
  revert s. induction n as [|n IH]; intros s Hn.
  - exists ""; split; [now destruct s | reflexivity].
  - destruct s as [|c s]; simpl in Hn; [lia |].
    destruct (IH s) as (pre & Hs & Hl); [lia |].
    exists (String c pre); rewrite append_cons; simpl; split; [f_equal; exact Hs | now rewrite Hl].
Qed.

(** [endsWith] holds exactly of the strings that end with the very code
    units of the suffix. *)
Lemma endsWith_spec (s suffix : string) :
  endsWith s suffix = true <-> exists pre, s = pre +:+ suffix.
Proof.
  unfold endsWith. split.
  - destruct (Nat.leb_spec (String.length suffix) (String.length s)) as [Hle|]; [|discriminate].
    intros Heq%String.eqb_eq.
    destruct (drop_split (String.length s - String.length suffix) s) as (pre & Hs & _); [lia |].
    exists pre. now rewrite Heq in Hs.
  - intros [pre ->]. rewrite length_append.
    destruct (Nat.leb_spec (String.length suffix) (String.length pre + String.length suffix)); [|lia].
    replace (String.length pre + String.length suffix - String.length suffix)
      with (String.length pre) by lia.
    rewrite drop_append. apply String.eqb_refl.
Qed.

Lemma startsWith_append (pat rest : string) : startsWith pat (pat +:+ rest) = true.
Proof. induction pat as [|c pat IH]; simpl; [reflexivity | now rewrite Ascii.eqb_refl]. Qed.

(** A pattern does not start at a position holding another character. *)
Lemma startsWith_head (c d : ascii) (pat s : string) :
  c <> d -> startsWith (String c pat) (String d s) = false.
Proof. intros Hne. simpl. now apply Ascii.eqb_neq in Hne as ->. Qed.

(** [replace] leaves a prefix free of the pattern's first character
    alone. *)
Lemma replace_skip (c : ascii) (pat rep pre s : string) :
  occurs (String c "") pre = false ->
  replace (String c pat) rep (pre +:+ s) = pre +:+ replace (String c pat) rep s.
Proof.
  induction pre as [|d pre IH]; intros Hocc; [reflexivity |].
  cbn [occurs startsWith] in Hocc.
  destruct (Ascii.eqb_spec c d) as [|Hne]; [discriminate |].
  rewrite !append_cons.
  cbn [replace]. rewrite (startsWith_head c d) by assumption.
  now rewrite IH.
Qed.

Lemma replace_here (pat rep rest : string) :
  replace pat rep (pat +:+ rest) = rep +:+ rest.
Proof.
  destruct pat as [|c pat]; [now destruct rest |].
  rewrite append_cons. unfold replace; fold replace.
  rewrite <- append_cons.
  now rewrite startsWith_append, drop_append.
Qed.

End JsStringFacts.

(** ** Base64 is injective *)

Module Base64Facts.
Import Base64.

Lemma undigit_digit (x : sextet) : undigit (digit x) = Some x.
Proof. destruct x as [[[[[[] []] []] []] []] []]; vm_compute; reflexivity. Qed.

Lemma digit_not_pad (x : sextet) : is_pad (digit x) = false.
Proof. destruct x as [[[[[[] []] []] []] []] []]; vm_compute; reflexivity. Qed.

Lemma pad_is_pad : is_pad "=" = true.
Proof. reflexivity. Qed.

Lemma decode_encode (fuel : nat) (s : string) :
  String.length s < fuel -> decode fuel (encode s) = Some s.
Proof.
  revert s. induction fuel as [|fuel IH]; intros s Hlen; [lia |].
  destruct s as [|[a0 a1 a2 a3 a4 a5 a6 a7] [|[b0 b1 b2 b3 b4 b5 b6 b7]
                   [|[c0 c1 c2 c3 c4 c5 c6 c7] rest]]];
    cbn [encode decode].
  - reflexivity.
  - rewrite !undigit_digit, pad_is_pad. reflexivity.
  - rewrite !undigit_digit, digit_not_pad, pad_is_pad. reflexivity.
  - rewrite !undigit_digit, !digit_not_pad, IH by (simpl in Hlen; lia).
    reflexivity.
Qed.

Lemma encode_inj (s1 s2 : string) : encode s1 = encode s2 -> s1 = s2.
Proof.
  intros Heq.
  pose proof (decode_encode (S (String.length s1 + String.length s2)) s1) as H1.
  pose proof (decode_encode (S (String.length s1 + String.length s2)) s2) as H2.
  rewrite Heq in H1. rewrite H1 in H2 by lia.
  specialize (H2 ltac:(lia)). congruence.
Qed.

End Base64Facts.

Module LinkFacts.
Import JsString JsStringFacts.

Lemma append_assoc (a b c : string) : (a +:+ b) +:+ c = a +:+ (b +:+ c).
Proof.
  induction a as [|x a IH]; [reflexivity |].
  rewrite !append_cons. now rewrite IH.
Qed.

Lemma append_nil_r (a : string) : a +:+ "" = a.
Proof.
  induction a as [|x a IH]; [reflexivity |].
  rewrite append_cons. now rewrite IH.
Qed.

Lemma occurs_char_append (c : ascii) (a b : string) :
  occurs (String c "") (a +:+ b) = occurs (String c "") a || occurs (String c "") b.
Proof.
  induction a as [|d a IH].
  - rewrite append_nil. reflexivity.
  - rewrite append_cons. cbn [occurs startsWith].
    destruct (Ascii.eqb c d); [reflexivity | exact IH].
Qed.

(** A sharing link without any other question mark loses its host and its
    [?dl=0] marker. *)
Lemma direct_link_shape (rest : string) :
  occurs "?" rest = false ->
  direct_link ("https://www.dropbox.com/" +:+ rest +:+ "?dl=0")
  = "https://dl.dropboxusercontent.com/" +:+ rest.
Proof.
  intros Hq. unfold direct_link.
  change ("https://www.dropbox.com/" +:+ rest +:+ "?dl=0")
    with ("https://" +:+ ("www.dropbox.com" +:+ ("/" +:+ rest +:+ "?dl=0"))).
  rewrite (replace_skip "w" "ww.dropbox.com") by reflexivity.
  rewrite replace_here.
  change ("https://" +:+ "dl.dropboxusercontent.com" +:+ "/" +:+ rest +:+ "?dl=0")
    with ("https://dl.dropboxusercontent.com/" +:+ (rest +:+ ("?dl=0" +:+ ""))).
  rewrite <- append_assoc.
  rewrite (replace_skip "?" "dl=0").
  - rewrite replace_here. now rewrite append_nil_r.
  - rewrite occurs_char_append, Hq. reflexivity.
Qed.

End LinkFacts.

(** ** Reasoning about the control flow *)

Section Control.

Context {W : Type}.

Lemma bind_ok {A B} (m : M A) (k : A -> M B) (s s' : State W) (a : A) :
  m s = (s', Ok a) -> bind m k s = k a s'.
Proof. intros H. unfold bind. now rewrite H. Qed.

Lemma bind_throw {A B} (m : M A) (k : A -> M B) (s s' : State W) (e : Error) :
  m s = (s', Throw e) -> bind m k s = (s', Throw e).
Proof. intros H. unfold bind. now rewrite H. Qed.

Lemma try_ok {A} (m : M A) (h : Error -> M A) (s s' : State W) (a : A) :
  m s = (s', Ok a) -> try_catch m h s = (s', Ok a).
Proof. intros H. unfold try_catch. now rewrite H. Qed.

Lemma try_throw {A} (m : M A) (h : Error -> M A) (s s' : State W) (e : Error) :
  m s = (s', Throw e) -> try_catch m h s = h e s'.
Proof. intros H. unfold try_catch. now rewrite H. Qed.

Section Frame.

Variable P : State W -> State W -> Prop.
Hypothesis P_refl : forall s, P s s.
Hypothesis P_trans : forall s1 s2 s3, P s1 s2 -> P s2 s3 -> P s1 s3.

Lemma relates_ret {A} (a : A) : relates P (ret a).
Proof. intros s s' r [= <- _]. apply P_refl. Qed.

Lemma relates_throw {A} (e : Error) : relates P (throw (A := A) e).
Proof. intros s s' r [= <- _]. apply P_refl. Qed.

Lemma relates_bind {A B} (m : M A) (k : A -> M B) :
  relates P m -> (forall a, relates P (k a)) -> relates P (bind m k).
Proof.
  intros Hm Hk s s' r. unfold bind.
  destruct (m s) as [s1 [a|e]] eqn:Em.
  - intros Hr. eapply P_trans; [eapply Hm, Em | eapply Hk, Hr].
  - intros [= <- _]. eapply Hm, Em.
Qed.

Lemma relates_try_catch {A} (m : M A) (h : Error -> M A) :
  relates P m -> (forall e, relates P (h e)) -> relates P (try_catch m h).
Proof.
  intros Hm Hh s s' r. unfold try_catch.
  destruct (m s) as [s1 [a|e]] eqn:Em.
  - intros [= <- _]. eapply Hm, Em.
  - intros Hr. eapply P_trans; [eapply Hm, Em | eapply Hh, Hr].
Qed.

Lemma relates_pure {A} (r0 : Res A) : relates P (fun s => (s, r0)).
Proof. intros s s' r [= <- _]. apply P_refl. Qed.

End Frame.

End Control.

(** The index and the token cache are touched only where the code says so. *)

Lemma same_docs_refl {W} (s : State W) : same_docs s s.
Proof. reflexivity. Qed.

Lemma same_docs_trans {W} (s1 s2 s3 : State W) :
  same_docs s1 s2 -> same_docs s2 s3 -> same_docs s1 s3.
Proof. unfold same_docs. congruence. Qed.

Lemma same_tokens_refl {W} (s : State W) : same_tokens s s.
Proof. reflexivity. Qed.

Lemma same_tokens_trans {W} (s1 s2 s3 : State W) :
  same_tokens s1 s2 -> same_tokens s2 s3 -> same_tokens s1 s3.
Proof. unfold same_tokens. congruence. Qed.

Section Frames.

Context {W : Type} (E : Env W).

Lemma await_docs {A} (c : Call) (op : W -> W * Res A) : relates same_docs (await c op).
Proof. intros s s' r. unfold await. destruct (op (world s)). now intros [= <- _]. Qed.

Lemma await_tokens {A} (c : Call) (op : W -> W * Res A) : relates same_tokens (await c op).
Proof. intros s s' r. unfold await. destruct (op (world s)). now intros [= <- _]. Qed.

Lemma now_docs : relates same_docs (now E).
Proof. intros s s' r. unfold now. destruct (Date_now E (world s)). now intros [= <- _]. Qed.

Lemma now_tokens : relates same_tokens (now E).
Proof. intros s s' r. unfold now. destruct (Date_now E (world s)). now intros [= <- _]. Qed.

Lemma print_docs (l : Level) (msg : string) (d : option Error) :
  relates (W := W) same_docs (print l msg d).
Proof. now intros s s' r [= <- _]. Qed.

Lemma print_tokens (l : Level) (msg : string) (d : option Error) :
  relates (W := W) same_tokens (print l msg d).
Proof. now intros s s' r [= <- _]. Qed.

Lemma read_tokens_docs : relates (W := W) same_docs read_tokens.
Proof. now intros s s' r [= <- _]. Qed.

Lemma read_tokens_tokens : relates (W := W) same_tokens read_tokens.
Proof. now intros s s' r [= <- _]. Qed.

Lemma write_tokens_docs (t : DropboxTokens) : relates (W := W) same_docs (write_tokens t).
Proof. now intros s s' r [= <- _]. Qed.

(** Composite computations: peel the combinators, split the branches. *)
Ltac frame_docs :=
  repeat first
    [ apply (relates_bind same_docs same_docs_trans); [|intros ?]
    | apply (relates_try_catch same_docs same_docs_trans); [|intros ?]
    | apply (relates_ret same_docs same_docs_refl)
    | apply (relates_throw same_docs same_docs_refl)
    | apply (relates_pure same_docs same_docs_refl)
    | apply await_docs | apply now_docs | apply print_docs
    | apply read_tokens_docs | apply write_tokens_docs
    | match goal with
      | |- relates _ (match ?x with _ => _ end) => destruct x
      | |- relates _ (if ?x then _ else _) => destruct x
      end ].

Ltac frame_tokens :=
  repeat first
    [ apply (relates_bind same_tokens same_tokens_trans); [|intros ?]
    | apply (relates_try_catch same_tokens same_tokens_trans); [|intros ?]
    | apply (relates_ret same_tokens same_tokens_refl)
    | apply (relates_throw same_tokens same_tokens_refl)
    | apply (relates_pure same_tokens same_tokens_refl)
    | apply await_tokens | apply now_tokens | apply print_tokens
    | apply read_tokens_tokens
    | match goal with
      | |- relates _ (match ?x with _ => _ end) => destruct x
      | |- relates _ (if ?x then _ else _) => destruct x
      end ].

Lemma getDropboxClient_docs : relates same_docs (getDropboxClient E).
Proof. unfold getDropboxClient, needs_refresh, refresh. frame_docs. Qed.

Lemma initializeIndex_docs : relates same_docs (initializeIndex E).
Proof. unfold initializeIndex. frame_docs. Qed.

Lemma initializeIndex_tokens : relates same_tokens (initializeIndex E).
Proof. unfold initializeIndex. frame_tokens. Qed.

Lemma listTextFiles_docs : relates same_docs (listTextFiles E).
Proof. unfold listTextFiles. frame_docs. apply getDropboxClient_docs. Qed.

Lemma resolveLink_docs (dbx : Dropbox) (file : Entry) :
  relates same_docs (resolveLink E dbx file).
Proof. unfold resolveLink. frame_docs. Qed.

Lemma resolveLink_tokens (dbx : Dropbox) (file : Entry) :
  relates same_tokens (resolveLink E dbx file).
Proof. unfold resolveLink. frame_tokens. Qed.

End Frames.

(** ** The index under upserts *)

Section Index.

Implicit Types (idx : gmap string FileDocument) (file : Entry) (p id : string).


Lemma upsert_step_keyed file idx idx' :
  index_keyed idx -> upsert_step file idx idx' -> index_keyed idx'.
Proof.
  intros Hk [-> | (doc & Hp & _ & ->)]; [assumption |].
  apply map_Forall_insert_2; [|assumption].
  unfold document_id. now rewrite Hp.
Qed.

Lemma upserted_keyed files idx idx' :
  index_keyed idx -> upserted files idx idx' -> index_keyed idx'.
Proof. intros Hk Hu. induction Hu; eauto using upsert_step_keyed. Qed.

(** A stored document is only ever replaced by a document of the same
    path. *)
Lemma upsert_step_keeps file idx idx' id doc :
  index_keyed idx -> upsert_step file idx idx' -> idx !! id = Some doc ->
  exists doc', idx' !! id = Some doc' /\ path doc' = path doc.
Proof.
  intros Hk [-> | (new & Hp & _ & ->)] Hid; [eauto |].
  destruct (decide (document_id file = id)) as [<- | Hne].
  - exists new. rewrite lookup_insert_eq. split; [reflexivity |].
    apply Hk in Hid. unfold document_id in Hid.
    apply Base64Facts.encode_inj in Hid. congruence.
  - exists doc. now rewrite lookup_insert_ne.
Qed.

Lemma upserted_keeps files idx idx' id doc :
  index_keyed idx -> upserted files idx idx' -> idx !! id = Some doc ->
  exists doc', idx' !! id = Some doc' /\ path doc' = path doc.
Proof.
  intros Hk Hu. revert doc. induction Hu as [|file files i1 i2 i3 Hs Hu IH]; intros doc Hid; [eauto |].
  destruct (upsert_step_keeps _ _ _ _ _ Hk Hs Hid) as (d2 & H2 & Hp2).
  destruct (IH (upsert_step_keyed _ _ _ Hk Hs) _ H2) as (d3 & H3 & Hp3).
  exists d3. split; [assumption | congruence].
Qed.

Lemma upsert_step_dom file idx idx' :
  upsert_step file idx idx' ->
  dom idx ⊆ dom idx' /\ dom idx' ⊆ dom idx ∪ {[document_id file]}.
Proof.
  intros [-> | (doc & _ & _ & ->)]; [set_solver |].
  rewrite dom_insert_L. set_solver.
Qed.

Lemma upserted_dom files idx idx' :
  upserted files idx idx' ->
  dom idx ⊆ dom idx' /\
  dom idx' ⊆ dom idx ∪ list_to_set (document_id <$> files).
Proof.
  intros Hu. induction Hu as [|file files i1 i2 i3 Hs Hu [IH1 IH2]]; [set_solver |].
  destruct (upsert_step_dom _ _ _ Hs) as [H1 H2].
  rewrite fmap_cons, list_to_set_cons. set_solver.
Qed.

Lemma upserted_app files1 files2 idx1 idx2 idx3 :
  upserted files1 idx1 idx2 -> upserted files2 idx2 idx3 ->
  upserted (files1 ++ files2) idx1 idx3.
Proof. intros H1 H2. induction H1; simpl; eauto using upserted. Qed.





End Index.

(** ** The sync loop and the index *)

Section SyncIndex.

Context {W : Type} (E : Env W).

Lemma fetchAndIndex_ok dbx file link (s s' : State W) :
  fetchAndIndex E dbx file link s = (s', Ok tt) ->
  exists text,
    es_docs s' = <[document_id file := indexed_document file text link]> (es_docs s).
Proof.
  unfold fetchAndIndex, bind, await, esClient_index, print, ret, throw. intros H.
  run_in H; try discriminate.
  injection H as <-. cbn. eexists. reflexivity.
Qed.

Lemma fetchAndIndex_throw dbx file link (s s' : State W) e :
  fetchAndIndex E dbx file link s = (s', Throw e) -> es_docs s' = es_docs s.
Proof.
  unfold fetchAndIndex, bind, await, esClient_index, print, ret, throw. intros H.
  run_in H; try discriminate.
  all: injection H as <- _; repeat match goal with
       | H : (_, _) = (_, _) |- _ => injection H as <- _ || injection H as <- <- end;
       reflexivity.
Qed.

End SyncIndex.

Section SyncLoop.

Context {W : Type} (E : Env W).

(** The per-file [try] block either fails, leaving the index as it was, or
    succeeds having written the file's document under the file's id. *)
Lemma processFileBody_throw file (s s' : State W) e :
  processFileBody E file s = (s', Throw e) -> es_docs s' = es_docs s.
Proof.
  unfold processFileBody, bind. intros H.
  destruct (getDropboxClient E s) as [s1 [dbx|e1]] eqn:H1.
  - pose proof (getDropboxClient_docs E _ _ _ H1) as D1.
    destruct (resolveLink E dbx file s1) as [s2 [link|e2]] eqn:H2.
    + pose proof (resolveLink_docs E _ _ _ _ _ H2) as D2.
      apply fetchAndIndex_throw in H. unfold same_docs in *. congruence.
    + pose proof (resolveLink_docs E _ _ _ _ _ H2) as D2.
      injection H as <- _. unfold same_docs in *. congruence.
  - injection H as <- _. exact (getDropboxClient_docs E _ _ _ H1).
Qed.

Lemma processFileBody_ok file (s s' : State W) :
  processFileBody E file s = (s', Ok tt) ->
  exists text link,
    es_docs s' = <[document_id file := indexed_document file text link]> (es_docs s).
Proof.
  unfold processFileBody, bind. intros H.
  destruct (getDropboxClient E s) as [s1 [dbx|e1]] eqn:H1; [|discriminate].
  pose proof (getDropboxClient_docs E _ _ _ H1) as D1.
  destruct (resolveLink E dbx file s1) as [s2 [link|e2]] eqn:H2; [|discriminate].
  pose proof (resolveLink_docs E _ _ _ _ _ H2) as D2.
  apply fetchAndIndex_ok in H as [text H]. exists text, link.
  unfold same_docs in *. congruence.
Qed.

(** An iteration never throws. *)
Lemma processFile_total file (s : State W) : snd (processFile E file s) = Ok tt.
Proof.
  unfold processFile, try_catch.
  destruct (processFileBody E file s) as [s1 [[]|e]]; reflexivity.
Qed.

Lemma processFile_step file (s : State W) :
  upsert_step file (es_docs s) (es_docs (fst (processFile E file s))).
Proof.
  unfold processFile, try_catch.
  destruct (processFileBody E file s) as [s1 [[]|e]] eqn:Hb; cbn.
  - apply processFileBody_ok in Hb as (text & link & ->).
    right. exists (indexed_document file text link). auto.
  - left. eapply processFileBody_throw, Hb.
Qed.

Lemma forOf_cons file files (s : State W) :
  forOf E (file :: files) s = forOf E files (fst (processFile E file s)).
Proof.
  cbn [forOf]. unfold bind.
  pose proof (processFile_total file s) as Ht.
  destruct (processFile E file s) as [s1 r]. cbn in *. now subst r.
Qed.

Lemma forOf_total files (s : State W) : snd (forOf E files s) = Ok tt.
Proof.
  revert s. induction files as [|file files IH]; intros s; [reflexivity |].
  rewrite forOf_cons. apply IH.
Qed.

(** The loop handles the files one after the other, in the order of the
    list. *)
Lemma forOf_app files1 files2 (s : State W) :
  forOf E (files1 ++ files2) s = forOf E files2 (fst (forOf E files1 s)).
Proof.
  revert s. induction files1 as [|file files1 IH]; intros s; [reflexivity |].
  rewrite <- app_comm_cons, !forOf_cons. apply IH.
Qed.

Lemma forOf_upserted files (s : State W) :
  upserted files (es_docs s) (es_docs (fst (forOf E files s))).
Proof.
  revert s. induction files as [|file files IH]; intros s; [constructor |].
  rewrite forOf_cons. econstructor; [apply processFile_step | apply IH].
Qed.

(** A run of [indexDropboxFiles] throws exactly when its enumeration
    does; otherwise it is the loop over the enumerated files. *)
Lemma indexDropboxFiles_listed (s s1 : State W) files :
  listTextFiles E s = (s1, Ok files) ->
  indexDropboxFiles E s =
  forOf E files
    (fst (print LOG ("Found " +:+ pretty (length files) +:+ " text files to index") None s1)).
Proof.
  intros Hl. unfold indexDropboxFiles, try_catch, bind. rewrite Hl. cbn [print fst].
  match goal with |- context [forOf E files ?s0] =>
    pose proof (forOf_total files s0) as Ht; destruct (forOf E files s0) as [s2 r] end.
  cbn in Ht. now subst r.
Qed.

Lemma indexDropboxFiles_aborted (s s1 : State W) e :
  listTextFiles E s = (s1, Throw e) ->
  indexDropboxFiles E s =
  (fst (print ERROR "Error indexing files:" (Some e) s1), Throw e).
Proof. intros Hl. unfold indexDropboxFiles, try_catch, bind. now rewrite Hl. Qed.

Lemma indexDropboxFiles_upserted (s : State W) :
  exists files, upserted files (es_docs s) (es_docs (fst (indexDropboxFiles E s))) /\
    forall s1 listed, listTextFiles E s = (s1, Ok listed) -> files = listed.
Proof.
  destruct (listTextFiles E s) as [s1 [files|e]] eqn:Hl.
  - exists files. rewrite (indexDropboxFiles_listed _ _ _ Hl). split; [|congruence].
    pose proof (listTextFiles_docs E _ _ _ Hl) as D.
    match goal with |- context [forOf E files ?s0] =>
      pose proof (forOf_upserted files s0) as Hu;
      replace (es_docs s0) with (es_docs s) in Hu by (symmetry; exact D) end.
    exact Hu.
  - exists []. rewrite (indexDropboxFiles_aborted _ _ _ Hl). split; [|congruence].
    cbn. rewrite (listTextFiles_docs E _ _ _ Hl). constructor.
Qed.

(** Link resolution never throws. *)
Lemma resolveLink_total dbx file (s : State W) :
  exists link, snd (resolveLink E dbx file s) = Ok link.
Proof.
  unfold resolveLink, try_catch, bind, await, print, ret.
  destruct (sharingListSharedLinks E dbx (path_lower file) (world s)) as [w [[[|first others]]|e]];
    cbn; eauto.
  destruct (sharingCreateSharedLink E dbx (path_lower file) w) as [w' [created|e]]; cbn; eauto.
Qed.

End SyncLoop.

(** ** Partial-failure isolation *)

Section Isolation.

Context {W : Type} (E : Env W).

Lemma indexDropboxFiles_throws (s : State W) e :
  snd (indexDropboxFiles E s) = Throw e <-> snd (listTextFiles E s) = Throw e.
Proof.
  destruct (listTextFiles E s) as [s1 [files|e1]] eqn:Hl.
  - rewrite (indexDropboxFiles_listed E _ _ _ Hl), forOf_total. cbn. split; discriminate.
  - rewrite (indexDropboxFiles_aborted E _ _ _ Hl). cbn [snd]. split; intros [= ->]; reflexivity.
Qed.

Lemma syncRun_throws (s : State W) e :
  snd (syncRun E s) = Throw e <->
  snd (initializeIndex E s) = Throw e \/
  (snd (initializeIndex E s) = Ok tt /\
   snd (listTextFiles E (fst (initializeIndex E s))) = Throw e).
Proof.
  unfold syncRun, bind.
  destruct (initializeIndex E s) as [s1 [[]|e1]]; cbn [fst snd].
  - rewrite indexDropboxFiles_throws. split; [auto | intros [? | [_ ?]]; [discriminate | assumption]].
  - split; [auto | intros [? | [? _]]; [assumption | discriminate]].
Qed.

Lemma processFile_caught file (s s' : State W) e :
  processFileBody E file s = (s', Throw e) ->
  processFile E file s =
  (fst (print ERROR ("Error processing file " +:+ name file +:+ ":") (Some e) s'), Ok tt).
Proof. intros Hb. unfold processFile, try_catch. now rewrite Hb. Qed.

Lemma processFile_done file (s s' : State W) :
  processFileBody E file s = (s', Ok tt) -> processFile E file s = (s', Ok tt).
Proof. intros Hb. unfold processFile, try_catch. now rewrite Hb. Qed.

(** A rejected download makes the per-file chain fail with that error. *)
Lemma download_failure file (s s1 s2 : State W) dbx link w e :
  getDropboxClient E s = (s1, Ok dbx) ->
  resolveLink E dbx file s1 = (s2, Ok link) ->
  filesDownload E dbx (path_lower file) (world s2) = (w, Throw e) ->
  snd (processFileBody E file s) = Throw e.
Proof.
  intros H1 H2 H3. unfold processFileBody.
  rewrite (bind_ok _ _ _ _ _ H1), (bind_ok _ _ _ _ _ H2).
  unfold fetchAndIndex, bind, await. now rewrite H3.
Qed.

(** A refused index write makes the per-file chain fail with that
    error. *)
Lemma write_failure file (s s1 s2 : State W) dbx link w buffer w' e :
  getDropboxClient E s = (s1, Ok dbx) ->
  resolveLink E dbx file s1 = (s2, Ok link) ->
  filesDownload E dbx (path_lower file) (world s2) = (w, Ok {| fileBinary := Some buffer |}) ->
  es_index E indexName (document_id file)
    (indexed_document file (toString_utf8 E buffer) link) w = (w', Throw e) ->
  snd (processFileBody E file s) = Throw e.
Proof.
  intros H1 H2 H3 H4. unfold processFileBody.
  rewrite (bind_ok _ _ _ _ _ H1), (bind_ok _ _ _ _ _ H2).
  unfold fetchAndIndex, bind, await, esClient_index, ret. rewrite H3. cbn.
  unfold indexed_document in H4. now rewrite H4.
Qed.

(** A failure to obtain the client inside the loop is a failure of that
    entry only. *)
Lemma client_failure file (s s1 : State W) e :
  getDropboxClient E s = (s1, Throw e) ->
  snd (processFileBody E file s) = Throw e.
Proof. intros H1. unfold processFileBody. now rewrite (bind_throw _ _ _ _ _ H1). Qed.

(** A download without [fileBinary] makes the decoding step throw. *)
Lemma decode_failure file (s s1 s2 : State W) dbx link w :
  getDropboxClient E s = (s1, Ok dbx) ->
  resolveLink E dbx file s1 = (s2, Ok link) ->
  filesDownload E dbx (path_lower file) (world s2) = (w, Ok {| fileBinary := None |}) ->
  exists e, snd (processFileBody E file s) = Throw e.
Proof.
  intros H1 H2 H3. unfold processFileBody.
  rewrite (bind_ok _ _ _ _ _ H1), (bind_ok _ _ _ _ _ H2).
  unfold fetchAndIndex, bind, await, throw. rewrite H3. cbn. eauto.
Qed.

(** The [listen] callback exits the process exactly when the client cannot
    be obtained at startup or the sync run throws. *)
Lemma onListen_exits PORT (s : State W) :
  snd (onListen E PORT s) = false <->
  (exists e, snd (getDropboxClient E s) = Throw e) \/
  (exists e, snd (syncRun E (fst (getDropboxClient E s))) = Throw e).
Proof.
  unfold onListen, bind.
  destruct (getDropboxClient E s) as [s1 [dbx|e1]]; cbn [fst snd].
  - destruct (syncRun E s1) as [s2 [[]|e2]]; cbn.
    + split; [discriminate | intros [[e H] | [e H]]; discriminate].
    + split; [eauto | reflexivity].
  - split; [eauto | reflexivity].
Qed.

End Isolation.

(** ** The token cache *)

Section TokenCache.

Context {W : Type} (E : Env W).

(** [getDropboxClient] computes exactly the outcome spelled out in
    [getDropboxClient_outcome]. *)
Lemma getDropboxClient_unfold (s : State W) :
  getDropboxClient E s = getDropboxClient_outcome E s.
Proof.
  unfold getDropboxClient, getDropboxClient_outcome.
  destruct (missing_credentials E); [reflexivity |].
  unfold refresh_due, needs_refresh, refresh, try_catch, bind, read_tokens, now, await,
    write_tokens, print, ret, throw.
  destruct s as [w tokens docs out trace]; cbn.
  destruct tokens as [t|]; cbn.
  - destruct (Date_now E w) as [w' t_now]; cbn.
    destruct (expires_at t <=? t_now)%Z; cbn; [|reflexivity].
    destruct (fetch_token E (refresh_request E) w') as [w1 [response|e]]; cbn; [|reflexivity].
    destruct (ok response); cbn; [|reflexivity].
    destruct (json response) as [data|e]; cbn; [|reflexivity].
    destruct (Date_now E w1) as [w2 tx]; reflexivity.
  - destruct (fetch_token E (refresh_request E) w) as [w1 [response|e]]; cbn; [|reflexivity].
    destruct (ok response); cbn; [|reflexivity].
    destruct (json response) as [data|e]; cbn; [|reflexivity].
    destruct (Date_now E w1) as [w2 tx]; reflexivity.
Qed.

Lemma exchanges_snoc (s s' : State W) req :
  calls s' = (calls s ++ [TokenExchange req])%list -> exchanges s' = exchanges s + 1.
Proof.
  intros H. unfold exchanges. rewrite H, List.filter_app, length_app. reflexivity.
Qed.

Lemma exchanges_same (s s' : State W) : calls s' = calls s -> exchanges s' = exchanges s.
Proof. intros H. unfold exchanges. now rewrite H. Qed.

(** A valid cached token is handed out as it is: nothing is exchanged,
    the cache is not written. *)
Lemma getDropboxClient_valid (s : State W) t :
  missing_credentials E = false ->
  dropboxTokens s = Some t ->
  (snd (Date_now E (world s)) < expires_at t)%Z ->
  getDropboxClient E s = (with_world (fst (Date_now E (world s))) s, Ok (client_of t)).
Proof.
  intros Hc Ht Hlt. rewrite getDropboxClient_unfold. unfold getDropboxClient_outcome.
  rewrite Hc. unfold refresh_due. rewrite Ht.
  destruct (Date_now E (world s)) as [w' t_now]; cbn in *.
  destruct (Z.leb_spec (expires_at t) t_now); [lia | reflexivity].
Qed.

(** What a call that returns has done. *)
Lemma getDropboxClient_returns (s s' : State W) c :
  getDropboxClient E s = (s', Ok c) ->
  missing_credentials E = false /\
  match refresh_due E s with
  | None =>
      exists t, dropboxTokens s = Some t /\ c = client_of t /\
                (snd (Date_now E (world s)) < expires_at t)%Z /\
                s' = with_world (fst (Date_now E (world s))) s
  | Some w =>
      exists w1 response data w2 t_exchange,
        fetch_token E (refresh_request E) w = (w1, Ok response) /\
        ok response = true /\ json response = Ok data /\
        Date_now E w1 = (w2, t_exchange) /\
        c = client_of (new_tokens E data t_exchange) /\
        s' = refreshed E s w2 (new_tokens E data t_exchange)
  end.
Proof.
  rewrite getDropboxClient_unfold. unfold getDropboxClient_outcome.
  destruct (missing_credentials E); [discriminate |]. intros H. split; [reflexivity |].
  destruct (refresh_due E s) as [w|] eqn:Hdue.
  - destruct (fetch_token E (refresh_request E) w) as [w1 [response|e]] eqn:Hf; [|discriminate].
    destruct (ok response) eqn:Hok; [|discriminate].
    destruct (json response) as [data|e] eqn:Hj; [|discriminate].
    destruct (Date_now E w1) as [w2 tx] eqn:Hn.
    injection H as <- <-. exists w1, response, data, w2, tx. auto 10.
  - unfold refresh_due in Hdue.
    destruct (dropboxTokens s) as [t|]; [|discriminate].
    destruct (Date_now E (world s)) as [w' t_now]; cbn in *.
    destruct (Z.leb_spec (expires_at t) t_now); [discriminate |].
    injection H as <- <-. exists t. auto.
Qed.


End TokenCache.

(** C5. The token is exchanged only when none is cached or the cached one
    has expired.  Take a call that returns, from any cache state, a second
    call made while the clock reads less than the expiry of the token now
    cached, and a third call made when the clock has reached that expiry.
    The second call returns the cached token unchanged and performs no
    exchange, so the first two calls perform one exchange in total when the
    first found no valid token (none cached, or expired) and none when it
    found one; the third call performs exactly one more exchange, and the
    cache it leaves expires at the time read once the exchange has answered
    plus the lifetime supplied by the provider ([expires_in] seconds). *)
Theorem token_is_cached_until_expiry {W} (E : Env W) (s0 s1 s2 s3 : State W)
    (c1 c3 : Dropbox) (r2 : Res Dropbox) (t : DropboxTokens) :
  getDropboxClient E s0 = (s1, Ok c1) ->
  dropboxTokens s1 = Some t ->
  getDropboxClient E s1 = (s2, r2) ->
  (snd (Date_now E (world s1)) < expires_at t)%Z ->
  getDropboxClient E s2 = (s3, Ok c3) ->
  (expires_at t <= snd (Date_now E (world s2)))%Z ->
  (r2 = Ok c1 /\ c1 = client_of t /\ dropboxTokens s2 = Some t /\ calls s2 = calls s1)
  /\ exchanges s2 = exchanges s0 + match refresh_due E s0 with Some _ => 1 | None => 0 end
  /\ (dropboxTokens s0 = None -> exchanges s2 = exchanges s0 + 1)
  /\ exchanges s3 = exchanges s2 + 1
  /\ exists w1 response data w2 t_exchange,
       fetch_token E (refresh_request E) (fst (Date_now E (world s2))) = (w1, Ok response) /\
       ok response = true /\ json response = Ok data /\
       Date_now E w1 = (w2, t_exchange) /\
       c3 = {| accessToken := data_access_token data |} /\
       exists t', dropboxTokens s3 = Some t' /\
                  access_token t' = data_access_token data /\
                  expires_at t' = (t_exchange + expires_in data * 1000)%Z.
Proof.
  intros H1 Ht H2 Hvalid H3 Hexpired.
  destruct (getDropboxClient_returns E _ _ _ H1) as [Hc R1].
  rewrite (getDropboxClient_valid E s1 t Hc Ht Hvalid) in H2. injection H2 as <- <-.
  assert (c1 = client_of t /\
          exchanges s1 = exchanges s0 + match refresh_due E s0 with Some _ => 1 | None => 0 end)
    as [Hc1 Hx].
  { revert R1. destruct (refresh_due E s0).
    - intros (? & ? & ? & ? & ? & _ & _ & _ & _ & -> & ->). cbn in Ht. split; [congruence |].
      now apply exchanges_snoc with (req := refresh_request E).
    - intros (? & Ht0 & -> & _ & ->). cbn in Ht. split; [congruence |].
      rewrite Nat.add_0_r. now apply exchanges_same. }
  assert (exchanges (with_world (fst (Date_now E (world s1))) s1) = exchanges s1) as Hx2
    by now apply exchanges_same.
  destruct (getDropboxClient_returns E _ _ _ H3) as [_ R3].
  assert (refresh_due E (with_world (fst (Date_now E (world s1))) s1)
          = Some (fst (Date_now E (fst (Date_now E (world s1)))))) as Hdue.
  { unfold refresh_due. cbn in Hexpired |- *. rewrite Ht.
    destruct (Date_now E (fst (Date_now E (world s1)))) as [w' t_now]; cbn in *.
    destruct (Z.leb_spec (expires_at t) t_now); [reflexivity | lia]. }
  rewrite Hdue in R3.
  destruct R3 as (w1 & response & data & w2 & tx & Hf & Hok & Hj & Hn & -> & ->).
  split; [|split; [|split; [|split]]].
  - subst c1. auto.
  - now rewrite Hx2.
  - intros Hnone. rewrite Hx2, Hx. unfold refresh_due. now rewrite Hnone.
  - now apply exchanges_snoc with (req := refresh_request E).
  - exists w1, response, data, w2, tx. cbn.
    repeat (split; [assumption || reflexivity |]).
    eexists. split; [reflexivity |]. split; reflexivity.
Qed.

(** Three calls against an endpoint granting two-second tokens: the second
    call falls inside the validity of the first token, the third after it. *)
Lemma token_is_cached_until_expiry_witness :
  let E := Scenario.env Scenario.short_lived in
  let s1 := fst (getDropboxClient E Scenario.start) in
  let s2 := fst (getDropboxClient E s1) in
  let s3 := fst (getDropboxClient E s2) in
  exchanges Scenario.start = 0 /\ exchanges s2 = 1 /\ exchanges s3 = 2 /\
  (expires_at <$> dropboxTokens s1) = Some 3000%Z /\
  (expires_at <$> dropboxTokens s3) = Some 7000%Z.
Proof.
  intros E s1 s2 s3.
  assert (exists c1 r2 c3 t,
             getDropboxClient E Scenario.start = (s1, Ok c1) /\
             dropboxTokens s1 = Some t /\
             getDropboxClient E s1 = (s2, r2) /\
             (snd (Date_now E (world s1)) < expires_at t)%Z /\
             getDropboxClient E s2 = (s3, Ok c3) /\
             (expires_at t <= snd (Date_now E (world s2)))%Z)
    as (c1 & r2 & c3 & t & H1 & Ht & H2 & Hvalid & H3 & Hexpired).
  { do 4 eexists. vm_compute. repeat split; discriminate. }
  destruct (token_is_cached_until_expiry E _ _ _ _ _ _ _ _ H1 Ht H2 Hvalid H3 Hexpired)
    as (_ & _ & Hx2 & Hx3 & _).
  split; [reflexivity |]. split; [apply Hx2; reflexivity |]. split.
  - rewrite Hx3, Hx2; reflexivity.
  - split; vm_compute; reflexivity.
Defined.




(** ** Enumeration *)

Section Enumeration.

Context {W : Type} (E : Env W).

(** The enumeration returns the text files of the page answered by the
    listing call, in the order of that page. *)
Lemma listTextFiles_first_page (s s1 : State W) dbx w page :
  getDropboxClient E s = (s1, Ok dbx) ->
  filesListFolder E dbx "" true (world s1) = (w, Ok page) ->
  snd (listTextFiles E s) = Ok (List.filter isTextFile (entries page)).
Proof.
  intros H1 H2. unfold listTextFiles. rewrite (bind_ok _ _ _ _ _ H1).
  unfold bind, await, ret. now rewrite H2.
Qed.

Lemma filter_sublist {A} (f : A -> bool) (l : list A) : sublist (List.filter f l) l.
Proof.
  induction l as [|x l IH]; cbn; [constructor |].
  destruct (f x); now constructor.
Qed.

(** When that page is the last one, nothing of the complete listing is
    missed. *)
Lemma listTextFiles_single_page (s s1 : State W) dbx w page fuel :
  getDropboxClient E s = (s1, Ok dbx) ->
  filesListFolder E dbx "" true (world s1) = (w, Ok page) ->
  has_more page = false ->
  exists listing,
    complete_listing E fuel dbx (world s1) = Some listing /\
    snd (listTextFiles E s) = Ok (List.filter isTextFile listing) /\
    sublist (List.filter isTextFile listing) listing /\
    forall entry, In entry listing -> JsString.endsWith (name entry) ".txt" = true ->
                  In entry (List.filter isTextFile listing).
Proof.
  intros H1 H2 Hlast. exists (entries page). split; [|split; [|split]].
  - unfold complete_listing. rewrite H2. destruct fuel; cbn; now rewrite Hlast.
  - eapply listTextFiles_first_page; eassumption.
  - apply filter_sublist.
  - intros entry Hin Hext. apply List.filter_In. auto.
Qed.

(** When that page announces more, a text file of the next page is part of
    the complete listing and is not enumerated. *)
Lemma listTextFiles_misses_continuation (s s1 : State W) dbx w w' page page' entry :
  getDropboxClient E s = (s1, Ok dbx) ->
  filesListFolder E dbx "" true (world s1) = (w, Ok page) ->
  has_more page = true ->
  filesListFolderContinue E dbx (cursor page) w = (w', Ok page') ->
  has_more page' = false ->
  In entry (entries page') -> ~ In entry (entries page) ->
  exists listing listed,
    complete_listing E 1 dbx (world s1) = Some listing /\ In entry listing /\
    snd (listTextFiles E s) = Ok listed /\ ~ In entry listed.
Proof.
  intros H1 H2 Hmore H3 Hlast Hin Hout.
  exists (entries page ++ entries page')%list, (List.filter isTextFile (entries page)).
  split; [|split; [|split]].
  - unfold complete_listing. rewrite H2. cbn. rewrite Hmore, H3. cbn. now rewrite Hlast.
  - apply in_or_app. now right.
  - eapply listTextFiles_first_page; eassumption.
  - intros Hf. apply List.filter_In in Hf as [Hf _]. contradiction.
Qed.

(** A listing failure is thrown to the caller of the run. *)
Lemma listTextFiles_listing_fails (s s1 : State W) dbx w e :
  getDropboxClient E s = (s1, Ok dbx) ->
  filesListFolder E dbx "" true (world s1) = (w, Throw e) ->
  snd (listTextFiles E s) = Throw e /\ snd (indexDropboxFiles E s) = Throw e.
Proof.
  intros H1 H2.
  assert (snd (listTextFiles E s) = Throw e) as Hl.
  { unfold listTextFiles. rewrite (bind_ok _ _ _ _ _ H1).
    unfold bind, await. now rewrite H2. }
  split; [exact Hl |]. now apply indexDropboxFiles_throws.
Qed.

End Enumeration.

(** C3. The enumeration reads one page only.  Against a provider that
    answers the listing call with a first page holding [a.txt] and
    [has_more] set, and the continuation with [b.txt], the complete listing
    holds the two text files, while the enumeration returns [a.txt] alone:
    [b.txt], which carries the extension, is omitted. *)
Theorem enumeration_stops_at_first_page :
  let E := Scenario.env Scenario.two_pages in
  let s1 := fst (getDropboxClient E Scenario.start) in
  let dbx := {| accessToken := "token-1" |} in
  snd (getDropboxClient E Scenario.start) = Ok dbx /\
  complete_listing E 1 dbx (world s1) = Some [Scenario.a_txt; Scenario.b_txt] /\
  isTextFile Scenario.b_txt = true /\
  snd (listTextFiles E Scenario.start) = Ok [Scenario.a_txt] /\
  ~ In Scenario.b_txt [Scenario.a_txt].
Proof.
  repeat split; try (vm_compute; reflexivity).
  intros [H | []]. discriminate H.
Qed.

(** C4. The extension filter keeps exactly the entries whose name ends with
    the code units [.txt]; of [a.txt], [b.md] and [c.TXT] it keeps [a.txt]
    alone. *)
Theorem extension_filter_is_case_sensitive :
  (forall entry : Entry,
     isTextFile entry = true <-> exists stem, name entry = stem +:+ ".txt")
  /\ (forall pa pb pc ma mb mc,
        List.filter isTextFile
          [ {| name := "a.txt"; path_lower := pa; server_modified := ma |};
            {| name := "b.md"; path_lower := pb; server_modified := mb |};
            {| name := "c.TXT"; path_lower := pc; server_modified := mc |} ]
        = [ {| name := "a.txt"; path_lower := pa; server_modified := ma |} ])
  /\ (forall stem p m,
        isTextFile {| name := stem +:+ ".TXT"; path_lower := p; server_modified := m |} = false).
Proof.
  split; [|split].
  - intros entry. apply JsStringFacts.endsWith_spec.
  - reflexivity.
  - intros stem p m. unfold isTextFile. cbn [name].
    destruct (JsString.endsWith (stem +:+ ".TXT") ".txt") eqn:H; [|reflexivity].
    apply JsStringFacts.endsWith_spec in H as [pre H].
    exfalso. revert pre H. induction stem as [|c stem IH]; intros pre H.
    + destruct pre as [|? [|? [|? [|? [|? pre]]]]]; try discriminate H.
      all: rewrite ?JsStringFacts.append_cons in H; cbn in H; try discriminate H.
      all: injection H as _ _ _ _ H; destruct pre; discriminate H.
    + destruct pre as [|d pre].
      * cbn in H. rewrite JsStringFacts.append_cons in H.
        injection H as _ H.
        destruct stem as [|? [|? [|? stem]]]; cbn in H; try discriminate H.
        all: rewrite ?JsStringFacts.append_cons in H; try discriminate H.
        injection H as _ _ _ H. destruct stem; discriminate H.
      * rewrite !JsStringFacts.append_cons in H. injection H as _ H. eapply IH, H.
Qed.

(** ** Link resolution *)

Section Links.

Context {W : Type} (E : Env W).

Lemma resolveLink_degraded dbx file (s : State W) :
  sharing_fails E dbx file s ->
  exists s', resolveLink E dbx file s = (s', Ok (placeholder file)) /\
             console s' = (console s ++ [sharing_warning file])%list /\
             es_docs s' = es_docs s /\ dropboxTokens s' = dropboxTokens s.
Proof.
  unfold resolveLink, try_catch, bind, await, print, ret.
  intros [(w & e & H) | (w & w' & e & H1 & H2)].
  - rewrite H. eexists. split; [reflexivity |]. cbn. auto.
  - rewrite H1. cbn. rewrite H2. eexists. split; [reflexivity |]. cbn. auto.
Qed.

End Links.

(** C7. The preview marker is stripped only where it opens the query.  The
    link of the spec's example, [https://www.dropbox.com/s/abc?dl=0], is
    normalized as expected.  Against a provider that lists, for [/a.txt],
    the link [https://www.dropbox.com/scl/fi/abc/a.txt?rlkey=r&dl=0], link
    resolution rewrites the domain and leaves the marker where it is: the
    link it returns still holds [dl=0], and that is the url under which the
    sync run indexes the file.  Where other parameters follow the marker,
    [?dl=0] is removed together with the [?] that opens the query. *)
Theorem preview_marker_is_not_always_stripped :
  let E := Scenario.env Scenario.modern_links in
  let dbx := {| accessToken := "token-1" |} in
  let s1 := fst (getDropboxClient E Scenario.start) in
  let unstripped := "https://dl.dropboxusercontent.com/scl/fi/abc/a.txt?rlkey=r&dl=0" in
  direct_link "https://www.dropbox.com/s/abc?dl=0" = "https://dl.dropboxusercontent.com/s/abc"
  /\ snd (getDropboxClient E Scenario.start) = Ok dbx
  /\ snd (sharingListSharedLinks E dbx "/a.txt" (world s1))
     = Ok {| links := [{| url := "https://www.dropbox.com/scl/fi/abc/a.txt?rlkey=r&dl=0" |}] |}
  /\ snd (resolveLink E dbx Scenario.a_txt s1) = Ok unstripped
  /\ JsString.occurs "dl=0" unstripped = true
  /\ (doc_url <$> es_docs (fst (indexDropboxFiles E Scenario.start))
                    !! document_id Scenario.a_txt) = Some unstripped
  /\ direct_link "https://www.dropbox.com/s/abc?dl=0&rlkey=r"
     = "https://dl.dropboxusercontent.com/s/abc&rlkey=r".
Proof.
  repeat split; vm_compute; reflexivity.
Qed.

(** ** The search endpoint *)

Section Search.

Context {W : Type} (E : Env W).

Lemma searches_snoc (s s' : State W) req :
  calls s' = (calls s ++ [EsSearch req])%list -> searches s' = searches s + 1.
Proof.
  intros H. unfold searches. rewrite H, List.filter_app, length_app. reflexivity.
Qed.

Lemma search_handler_rejects (query : SearchQueryParams) (s : State W) :
  JsString.truthy (q query) = false ->
  search_handler E query s =
  (s, {| status := 400; body := ErrorBody "Search term is required" |}).
Proof. intros H. unfold search_handler. now rewrite H. Qed.

Lemma search_handler_fails term (s : State W) w e :
  term <> "" ->
  es_search E (search_request term) (world s) = (w, Throw e) ->
  search_handler E {| q := Some term |} s =
  (Build_State w (dropboxTokens s) (es_docs s)
     (console s ++ [{| level := ERROR; message := "Search error:"; detail := Some e |}])
     (calls s ++ [EsSearch (search_request term)]),
   {| status := 500; body := ErrorBody "Search failed" |}).
Proof.
  intros Hne H. unfold search_handler, bind, await, ret, print.
  destruct term as [|c term]; [congruence |]. cbn. now rewrite H.
Qed.

Lemma search_handler_answers term (s : State W) w hits :
  term <> "" ->
  es_search E (search_request term) (world s) = (w, Ok hits) ->
  search_handler E {| q := Some term |} s =
  (Build_State w (dropboxTokens s) (es_docs s) (console s)
     (calls s ++ [EsSearch (search_request term)]),
   {| status := 200; body := ResultsBody (List.map to_result hits) |}).
Proof.
  intros Hne H. unfold search_handler, bind, await, ret.
  destruct term as [|c term]; [congruence |]. cbn. now rewrite H.
Qed.

End Search.

(** C9. A request without a term, or with the empty term, is answered 400
    with [{error: "Search term is required"}] and sends nothing to the
    index (the state, with its record of calls, is untouched).  A request
    with a term sends one query; when the query fails the answer is 500
    with [{error: "Search failed"}] whatever the error, which goes to the
    console only; otherwise the answer is 200 with the array of mapped
    hits. *)
Theorem search_endpoint_responses {W} (E : Env W) (s : State W) :
  (forall query,
     q query = None \/ q query = Some "" ->
     search_handler E query s
       = (s, {| status := 400; body := ErrorBody "Search term is required" |}) /\
     searches (fst (search_handler E query s)) = searches s)
  /\ (forall term w e,
        term <> "" ->
        es_search E (search_request term) (world s) = (w, Throw e) ->
        let s' := fst (search_handler E {| q := Some term |} s) in
        snd (search_handler E {| q := Some term |} s)
          = {| status := 500; body := ErrorBody "Search failed" |} /\
        console s' = (console s ++ [{| level := ERROR; message := "Search error:";
                                       detail := Some e |}])%list /\
        searches s' = searches s + 1)
  /\ (forall term w hits,
        term <> "" ->
        es_search E (search_request term) (world s) = (w, Ok hits) ->
        let s' := fst (search_handler E {| q := Some term |} s) in
        snd (search_handler E {| q := Some term |} s)
          = {| status := 200; body := ResultsBody (List.map to_result hits) |} /\
        console s' = console s /\
        searches s' = searches s + 1).
Proof.
  split; [|split].
  - intros query Hq.
    assert (JsString.truthy (q query) = false) as Hf by (destruct Hq as [-> | ->]; reflexivity).
    rewrite (search_handler_rejects E query s Hf). split; reflexivity.
  - intros term w e Hne H s'. subst s'. rewrite (search_handler_fails E term s w e Hne H).
    cbn [fst snd console]. repeat split.
    now apply searches_snoc with (req := search_request term).
  - intros term w hits Hne H s'. subst s'. rewrite (search_handler_answers E term s w hits Hne H).
    cbn [fst snd console]. repeat split.
    now apply searches_snoc with (req := search_request term).
Qed.

(** The empty term is refused without a query; a term is refused with 500
    when the index is down. *)
Lemma search_endpoint_responses_witness :
  let E := Scenario.env Scenario.index_down in
  search_handler E {| q := Some "" |} Scenario.start
    = (Scenario.start, {| status := 400; body := ErrorBody "Search term is required" |}) /\
  snd (search_handler E {| q := Some "hello" |} Scenario.start)
    = {| status := 500; body := ErrorBody "Search failed" |} /\
  searches (fst (search_handler E {| q := Some "hello" |} Scenario.start)) = 1.
Proof.
  intros E.
  destruct (search_endpoint_responses E Scenario.start) as (H400 & H500 & _).
  split; [apply (H400 {| q := Some "" |}); right; reflexivity |].
  destruct (H500 "hello" 1 "connect ECONNREFUSED 127.0.0.1:9200") as (Hr & _ & Hn);
    [discriminate | reflexivity |].
  split; [exact Hr | exact Hn].
Defined.

(** C10. For a non-empty term answered by the index with [hits], the
    response carries one result per hit, in the order of the hits; the
    result of a hit takes [filename], [url] and [lastModified] from the
    hit's source (the empty string when absent), its [score] is the hit's
    score, or 0 when the hit has none, and its [excerpt] is the first
    fragment highlighted for [content], absent when the hit has no
    highlight, none for [content], or no fragment. *)
Theorem hits_are_mapped_in_order {W} (E : Env W) (term : string) (s : State W) w hits :
  term <> "" ->
  es_search E (search_request term) (world s) = (w, Ok hits) ->
  exists results,
    snd (search_handler E {| q := Some term |} s)
      = {| status := 200; body := ResultsBody results |} /\
    length results = length hits /\
    forall i hit,
      hits !! i = Some hit ->
      exists r,
        results !! i = Some r /\
        res_filename r = match _source hit with Some doc => filename doc | None => "" end /\
        res_url r = match _source hit with Some doc => doc_url doc | None => "" end /\
        res_lastModified r =
          match _source hit with
          | Some doc => match lastModified doc with Some m => m | None => "" end
          | None => ""
          end /\
        score r = match _score hit with Some x => x | None => 0%Q end /\
        excerpt r =
          match highlight hit with
          | Some fields =>
              match fields !! "content" with
              | Some (fragment :: _) => Some fragment
              | Some [] => None
              | None => None
              end
          | None => None
          end.
Proof.
  intros Hne H. exists (List.map to_result hits).
  rewrite (search_handler_answers E term s w hits Hne H). cbn [snd].
  split; [reflexivity |]. split; [apply length_map |].
  intros i hit Hi. exists (to_result hit). split.
  - change (List.map to_result hits) with (to_result <$> hits).
    now rewrite list_lookup_fmap, Hi.
  - destruct hit as [[doc|] [x|] [fields|]]; cbn;
      repeat split; try reflexivity;
      try (destruct (lastModified doc); reflexivity);
      try (destruct (fields !! "content") as [[|fragment others]|]; reflexivity).
Qed.

(** Two hits, the second without score and without highlight. *)
Lemma hits_are_mapped_in_order_witness :
  let E := Scenario.env Scenario.two_hits in
  exists r1 r2,
    snd (search_handler E {| q := Some "hello" |} Scenario.start)
      = {| status := 200; body := ResultsBody [r1; r2] |} /\
    score r1 = (3 # 2)%Q /\ excerpt r1 = Some "<em>hello</em> world" /\
    score r2 = 0%Q /\ excerpt r2 = None.
Proof.
  intros E.
  destruct (hits_are_mapped_in_order E "hello" Scenario.start 1
              [ {| _source := Some Scenario.note_txt; _score := Some (3 # 2)%Q;
                   highlight := Some {[ "content" := ["<em>hello</em> world"; "hello again"] ]} |};
                {| _source := Some Scenario.note_txt; _score := None; highlight := None |} ])
    as (results & Hr & Hlen & Hmap); [discriminate | reflexivity |].
  destruct results as [|r1 [|r2 [|r3 results]]]; try discriminate Hlen.
  exists r1, r2. split; [exact Hr |].
  destruct (Hmap 0 _ eq_refl) as (x1 & [= <-] & _ & _ & _ & Hs1 & He1).
  destruct (Hmap 1 _ eq_refl) as (x2 & [= <-] & _ & _ & _ & Hs2 & He2).
  repeat split; assumption.
Defined.

(** * Further properties of the server *)

(** ** Calls and console lines of composite computations *)

Section TraceFrames.

Context {W : Type} (E : Env W).

Section Emits.

Variable P : Call -> Prop.

Lemma emits_refl (s : State W) : emits P s s.
Proof. exists []. split; [now rewrite app_nil_r | constructor]. Qed.

Lemma emits_trans (s1 s2 s3 : State W) : emits P s1 s2 -> emits P s2 s3 -> emits P s1 s3.
Proof.
  intros (n1 & H1 & F1) (n2 & H2 & F2). exists (n1 ++ n2)%list. split.
  - now rewrite H2, H1, app_assoc.
  - apply Forall_app. auto.
Qed.

Lemma same_calls_emits (s s' : State W) : calls s' = calls s -> emits P s s'.
Proof. intros H. exists []. split; [now rewrite app_nil_r | constructor]. Qed.

Lemma await_emits {A} (c : Call) (op : W -> W * Res A) : P c -> relates (emits P) (await c op).
Proof.
  intros Hc s s' r. unfold await. destruct (op (world s)). intros [= <- _].
  exists [c]. split; [reflexivity | now constructor].
Qed.

Lemma now_emits : relates (emits P) (now E).
Proof.
  intros s s' r. unfold now. destruct (Date_now E (world s)). intros [= <- _].
  now apply same_calls_emits.
Qed.

Lemma print_emits (l : Level) (msg : string) (d : option Error) :
  relates (W := W) (emits P) (print l msg d).
Proof. intros s s' r [= <- _]. now apply same_calls_emits. Qed.

Lemma read_tokens_emits : relates (W := W) (emits P) read_tokens.
Proof. intros s s' r [= <- _]. apply emits_refl. Qed.

Lemma write_tokens_emits (t : DropboxTokens) : relates (W := W) (emits P) (write_tokens t).
Proof. intros s s' r [= <- _]. now apply same_calls_emits. Qed.

Lemma esClient_index_emits (index id : string) (doc : FileDocument) :
  P (EsIndex index id) -> relates (emits P) (esClient_index E index id doc).
Proof.
  intros Hc s s' r. unfold esClient_index.
  destruct (es_index E index id doc (world s)) as [w [[]|e]]; intros [= <- _];
    (exists [EsIndex index id]; split; [reflexivity | now constructor]).
Qed.

(** Peel the combinators; what is left are the side conditions on the calls
    of the leaves. *)
Ltac frame_emits :=
  repeat first
    [ apply (relates_bind (emits P) emits_trans); [|intros ?]
    | apply (relates_try_catch (emits P) emits_trans); [|intros ?]
    | apply (relates_ret (emits P) emits_refl)
    | apply (relates_throw (emits P) emits_refl)
    | apply (relates_pure (emits P) emits_refl)
    | apply await_emits | apply esClient_index_emits
    | apply now_emits | apply print_emits
    | apply read_tokens_emits | apply write_tokens_emits
    | match goal with
      | |- relates _ (match ?x with _ => _ end) => destruct x
      | |- relates _ (if ?x then _ else _) => destruct x
      end ].

Lemma getDropboxClient_emits :
  P (TokenExchange (refresh_request E)) -> relates (emits P) (getDropboxClient E).
Proof. intros H. unfold getDropboxClient, needs_refresh, refresh. frame_emits; exact H. Qed.

Lemma initializeIndex_emits :
  P (IndicesExists indexName) -> P (IndicesCreate indexName) ->
  relates (emits P) (initializeIndex E).
Proof. intros H1 H2. unfold initializeIndex. frame_emits; assumption. Qed.

Lemma listTextFiles_emits :
  P (TokenExchange (refresh_request E)) ->
  (forall dbx, P (FilesListFolder dbx "" true)) ->
  relates (emits P) (listTextFiles E).
Proof.
  intros H1 H2. unfold listTextFiles. frame_emits; [now apply getDropboxClient_emits | apply H2].
Qed.

Lemma resolveLink_emits dbx file :
  P (SharingListSharedLinks dbx (path_lower file)) ->
  P (SharingCreateSharedLink dbx (path_lower file)) ->
  relates (emits P) (resolveLink E dbx file).
Proof. intros H1 H2. unfold resolveLink. frame_emits; assumption. Qed.

Lemma fetchAndIndex_emits dbx file link :
  P (FilesDownload dbx (path_lower file)) ->
  P (EsIndex indexName (document_id file)) ->
  relates (emits P) (fetchAndIndex E dbx file link).
Proof. intros H1 H2. unfold fetchAndIndex. frame_emits; assumption. Qed.

Lemma processFile_emits file :
  P (TokenExchange (refresh_request E)) ->
  (forall dbx, P (SharingListSharedLinks dbx (path_lower file))) ->
  (forall dbx, P (SharingCreateSharedLink dbx (path_lower file))) ->
  (forall dbx, P (FilesDownload dbx (path_lower file))) ->
  P (EsIndex indexName (document_id file)) ->
  relates (emits P) (processFile E file).
Proof.
  intros H1 H2 H3 H4 H5. unfold processFile, processFileBody.
  frame_emits; auto using getDropboxClient_emits.
Qed.

Lemma forOf_emits files :
  P (TokenExchange (refresh_request E)) ->
  (forall file dbx, In file files -> P (SharingListSharedLinks dbx (path_lower file))) ->
  (forall file dbx, In file files -> P (SharingCreateSharedLink dbx (path_lower file))) ->
  (forall file dbx, In file files -> P (FilesDownload dbx (path_lower file))) ->
  (forall file, In file files -> P (EsIndex indexName (document_id file))) ->
  relates (emits P) (forOf E files).
Proof.
  intros H1. induction files as [|file files IH]; intros H2 H3 H4 H5; cbn [forOf].
  - apply (relates_ret (emits P) emits_refl).
  - apply (relates_bind (emits P) emits_trans).
    + apply processFile_emits; auto using in_eq.
    + intros _. apply IH; auto using in_cons.
Qed.

End Emits.

Section Prints.

Variable P : LogLine -> Prop.

Lemma prints_refl (s : State W) : prints P s s.
Proof. exists []. split; [now rewrite app_nil_r | constructor]. Qed.

Lemma prints_trans (s1 s2 s3 : State W) : prints P s1 s2 -> prints P s2 s3 -> prints P s1 s3.
Proof.
  intros (n1 & H1 & F1) (n2 & H2 & F2). exists (n1 ++ n2)%list. split.
  - now rewrite H2, H1, app_assoc.
  - apply Forall_app. auto.
Qed.

Lemma same_console_prints (s s' : State W) : console s' = console s -> prints P s s'.
Proof. intros H. exists []. split; [now rewrite app_nil_r | constructor]. Qed.

Lemma await_prints {A} (c : Call) (op : W -> W * Res A) : relates (prints P) (await c op).
Proof.
  intros s s' r. unfold await. destruct (op (world s)). intros [= <- _].
  now apply same_console_prints.
Qed.

Lemma now_prints : relates (prints P) (now E).
Proof.
  intros s s' r. unfold now. destruct (Date_now E (world s)). intros [= <- _].
  now apply same_console_prints.
Qed.

Lemma print_prints (l : Level) (msg : string) (d : option Error) :
  P {| level := l; message := msg; detail := d |} ->
  relates (W := W) (prints P) (print l msg d).
Proof.
  intros Hl s s' r [= <- _]. eexists. split; [reflexivity | now constructor].
Qed.

Lemma read_tokens_prints : relates (W := W) (prints P) read_tokens.
Proof. intros s s' r [= <- _]. apply prints_refl. Qed.

Lemma write_tokens_prints (t : DropboxTokens) : relates (W := W) (prints P) (write_tokens t).
Proof. intros s s' r [= <- _]. now apply same_console_prints. Qed.

Ltac frame_prints :=
  repeat first
    [ apply (relates_bind (prints P) prints_trans); [|intros ?]
    | apply (relates_try_catch (prints P) prints_trans); [|intros ?]
    | apply (relates_ret (prints P) prints_refl)
    | apply (relates_throw (prints P) prints_refl)
    | apply (relates_pure (prints P) prints_refl)
    | apply await_prints | apply print_prints
    | apply now_prints
    | apply read_tokens_prints | apply write_tokens_prints
    | match goal with
      | |- relates _ (match ?x with _ => _ end) => destruct x
      | |- relates _ (if ?x then _ else _) => destruct x
      end ].

Lemma getDropboxClient_prints :
  P {| level := LOG; message := "Successfully refreshed Dropbox access token"; detail := None |} ->
  (forall e, P {| level := ERROR; message := "Error refreshing Dropbox token:"; detail := Some e |}) ->
  relates (prints P) (getDropboxClient E).
Proof.
  intros H1 H2. unfold getDropboxClient, needs_refresh, refresh. frame_prints; auto.
Qed.

Lemma resolveLink_prints dbx file :
  P {| level := WARN;
       message := "Could not create shared link for " +:+ name file +:+ ", using temporary link";
       detail := None |} ->
  relates (prints P) (resolveLink E dbx file).
Proof. intros H. unfold resolveLink. frame_prints; auto. Qed.

End Prints.

End TraceFrames.

(** ** Startup *)

Section Startup.

Context {W : Type} (E : Env W).

Lemma indexDropboxFiles_emits (P : Call -> Prop) :
  P (TokenExchange (refresh_request E)) ->
  (forall dbx, P (FilesListFolder dbx "" true)) ->
  (forall dbx p, P (SharingListSharedLinks dbx p)) ->
  (forall dbx p, P (SharingCreateSharedLink dbx p)) ->
  (forall dbx p, P (FilesDownload dbx p)) ->
  (forall id, P (EsIndex indexName id)) ->
  relates (emits P) (indexDropboxFiles E).
Proof.
  intros H1 H2 H3 H4 H5 H6. unfold indexDropboxFiles.
  apply (relates_try_catch (emits P) (emits_trans P)).
  - apply (relates_bind (emits P) (emits_trans P)); [now apply listTextFiles_emits |].
    intros files. apply (relates_bind (emits P) (emits_trans P)); [apply print_emits |].
    intros _. apply forOf_emits; auto.
  - intros e. apply (relates_bind (emits P) (emits_trans P)); [apply print_emits |].
    intros _. apply (relates_throw (emits P) (emits_refl P)).
Qed.

(** The three steps of the [listen] callback as one computation. *)
Lemma onListen_steps PORT (s : State W) :
  onListen E PORT s =
  match bind (getDropboxClient E)
          (fun _ => bind (syncRun E)
             (fun _ => print LOG ("Server running on port " +:+ PORT) None)) s with
  | (s', Ok _) => (s', true)
  | (s', Throw error) =>
      (fst (print ERROR "Failed to initialize server:" (Some error) s'), false)
  end.
Proof. reflexivity. Qed.

Lemma onListen_emits (P : Call -> Prop) PORT (s : State W) :
  P (TokenExchange (refresh_request E)) ->
  P (IndicesExists indexName) -> P (IndicesCreate indexName) ->
  (forall dbx, P (FilesListFolder dbx "" true)) ->
  (forall dbx p, P (SharingListSharedLinks dbx p)) ->
  (forall dbx p, P (SharingCreateSharedLink dbx p)) ->
  (forall dbx p, P (FilesDownload dbx p)) ->
  (forall id, P (EsIndex indexName id)) ->
  emits P s (fst (onListen E PORT s)).
Proof.
  intros H1 H2 H3 H4 H5 H6 H7 H8. rewrite onListen_steps.
  match goal with |- context [bind ?m ?k s] => set (run := bind m k) end.
  assert (relates (emits P) run) as Hrun.
  { subst run. apply (relates_bind (emits P) (emits_trans P));
      [now apply getDropboxClient_emits |].
    intros _. apply (relates_bind (emits P) (emits_trans P)); [|intros _; apply print_emits].
    unfold syncRun. apply (relates_bind (emits P) (emits_trans P));
      [now apply initializeIndex_emits |].
    intros _. now apply indexDropboxFiles_emits. }
  destruct (run s) as [s' [u|e]] eqn:Hr; cbn [fst].
  - eapply Hrun, Hr.
  - eapply emits_trans; [eapply Hrun, Hr |]. now apply same_calls_emits.
Qed.

Lemma missing_credentials_true (key : string) :
  In key ["DROPBOX_APP_KEY"; "DROPBOX_APP_SECRET"; "DROPBOX_REFRESH_TOKEN"] ->
  process_env E key = None \/ process_env E key = Some "" ->
  missing_credentials E = true.
Proof.
  intros Hkey Hval. unfold missing_credentials.
  assert (JsString.truthy (process_env E key) = false) as Hf
    by (destruct Hval as [-> | ->]; reflexivity).
  destruct Hkey as [<- | [<- | [<- | []]]]; rewrite Hf; cbn;
    rewrite ?orb_true_r; reflexivity.
Qed.

End Startup.

(** X1. When one of the three credentials is undefined or empty,
    [getDropboxClient] throws the missing-credentials error at once, in
    every state, a valid cached token included: the state is untouched (no
    clock read, no exchange), and the [listen] callback exits without a
    single remote call and without touching the index or the cache. *)
Theorem missing_credentials_fail_fast {W} (E : Env W) (key : string) (PORT : string)
    (s : State W) :
  In key ["DROPBOX_APP_KEY"; "DROPBOX_APP_SECRET"; "DROPBOX_REFRESH_TOKEN"] ->
  process_env E key = None \/ process_env E key = Some "" ->
  getDropboxClient E s = (s, Throw "Missing Dropbox credentials in environment variables")
  /\ snd (onListen E PORT s) = false
  /\ world (fst (onListen E PORT s)) = world s
  /\ calls (fst (onListen E PORT s)) = calls s
  /\ es_docs (fst (onListen E PORT s)) = es_docs s
  /\ dropboxTokens (fst (onListen E PORT s)) = dropboxTokens s.
Proof.
  intros Hkey Hval. pose proof (missing_credentials_true E key Hkey Hval) as Hm.
  assert (getDropboxClient E s
          = (s, Throw "Missing Dropbox credentials in environment variables")) as Hg.
  { unfold getDropboxClient. now rewrite Hm. }
  split; [exact Hg |].
  rewrite onListen_steps, (bind_throw _ _ _ _ _ Hg). cbn. auto.
Qed.

(** Without [DROPBOX_APP_SECRET] the startup stops before any call, even
    with a valid token in the cache. *)
Lemma missing_credentials_fail_fast_witness :
  process_env Scenario2.no_secret "DROPBOX_APP_SECRET" = Some "" /\
  snd (onListen Scenario2.no_secret "3001" Scenario2.holding_token) = false /\
  calls (fst (onListen Scenario2.no_secret "3001" Scenario2.holding_token)) = [].
Proof.
  split; [reflexivity |].
  destruct (missing_credentials_fail_fast Scenario2.no_secret "DROPBOX_APP_SECRET" "3001"
              Scenario2.holding_token) as (_ & Hexit & _ & Hcalls & _).
  - right. left. reflexivity.
  - right. reflexivity.
  - split; [exact Hexit | exact Hcalls].
Defined.

(** X2. [initializeIndex] creates the index only when the existence check
    answers that it is absent: it always issues the check, issues the
    creation (with the five-field mapping) exactly when the check answered
    [false], and succeeds exactly when the index exists or its creation
    succeeds.  It never touches the documents or the token cache. *)
Theorem index_is_created_only_when_absent {W} (E : Env W) (s : State W) :
  let s' := fst (initializeIndex E s) in
  let checked := indices_exists E "dropbox_files" (world s) in
  let created := indices_create E "dropbox_files"
                   [("filename", keyword); ("content", text "standard"); ("path", keyword);
                    ("lastModified", date); ("url", keyword)] (fst checked) in
  calls s' = (calls s ++ IndicesExists "dropbox_files" ::
                match snd checked with
                | Ok false => [IndicesCreate "dropbox_files"]
                | _ => []
                end)%list
  /\ world s' = match snd checked with Ok false => fst created | _ => fst checked end
  /\ (snd (initializeIndex E s) = Ok tt <->
      snd checked = Ok true \/ (snd checked = Ok false /\ snd created = Ok tt))
  /\ es_docs s' = es_docs s
  /\ dropboxTokens s' = dropboxTokens s.
Proof.
  unfold initializeIndex, try_catch, bind, await, print, ret, throw, indexName, index_mappings.
  cbn zeta.
  destruct (indices_exists E "dropbox_files" (world s)) as [w [[|]|e]]; cbn.
  - repeat split; solve [auto | intuition congruence].
  - match goal with |- context [indices_create E ?i ?m w] =>
      destruct (indices_create E i m w) as [w' [[]|e]] end; cbn;
      rewrite <- app_assoc; repeat split; solve [auto | intuition congruence].
  - repeat split; solve [auto | intuition congruence].
Qed.

(** X3. When the existence check is rejected, or the index is absent and
    its creation is rejected, [initializeIndex] logs [Error creating
    index:] with the error (also for a failed check) and throws it; a
    [listen] callback that held a client then exits having made no Dropbox
    call at all, with the index untouched. *)
Theorem schema_failure_stops_startup {W} (E : Env W) (PORT : string) (s s1 : State W)
    (dbx : Dropbox) (e : Error) :
  getDropboxClient E s = (s1, Ok dbx) ->
  ((exists w, indices_exists E indexName (world s1) = (w, Throw e)) \/
   (exists w w', indices_exists E indexName (world s1) = (w, Ok false) /\
                 indices_create E indexName index_mappings w = (w', Throw e))) ->
  let s2 := fst (initializeIndex E s1) in
  let s' := fst (onListen E PORT s) in
  snd (initializeIndex E s1) = Throw e
  /\ console s2 = (console s1 ++ [{| level := ERROR; message := "Error creating index:";
                                     detail := Some e |}])%list
  /\ snd (onListen E PORT s) = false
  /\ console s' = (console s2 ++ [{| level := ERROR; message := "Failed to initialize server:";
                                     detail := Some e |}])%list
  /\ es_docs s' = es_docs s
  /\ exists new, calls s' = (calls s ++ new)%list /\
                 Forall (fun c => call_client c = None) new.
Proof.
  intros Hg Hfail s2 s'.
  assert (exists t, initializeIndex E s1 = (t, Throw e) /\
            console t = (console s1 ++ [{| level := ERROR; message := "Error creating index:";
                                           detail := Some e |}])%list) as (t & Hi & Hlog).
  { unfold initializeIndex, try_catch, bind, await, print, ret, throw.
    destruct Hfail as [(w & H) | (w & w' & H1 & H2)].
    - rewrite H. cbn. eexists. split; reflexivity.
    - rewrite H1. cbn. rewrite H2. cbn. eexists. split; reflexivity. }
  assert (s2 = t) as Hs2 by (subst s2; now rewrite Hi).
  assert (onListen E PORT s
          = (fst (print ERROR "Failed to initialize server:" (Some e) t), false)) as Ho.
  { assert (syncRun E s1 = (t, Throw e)) as Hsync
      by (unfold syncRun; apply (bind_throw _ _ _ _ _ Hi)).
    rewrite onListen_steps, (bind_ok _ _ _ _ _ Hg).
    now rewrite (bind_throw _ _ _ _ _ Hsync). }
  subst s'. rewrite Ho, Hs2, Hi. cbn [fst snd print console es_docs calls].
  repeat split; auto.
  - rewrite (initializeIndex_docs E _ _ _ Hi). exact (getDropboxClient_docs E _ _ _ Hg).
  - apply (emits_trans _ s s1 t).
    + exact (getDropboxClient_emits E (fun c => call_client c = None) eq_refl _ _ _ Hg).
    + exact (initializeIndex_emits E (fun c => call_client c = None) eq_refl eq_refl _ _ _ Hi).
Qed.

(** The index is absent and cannot be created: the startup exits with the
    index empty, having exchanged the token and asked for the index only. *)
Lemma schema_failure_stops_startup_witness :
  let E := Scenario2.with_index (Ok false) (Throw "cluster_block_exception") in
  snd (onListen E "3001" Scenario.start) = false /\
  es_docs (fst (onListen E "3001" Scenario.start)) = ∅ /\
  length (calls (fst (onListen E "3001" Scenario.start))) = 3.
Proof.
  intros E.
  assert (getDropboxClient E Scenario.start
          = (fst (getDropboxClient E Scenario.start), Ok {| accessToken := "token-1" |})) as Hg
    by (vm_compute; reflexivity).
  destruct (schema_failure_stops_startup E "3001" _ _ _ "cluster_block_exception" Hg)
    as (_ & _ & Hexit & _ & Hdocs & _).
  - right. exists 3, 4. split; vm_compute; reflexivity.
  - split; [exact Hexit |]. split; [exact Hdocs |]. vm_compute. reflexivity.
Defined.

(** X4. The [listen] callback reports the server as running exactly when
    the client is obtained, the schema step succeeds and the enumeration
    succeeds, whatever happens to the individual files; its last console
    line is then [Server running on port <PORT>], and otherwise [Failed to
    initialize server:] with the error, the process exiting. *)
Theorem listen_callback_outcome {W} (E : Env W) (PORT : string) (s : State W) :
  let s' := fst (onListen E PORT s) in
  (snd (onListen E PORT s) = true <->
   exists s1 dbx s2 s3 files,
     getDropboxClient E s = (s1, Ok dbx) /\
     initializeIndex E s1 = (s2, Ok tt) /\
     listTextFiles E s2 = (s3, Ok files))
  /\ (snd (onListen E PORT s) = true ->
      last (console s') = Some {| level := LOG;
                                  message := "Server running on port " +:+ PORT;
                                  detail := None |})
  /\ (snd (onListen E PORT s) = false ->
      exists e, last (console s') = Some {| level := ERROR;
                                            message := "Failed to initialize server:";
                                            detail := Some e |}).
Proof.
  cbn zeta. rewrite onListen_steps. unfold syncRun, bind.
  destruct (getDropboxClient E s) as [s1 [dbx|e1]] eqn:Hg; cbn [fst snd].
  2:{ split; [|split].
      - split; [discriminate | intros (? & ? & ? & ? & ? & [=] & _)].
      - discriminate.
      - intros _. exists e1. cbn. apply last_snoc. }
  destruct (initializeIndex E s1) as [s2 [[]|e2]] eqn:Hi; cbn [fst snd].
  2:{ split; [|split].
      - split; [discriminate | intros (? & ? & ? & ? & ? & [= <- <-] & H & _)].
        rewrite Hi in H. discriminate.
      - discriminate.
      - intros _. exists e2. cbn. apply last_snoc. }
  destruct (listTextFiles E s2) as [s3 [files|e3]] eqn:Hl.
  - rewrite (indexDropboxFiles_listed E _ _ _ Hl).
    match goal with |- context [forOf E files ?s0] =>
      pose proof (forOf_total E files s0) as Ht; destruct (forOf E files s0) as [s4 r] end.
    cbn in Ht. subst r. cbn [fst snd].
    split; [|split].
    + split; [intros _; exists s1, dbx, s2, s3, files; auto | reflexivity].
    + intros _. cbn. apply last_snoc.
    + discriminate.
  - rewrite (indexDropboxFiles_aborted E _ _ _ Hl). cbn [fst snd].
    split; [|split].
    + split; [discriminate | intros (? & ? & ? & ? & ? & [= <- <-] & H & H')].
      rewrite Hi in H. injection H as <-. rewrite Hl in H'. discriminate.
    + discriminate.
    + intros _. exists e3. cbn. apply last_snoc.
Qed.

(** X5. Whatever the state, the cached refresh token included, every remote
    call of the [listen] callback is of the expected kind: each token
    exchange sends the refresh token and the client identity of the process
    environment (a refresh token returned by an earlier exchange is cached
    but never sent); the only folder listed is the root, recursively; the
    only index managed and written is [dropbox_files]; no search is
    issued. *)
Theorem startup_calls_are_disciplined {W} (E : Env W) (PORT : string) (s : State W) :
  exists new,
    calls (fst (onListen E PORT s)) = (calls s ++ new)%list
    /\ (forall req, In (TokenExchange req) new ->
          req = {| grant_type := "refresh_token";
                   req_refresh_token := default "" (process_env E "DROPBOX_REFRESH_TOKEN");
                   client_id := default "" (process_env E "DROPBOX_APP_KEY");
                   client_secret := default "" (process_env E "DROPBOX_APP_SECRET") |})
    /\ (forall dbx folder recursive,
          In (FilesListFolder dbx folder recursive) new -> folder = "" /\ recursive = true)
    /\ (forall index, In (IndicesExists index) new \/ In (IndicesCreate index) new ->
          index = "dropbox_files")
    /\ (forall index id, In (EsIndex index id) new -> index = "dropbox_files")
    /\ (forall req, ~ In (EsSearch req) new).
Proof.
  destruct (onListen_emits E (startup_call E) PORT s) as (new & Hnew & Hall);
    try (cbn; intros; auto; reflexivity).
  exists new. split; [exact Hnew |].
  rewrite Forall_forall in Hall.
  repeat split.
  - intros req Hin. apply list_elem_of_In, Hall in Hin. exact Hin.
  - apply list_elem_of_In, Hall in H. apply H.
  - apply list_elem_of_In, Hall in H. apply H.
  - intros index [Hin | Hin]; apply list_elem_of_In, Hall in Hin; exact Hin.
  - intros index id Hin. apply list_elem_of_In, Hall in Hin. exact Hin.
  - intros req Hin. apply list_elem_of_In, Hall in Hin. exact Hin.
Qed.

(** ** Documents that are no longer listed *)

Section Stale.

Implicit Types (idx : gmap string FileDocument) (file : Entry).

Lemma upserted_other files idx idx' (id : string) :
  upserted files idx idx' -> ~ In id (document_id <$> files) -> idx' !! id = idx !! id.
Proof.
  intros Hu. induction Hu as [|file files i1 i2 i3 Hs Hu IH]; intros Hid; [reflexivity |].
  rewrite fmap_cons in Hid.
  rewrite IH by (intros Hin; apply Hid; now right).
  destruct Hs as [-> | (doc & _ & _ & ->)]; [reflexivity |].
  apply lookup_insert_ne. intros Heq. apply Hid. now left.
Qed.

End Stale.

(** X6. A sync run never removes a document: every id present before the
    run is present after it; a document whose id is not the id of an
    enumerated file is left exactly as it was, so the document of a file
    deleted from Dropbox stays in the index; and a run whose enumeration
    fails leaves the whole index as it was. *)
Theorem sync_never_deletes {W} (E : Env W) (s : State W) :
  let s' := fst (indexDropboxFiles E s) in
  (forall id, is_Some (es_docs s !! id) -> is_Some (es_docs s' !! id))
  /\ (forall s1 files id,
        listTextFiles E s = (s1, Ok files) ->
        ~ In id (document_id <$> files) ->
        es_docs s' !! id = es_docs s !! id)
  /\ (forall s1 e, listTextFiles E s = (s1, Throw e) -> es_docs s' = es_docs s).
Proof.
  cbn zeta. destruct (indexDropboxFiles_upserted E s) as (files & Hu & Hlisted).
  split; [|split].
  - intros id Hid. apply elem_of_dom. apply elem_of_dom in Hid.
    destruct (upserted_dom _ _ _ Hu) as [Hsub _]. now apply Hsub.
  - intros s1 listed id Hl Hid. rewrite <- (Hlisted _ _ Hl) in Hid.
    now apply (upserted_other files).
  - intros s1 e Hl. rewrite (indexDropboxFiles_aborted E _ _ _ Hl). cbn.
    exact (listTextFiles_docs E _ _ _ Hl).
Qed.

(** The document of [/old.txt], a file that is no longer listed, survives a
    run over the three listed files. *)
Lemma sync_never_deletes_witness :
  let E := Scenario.env Scenario.three_files in
  let s' := fst (indexDropboxFiles E Scenario2.stale_index) in
  es_docs s' !! Base64.encode "/old.txt" = es_docs Scenario2.stale_index !! Base64.encode "/old.txt"
  /\ is_Some (es_docs s' !! Base64.encode "/old.txt").
Proof.
  intros E s'.
  destruct (sync_never_deletes E Scenario2.stale_index) as (Hkeep & Hsame & _).
  split.
  - apply (Hsame (fst (listTextFiles E Scenario2.stale_index))
             [Scenario.a_txt; Scenario.b_txt; Scenario.d_txt]).
    + vm_compute. reflexivity.
    + vm_compute. intros [H | [H | [H | []]]]; discriminate.
  - apply Hkeep. vm_compute. eexists. reflexivity.
Defined.

(** ** The remote calls and the console lines of one iteration *)

Section Iteration.

Context {W : Type} (E : Env W).

Lemma getDropboxClient_calls (s : State W) :
  calls (fst (getDropboxClient E s)) = calls s \/
  calls (fst (getDropboxClient E s)) = (calls s ++ [TokenExchange (refresh_request E)])%list.
Proof.
  rewrite getDropboxClient_unfold. unfold getDropboxClient_outcome.
  destruct (missing_credentials E); [now left |].
  destruct (refresh_due E s) as [w|]; [|now left].
  destruct (fetch_token E (refresh_request E) w) as [w1 [response|e]]; [|now right].
  destruct (ok response); [|now right].
  destruct (json response) as [data|e]; [|now right].
  destruct (Date_now E w1). now right.
Qed.

Lemma resolveLink_calls dbx file (s : State W) :
  exists sharing link,
    snd (resolveLink E dbx file s) = Ok link /\
    calls (fst (resolveLink E dbx file s)) = (calls s ++ sharing)%list /\
    (sharing = [SharingListSharedLinks dbx (path_lower file)] \/
     sharing = [SharingListSharedLinks dbx (path_lower file);
                SharingCreateSharedLink dbx (path_lower file)]).
Proof.
  unfold resolveLink, try_catch, bind, await, print, ret.
  destruct (sharingListSharedLinks E dbx (path_lower file) (world s)) as [w [[[|first others]]|e]];
    cbn; eauto 6.
  destruct (sharingCreateSharedLink E dbx (path_lower file) w) as [w' [created|e]]; cbn;
    rewrite <- app_assoc; eauto 6.
Qed.

Lemma fetchAndIndex_calls dbx file link (s : State W) :
  calls (fst (fetchAndIndex E dbx file link s))
    = (calls s ++ [FilesDownload dbx (path_lower file)])%list \/
  calls (fst (fetchAndIndex E dbx file link s))
    = (calls s ++ [FilesDownload dbx (path_lower file);
                   EsIndex indexName (document_id file)])%list.
Proof.
  unfold fetchAndIndex, bind, await, esClient_index, print, ret, throw.
  destruct (filesDownload E dbx (path_lower file) (world s)) as [w [[[buffer|]]|e]]; cbn;
    [|now left | now left].
  match goal with |- context [es_index E ?i ?id ?doc w] =>
    destruct (es_index E i id doc w) as [w' [[]|e]] end; cbn;
    rewrite <- app_assoc; now right.
Qed.

(** The console of a download-and-index step: nothing on failure, the
    [Indexed file] line on success. *)
Lemma fetchAndIndex_console dbx file link (s : State W) :
  match snd (fetchAndIndex E dbx file link s) with
  | Ok _ =>
      console (fst (fetchAndIndex E dbx file link s))
      = (console s ++ [{| level := LOG; message := "Indexed file: " +:+ name file;
                          detail := None |}])%list
  | Throw _ => console (fst (fetchAndIndex E dbx file link s)) = console s
  end.
Proof.
  unfold fetchAndIndex, bind, await, esClient_index, print, ret, throw.
  destruct (filesDownload E dbx (path_lower file) (world s)) as [w [[[buffer|]]|e]]; cbn;
    try reflexivity.
  match goal with |- context [es_index E ?i ?id ?doc w] =>
    destruct (es_index E i id doc w) as [w' [[]|e]] end; reflexivity.
Qed.

Lemma fetchAndIndex_tokens dbx file link (s : State W) :
  dropboxTokens (fst (fetchAndIndex E dbx file link s)) = dropboxTokens s.
Proof.
  unfold fetchAndIndex, bind, await, esClient_index, print, ret, throw.
  destruct (filesDownload E dbx (path_lower file) (world s)) as [w [[[buffer|]]|e]]; cbn;
    try reflexivity.
  match goal with |- context [es_index E ?i ?id ?doc w] =>
    destruct (es_index E i id doc w) as [w' [[]|e]] end; reflexivity.
Qed.

(** One iteration, step by step. *)
Lemma processFile_unfold file (s : State W) :
  fst (processFile E file s) =
  match getDropboxClient E s with
  | (s1, Throw e) =>
      fst (print ERROR ("Error processing file " +:+ name file +:+ ":") (Some e) s1)
  | (s1, Ok dbx) =>
      match resolveLink E dbx file s1 with
      | (s2, Throw e) =>
          fst (print ERROR ("Error processing file " +:+ name file +:+ ":") (Some e) s2)
      | (s2, Ok link) =>
          match fetchAndIndex E dbx file link s2 with
          | (s3, Ok _) => s3
          | (s3, Throw e) =>
              fst (print ERROR ("Error processing file " +:+ name file +:+ ":") (Some e) s3)
          end
      end
  end.
Proof.
  unfold processFile, try_catch, processFileBody, bind.
  destruct (getDropboxClient E s) as [s1 [dbx|e1]]; [|reflexivity].
  destruct (resolveLink E dbx file s1) as [s2 [link|e2]]; [|reflexivity].
  destruct (fetchAndIndex E dbx file link s2) as [s3 [[]|e3]]; reflexivity.
Qed.

Lemma processFile_calls file (s : State W) :
  match snd (getDropboxClient E s) with
  | Throw _ => calls (fst (processFile E file s)) = calls (fst (getDropboxClient E s))
  | Ok dbx =>
      exists rest,
        calls (fst (processFile E file s))
          = (calls (fst (getDropboxClient E s)) ++ rest)%list /\
        file_calls file dbx rest
  end.
Proof.
  rewrite processFile_unfold.
  destruct (getDropboxClient E s) as [s1 [dbx|e1]]; cbn [fst snd]; [|reflexivity].
  destruct (resolveLink_calls dbx file s1) as (sharing & link & Hok & Hcalls & Hshape).
  destruct (resolveLink E dbx file s1) as [s2 r]. cbn [fst snd] in *. subst r.
  pose proof (fetchAndIndex_calls dbx file link s2) as Htail.
  assert (exists tail,
             calls (fst (fetchAndIndex E dbx file link s2)) = (calls s2 ++ tail)%list /\
             (tail = [FilesDownload dbx (path_lower file)] \/
              tail = [FilesDownload dbx (path_lower file);
                      EsIndex indexName (document_id file)])) as (tail & Ht & Htshape)
    by (destruct Htail; eauto).
  exists (sharing ++ tail)%list. split.
  - destruct (fetchAndIndex E dbx file link s2) as [s3 [[]|e3]]; cbn [fst snd print calls] in *;
      rewrite Ht, Hcalls, <- !app_assoc; reflexivity.
  - exists sharing, tail. auto.
Qed.

Lemma processFile_tokens file (s : State W) :
  dropboxTokens (fst (processFile E file s)) = dropboxTokens (fst (getDropboxClient E s)).
Proof.
  rewrite processFile_unfold.
  destruct (getDropboxClient E s) as [s1 [dbx|e1]]; cbn [fst snd]; [|reflexivity].
  destruct (resolveLink E dbx file s1) as [s2 [link|e2]] eqn:Hr.
  - pose proof (fetchAndIndex_tokens dbx file link s2) as Hf.
    destruct (fetchAndIndex E dbx file link s2) as [s3 [[]|e3]]; cbn [fst print dropboxTokens] in *;
      rewrite Hf; exact (resolveLink_tokens E _ _ _ _ _ Hr).
  - cbn. exact (resolveLink_tokens E _ _ _ _ _ Hr).
Qed.

Lemma download_paths_app (a b : list Call) :
  download_paths (a ++ b) = (download_paths a ++ download_paths b)%list.
Proof. apply omap_app. Qed.

Lemma written_ids_app (a b : list Call) :
  written_ids (a ++ b) = (written_ids a ++ written_ids b)%list.
Proof. apply omap_app. Qed.

(** What one iteration downloads and writes. *)
Lemma processFile_transfers file (s : State W) :
  exists new,
    calls (fst (processFile E file s)) = (calls s ++ new)%list /\
    (download_paths new = [] \/ download_paths new = [path_lower file]) /\
    (written_ids new = [] \/ written_ids new = [document_id file]).
Proof.
  pose proof (processFile_calls file s) as Hshape.
  assert (exists tok, calls (fst (getDropboxClient E s)) = (calls s ++ tok)%list /\
                      download_paths tok = [] /\ written_ids tok = []) as (tok & Hk & D & I).
  { destruct (getDropboxClient_calls s) as [H | H].
    - exists []. rewrite H, app_nil_r. auto.
    - exists [TokenExchange (refresh_request E)]. rewrite H. auto. }
  revert Hshape. destruct (snd (getDropboxClient E s)) as [dbx|e].
  - intros (rest & Hcalls & sharing & tail & -> & Hs & Ht).
    exists (tok ++ sharing ++ tail)%list. split; [rewrite Hcalls, Hk, <- !app_assoc; reflexivity |].
    rewrite !download_paths_app, !written_ids_app, D, I.
    destruct Hs as [-> | ->], Ht as [-> | ->]; cbn; auto.
  - intros Hcalls. exists tok. rewrite Hcalls, Hk, D, I. auto.
Qed.

Lemma forOf_transfers files (s : State W) :
  exists new,
    calls (fst (forOf E files s)) = (calls s ++ new)%list /\
    sublist (download_paths new) (path_lower <$> files) /\
    sublist (written_ids new) (document_id <$> files).
Proof.
  revert s. induction files as [|file files IH]; intros s.
  - exists []. cbn. rewrite app_nil_r. repeat split; constructor.
  - rewrite forOf_cons.
    destruct (processFile_transfers file s) as (n1 & H1 & D1 & I1).
    destruct (IH (fst (processFile E file s))) as (n2 & H2 & D2 & I2).
    exists (n1 ++ n2)%list. split; [rewrite H2, H1, <- !app_assoc; reflexivity |].
    rewrite download_paths_app, written_ids_app, !fmap_cons. split.
    + destruct D1 as [-> | ->]; cbn; now constructor.
    + destruct I1 as [-> | ->]; cbn; now constructor.
Qed.

(** The lines of one iteration: exactly one reports the outcome. *)
Lemma processFile_lines file (s : State W) :
  exists new,
    console (fst (processFile E file s)) = (console s ++ new)%list /\
    indexed_lines new + failed_lines new = 1 /\
    (indexed_lines new = 1 <-> snd (processFileBody E file s) = Ok tt).
Proof.
  assert (forall lines last,
             Forall quiet_line lines ->
             indexed_lines (lines ++ [last]) = (if is_indexed_line last then 1 else 0) /\
             failed_lines (lines ++ [last]) = (if is_failed_line last then 1 else 0)) as Hcount.
  { intros lines l Hq. unfold indexed_lines, failed_lines. rewrite !List.filter_app, !length_app.
    assert (List.filter is_indexed_line lines = [] /\ List.filter is_failed_line lines = [])
      as [-> ->].
    { induction Hq as [|x xs [Hx1 Hx2] _ [IH1 IH2]]; [auto |]. cbn. now rewrite Hx1, Hx2. }
    cbn. destruct (is_indexed_line l), (is_failed_line l); auto. }
  assert (forall e, is_indexed_line {| level := ERROR;
                      message := "Error processing file " +:+ name file +:+ ":";
                      detail := Some e |} = false /\
                    is_failed_line {| level := ERROR;
                      message := "Error processing file " +:+ name file +:+ ":";
                      detail := Some e |} = true) as Hfailed.
  { intros e. split; [reflexivity |]. unfold is_failed_line. cbn [level message].
    apply JsStringFacts.startsWith_append. }
  assert (is_indexed_line {| level := LOG; message := "Indexed file: " +:+ name file;
                             detail := None |} = true /\
          is_failed_line {| level := LOG; message := "Indexed file: " +:+ name file;
                            detail := None |} = false) as Hindexed.
  { split; [|reflexivity]. unfold is_indexed_line. cbn [level message].
    apply JsStringFacts.startsWith_append. }
  assert (relates (prints quiet_line) (getDropboxClient E)) as Qg
    by (apply getDropboxClient_prints; [split; reflexivity | intros; split; reflexivity]).
  assert (forall dbx, relates (prints quiet_line) (resolveLink E dbx file)) as Qr
    by (intros dbx; apply resolveLink_prints; split; reflexivity).
  pose (failed e := {| level := ERROR;
                       message := "Error processing file " +:+ name file +:+ ":";
                       detail := Some e |}).
  pose (indexed := {| level := LOG; message := "Indexed file: " +:+ name file;
                      detail := None |}).
  rewrite processFile_unfold. unfold processFileBody, bind.
  destruct (getDropboxClient E s) as [s1 [dbx|e1]] eqn:Hg.
  - destruct (Qg _ _ _ Hg) as (q1 & C1 & F1).
    destruct (resolveLink E dbx file s1) as [s2 [link|e2]] eqn:Hr.
    + destruct (Qr dbx _ _ _ Hr) as (q2 & C2 & F2).
      assert (Forall quiet_line (q1 ++ q2)) as F12 by (apply Forall_app; auto).
      pose proof (fetchAndIndex_console dbx file link s2) as Hc.
      destruct (fetchAndIndex E dbx file link s2) as [s3 [[]|e3]]; cbn [fst snd print console] in *.
      * exists ((q1 ++ q2) ++ [indexed])%list.
        split; [rewrite Hc, C2, C1, <- !app_assoc; reflexivity |].
        destruct (Hcount _ indexed F12) as [-> ->]. subst indexed.
        destruct Hindexed as [-> ->]. split; [reflexivity | split; reflexivity].
      * exists ((q1 ++ q2) ++ [failed e3])%list.
        split; [rewrite Hc, C2, C1, <- !app_assoc; reflexivity |].
        destruct (Hcount _ (failed e3) F12) as [-> ->]. subst failed.
        destruct (Hfailed e3) as [-> ->]. split; [reflexivity | split; discriminate].
    + destruct (Qr dbx _ _ _ Hr) as (q2 & C2 & F2).
      assert (Forall quiet_line (q1 ++ q2)) as F12 by (apply Forall_app; auto).
      cbn [fst snd print console].
      exists ((q1 ++ q2) ++ [failed e2])%list.
      split; [rewrite C2, C1, <- !app_assoc; reflexivity |].
      destruct (Hcount _ (failed e2) F12) as [-> ->]. subst failed.
      destruct (Hfailed e2) as [-> ->]. split; [reflexivity | split; discriminate].
  - destruct (Qg _ _ _ Hg) as (q1 & C1 & F1). cbn [fst snd print console].
    exists (q1 ++ [failed e1])%list.
    split; [rewrite C1, <- !app_assoc; reflexivity |].
    destruct (Hcount _ (failed e1) F1) as [-> ->]. subst failed.
    destruct (Hfailed e1) as [-> ->]. split; [reflexivity | split; discriminate].
Qed.

Lemma forOf_lines files (s : State W) :
  exists new,
    console (fst (forOf E files s)) = (console s ++ new)%list /\
    indexed_lines new + failed_lines new = length files.
Proof.
  revert s. induction files as [|file files IH]; intros s.
  - exists []. cbn. now rewrite app_nil_r.
  - rewrite forOf_cons.
    destruct (processFile_lines file s) as (n1 & H1 & C1 & _).
    destruct (IH (fst (processFile E file s))) as (n2 & H2 & C2).
    exists (n1 ++ n2)%list. split; [rewrite H2, H1, <- !app_assoc; reflexivity |].
    unfold indexed_lines, failed_lines in *.
    rewrite !List.filter_app, !length_app. cbn [length]. lia.
Qed.

End Iteration.

(** X7. The remote calls of one loop iteration are strictly sequential and
    never repeated: at most one token exchange while obtaining the client;
    when the client cannot be obtained, nothing else; otherwise, with that
    client and the file's lowercase path, one listing of the shared links,
    a creation only after it, one download, and an index write (to
    [dropbox_files], under the file's id) only after the download. *)
Theorem file_calls_are_sequential {W} (E : Env W) (file : Entry) (s : State W) :
  let s1 := fst (getDropboxClient E s) in
  let s' := fst (processFile E file s) in
  (calls s1 = calls s \/ calls s1 = (calls s ++ [TokenExchange (refresh_request E)])%list)
  /\ match snd (getDropboxClient E s) with
     | Throw _ => calls s' = calls s1
     | Ok dbx =>
         exists sharing tail,
           calls s' = (calls s1 ++ sharing ++ tail)%list /\
           (sharing = [SharingListSharedLinks dbx (path_lower file)] \/
            sharing = [SharingListSharedLinks dbx (path_lower file);
                       SharingCreateSharedLink dbx (path_lower file)]) /\
           (tail = [FilesDownload dbx (path_lower file)] \/
            tail = [FilesDownload dbx (path_lower file);
                    EsIndex "dropbox_files" (Base64.encode (path_lower file))])
     end.
Proof.
  cbn zeta. split; [apply getDropboxClient_calls |].
  pose proof (processFile_calls E file s) as H. revert H.
  destruct (snd (getDropboxClient E s)) as [dbx|e]; [|auto].
  intros (rest & Hcalls & sharing & tail & -> & Hs & Ht). exists sharing, tail. auto.
Qed.

Section WholeRun.

Context {W : Type} (E : Env W).

Lemma listTextFiles_filtered (s s1 : State W) files :
  listTextFiles E s = (s1, Ok files) -> Forall (fun f => isTextFile f = true) files.
Proof.
  unfold listTextFiles, bind, await, ret. intros H.
  destruct (getDropboxClient E s) as [s0 [dbx|e]]; [|discriminate].
  destruct (filesListFolder E dbx "" true (world s0)) as [w [page|e]]; [|discriminate].
  injection H as _ <-. apply Forall_forall. intros f Hin.
  apply list_elem_of_In, List.filter_In in Hin. apply Hin.
Qed.

Lemma no_transfer (new : list Call) :
  Forall (fun c => download_paths [c] = [] /\ written_ids [c] = []) new ->
  download_paths new = [] /\ written_ids new = [].
Proof.
  induction 1 as [|c new [Hd Hi] _ [IHd IHi]]; [split; reflexivity |].
  change (c :: new) with ([c] ++ new)%list.
  now rewrite download_paths_app, written_ids_app, Hd, Hi, IHd, IHi.
Qed.

Lemma indexDropboxFiles_transfers (s s1 : State W) files :
  listTextFiles E s = (s1, Ok files) ->
  exists new,
    calls (fst (indexDropboxFiles E s)) = (calls s ++ new)%list /\
    sublist (download_paths new) (path_lower <$> files) /\
    sublist (written_ids new) (document_id <$> files).
Proof.
  intros Hl. rewrite (indexDropboxFiles_listed E _ _ _ Hl).
  destruct (listTextFiles_emits E (fun c => download_paths [c] = [] /\ written_ids [c] = [])
              ltac:(split; reflexivity) ltac:(intros; split; reflexivity) _ _ _ Hl)
    as (n0 & H0 & F0).
  destruct (no_transfer n0 F0) as [D0 I0].
  match goal with |- context [forOf E files ?s0] =>
    destruct (forOf_transfers E files s0) as (n1 & H1 & D1 & I1);
    change (calls s0) with (calls s1) in H1 end.
  exists (n0 ++ n1)%list. split; [rewrite H1, H0, <- !app_assoc; reflexivity |].
  now rewrite download_paths_app, written_ids_app, D0, I0.
Qed.

End WholeRun.

(** X8. In a sync run, downloads and index writes are confined to the
    enumerated files: the paths downloaded, in the order of the calls, form
    a subsequence of the enumerated paths, and the ids written a
    subsequence of their ids, so each file is downloaded and written at
    most once, in listing order; and every path downloaded belongs to an
    entry whose name ends with [.txt]. *)
Theorem transfers_follow_the_listing {W} (E : Env W) (s s1 : State W) (files : list Entry) :
  listTextFiles E s = (s1, Ok files) ->
  exists new,
    calls (fst (indexDropboxFiles E s)) = (calls s ++ new)%list /\
    sublist (download_paths new) (path_lower <$> files) /\
    sublist (written_ids new) (document_id <$> files) /\
    forall p, In p (download_paths new) ->
      exists entry, In entry files /\ path_lower entry = p /\
                    JsString.endsWith (name entry) ".txt" = true.
Proof.
  intros Hl. destruct (indexDropboxFiles_transfers E _ _ _ Hl) as (new & Hc & Hd & Hi).
  exists new. repeat split; try assumption.
  intros p Hp. apply list_elem_of_In in Hp. apply (fun H => elem_of_sublist _ _ _ H Hd) in Hp.
  apply list_elem_of_fmap in Hp as (entry & -> & Hin).
  exists entry. split; [now apply list_elem_of_In |]. split; [reflexivity |].
  pose proof (listTextFiles_filtered E _ _ _ Hl) as Hall.
  rewrite Forall_forall in Hall. now apply Hall.
Qed.

(** In the three-file run [/a.txt], [/b.txt], [/d.txt] are downloaded in
    that order and only the first and the last are written. *)
Lemma transfers_follow_the_listing_witness :
  let E := Scenario.env Scenario.three_files in
  let s' := fst (indexDropboxFiles E Scenario.start) in
  download_paths (calls s') = ["/a.txt"; "/b.txt"; "/d.txt"] /\
  written_ids (calls s') = [Base64.encode "/a.txt"; Base64.encode "/d.txt"] /\
  sublist (download_paths (calls s')) ["/a.txt"; "/b.txt"; "/d.txt"].
Proof.
  intros E s'.
  destruct (transfers_follow_the_listing E Scenario.start
              (fst (listTextFiles E Scenario.start))
              [Scenario.a_txt; Scenario.b_txt; Scenario.d_txt])
    as (new & Hc & Hd & _); [vm_compute; reflexivity |].
  split; [vm_compute; reflexivity |]. split; [vm_compute; reflexivity |].
  subst s'. rewrite Hc. exact Hd.
Defined.

(** X9. Every enumerated file is accounted for on the console: after the
    line [Found <n> text files to index], the run prints exactly one
    outcome line per file, [Indexed file: ..] or [Error processing file
    ..:], so the two counts add up to the number of enumerated files; and
    an iteration prints [Indexed file] exactly when its chain succeeded. *)
Theorem every_file_is_accounted_for {W} (E : Env W) (s s1 : State W) (files : list Entry) :
  listTextFiles E s = (s1, Ok files) ->
  (exists new,
      console (fst (indexDropboxFiles E s)) =
        (console s1 ++
           {| level := LOG;
              message := "Found " +:+ pretty (length files) +:+ " text files to index";
              detail := None |} :: new)%list /\
      indexed_lines new + failed_lines new = length files)
  /\ (forall file (s0 : State W),
        exists new,
          console (fst (processFile E file s0)) = (console s0 ++ new)%list /\
          indexed_lines new + failed_lines new = 1 /\
          (indexed_lines new = 1 <-> snd (processFileBody E file s0) = Ok tt)).
Proof.
  intros Hl. split; [|intros file s0; apply processFile_lines].
  rewrite (indexDropboxFiles_listed E _ _ _ Hl).
  match goal with |- context [forOf E files ?s0] =>
    destruct (forOf_lines E files s0) as (new & Hc & Hn) end.
  exists new. split; [|exact Hn].
  rewrite Hc. cbn [print fst console]. rewrite <- app_assoc. reflexivity.
Qed.

(** Three files, one failing: two [Indexed file] lines and one [Error
    processing file] line. *)
Lemma every_file_is_accounted_for_witness :
  let E := Scenario.env Scenario.three_files in
  let out := console (fst (indexDropboxFiles E Scenario.start)) in
  indexed_lines out = 2 /\ failed_lines out = 1 /\
  exists new, indexed_lines new + failed_lines new = 3 /\ drop 2 out = new.
Proof.
  intros E out.
  destruct (every_file_is_accounted_for E Scenario.start
              (fst (listTextFiles E Scenario.start))
              [Scenario.a_txt; Scenario.b_txt; Scenario.d_txt])
    as [(new & Hc & Hn) _]; [vm_compute; reflexivity |].
  split; [vm_compute; reflexivity |]. split; [vm_compute; reflexivity |].
  exists new. split; [exact Hn |].
  subst out. rewrite Hc. vm_compute (console _). reflexivity.
Defined.

Section ValidToken.

Context {W : Type} (E : Env W) (t : DropboxTokens).

Hypothesis credentials : missing_credentials E = false.
Hypothesis not_expired : forall w, (snd (Date_now E w) < expires_at t)%Z.

Lemma valid_getDropboxClient (s : State W) :
  dropboxTokens s = Some t ->
  getDropboxClient E s = (with_world (fst (Date_now E (world s))) s, Ok (client_of t)).
Proof. intros Ht. now apply getDropboxClient_valid. Qed.

Lemma valid_processFile file (s : State W) :
  dropboxTokens s = Some t ->
  dropboxTokens (fst (processFile E file s)) = Some t /\
  emits (carries_token t) s (fst (processFile E file s)).
Proof.
  intros Ht. pose proof (valid_getDropboxClient s Ht) as Hg.
  split; [rewrite processFile_tokens, Hg; exact Ht |].
  pose proof (processFile_calls E file s) as Hc. rewrite Hg in Hc. cbn [fst snd] in Hc.
  destruct Hc as (rest & Hcalls & sharing & tail & -> & Hs & Hta).
  exists (sharing ++ tail)%list. split; [exact Hcalls |].
  apply Forall_app. split.
  - destruct Hs as [-> | ->]; repeat constructor; cbn; intros ? [= <-]; reflexivity.
  - destruct Hta as [-> | ->]; repeat constructor; cbn;
      solve [intros ? [= <-]; reflexivity | discriminate].
Qed.

Lemma valid_forOf files (s : State W) :
  dropboxTokens s = Some t ->
  dropboxTokens (fst (forOf E files s)) = Some t /\
  emits (carries_token t) s (fst (forOf E files s)).
Proof.
  revert s. induction files as [|file files IH]; intros s Ht.
  - split; [exact Ht | apply emits_refl].
  - rewrite forOf_cons. destruct (valid_processFile file s Ht) as [Ht1 E1].
    destruct (IH _ Ht1) as [Ht2 E2]. split; [exact Ht2 |].
    eapply emits_trans; eassumption.
Qed.

Lemma valid_listTextFiles (s : State W) :
  dropboxTokens s = Some t ->
  dropboxTokens (fst (listTextFiles E s)) = Some t /\
  emits (carries_token t) s (fst (listTextFiles E s)).
Proof.
  intros Ht. unfold listTextFiles. rewrite (bind_ok _ _ _ _ _ (valid_getDropboxClient s Ht)).
  unfold bind, await, ret. cbn [world with_world].
  destruct (filesListFolder E (client_of t) "" true (fst (Date_now E (world s)))) as [w [page|e]];
    cbn; (split; [exact Ht |]); eexists; (split; [reflexivity |]);
    repeat constructor; cbn; intros ? [= <-]; reflexivity.
Qed.

Lemma valid_indexDropboxFiles (s : State W) :
  dropboxTokens s = Some t ->
  dropboxTokens (fst (indexDropboxFiles E s)) = Some t /\
  emits (carries_token t) s (fst (indexDropboxFiles E s)).
Proof.
  intros Ht. destruct (valid_listTextFiles s Ht) as [Ht1 E1].
  destruct (listTextFiles E s) as [s1 [files|e]] eqn:Hl; cbn [fst] in *.
  - rewrite (indexDropboxFiles_listed E _ _ _ Hl).
    match goal with |- context [forOf E files ?s0] =>
      destruct (valid_forOf files s0 Ht1) as [Ht2 E2] end.
    split; [exact Ht2 |]. eapply emits_trans; [exact E1 |].
    eapply emits_trans; [|exact E2]. now apply same_calls_emits.
  - rewrite (indexDropboxFiles_aborted E _ _ _ Hl). cbn. split; [exact Ht1 |].
    eapply emits_trans; [exact E1 |]. now apply same_calls_emits.
Qed.

End ValidToken.

(** X10. While the clock stays before the expiry of the cached token, a
    sync run never refreshes: it performs no token exchange, leaves the
    cache as it is, and makes every Dropbox call (listing, shared links,
    downloads) with the cached access token. *)
Theorem valid_token_serves_whole_run {W} (E : Env W) (t : DropboxTokens) (s : State W) :
  missing_credentials E = false ->
  (forall w, (snd (Date_now E w) < expires_at t)%Z) ->
  dropboxTokens s = Some t ->
  let s' := fst (indexDropboxFiles E s) in
  dropboxTokens s' = Some t
  /\ exchanges s' = exchanges s
  /\ exists new,
       calls s' = (calls s ++ new)%list /\
       Forall (fun c => forall dbx, call_client c = Some dbx ->
                                    accessToken dbx = access_token t) new.
Proof.
  intros Hc Hv Ht s'.
  destruct (valid_indexDropboxFiles E t Hc Hv s Ht) as [Ht' (new & Hcalls & Hall)].
  split; [exact Ht' |]. split.
  - assert (List.filter is_exchange new = []) as Hnone
      by (clear - Hall; induction Hall as [|c l [Hx _] _ IH];
          [reflexivity | cbn; now rewrite Hx]).
    unfold exchanges. subst s'. rewrite Hcalls, List.filter_app, length_app, Hnone.
    cbn. lia.
  - exists new. split; [exact Hcalls |].
    eapply Forall_impl; [exact Hall |]. intros c [_ H]. exact H.
Qed.

(** With the clock at 5000 and a token valid until 10^9, the three-file
    run exchanges nothing and keeps the cache. *)
Lemma valid_token_serves_whole_run_witness :
  let E := Scenario.env Scenario2.frozen_clock in
  let s' := fst (indexDropboxFiles E Scenario2.holding_token) in
  exchanges s' = 0 /\ dropboxTokens s' = dropboxTokens Scenario2.holding_token.
Proof.
  intros E s'.
  destruct (valid_token_serves_whole_run E
              {| access_token := "token-0"; refresh_token := "rotated";
                 expires_at := 1000000000 |} Scenario2.holding_token)
    as (Ht & Hx & _); [reflexivity | intros w; reflexivity | reflexivity |].
  split; [exact Hx | exact Ht].
Defined.

(** ** Links that carry no marker *)

Lemma replace_absent (pat rep s : string) :
  JsString.occurs pat s = false -> JsString.replace pat rep s = s.
Proof.
  induction s as [|c s IH]; cbn [JsString.occurs JsString.replace].
  - destruct (JsString.startsWith pat ""); [discriminate | reflexivity].
  - destruct (JsString.startsWith pat (String c s)); [discriminate |].
    intros H. now rewrite IH.
Qed.

Lemma occurs_skip (c : ascii) (pat pre s : string) :
  JsString.occurs (String c "") pre = false ->
  JsString.occurs (String c pat) (pre +:+ s) = JsString.occurs (String c pat) s.
Proof.
  induction pre as [|d pre IH]; intros Hocc; [reflexivity |].
  cbn [JsString.occurs JsString.startsWith] in Hocc.
  destruct (Ascii.eqb_spec c d) as [|Hne]; [discriminate |].
  rewrite JsStringFacts.append_cons. cbn [JsString.occurs].
  rewrite (JsStringFacts.startsWith_head c d) by assumption. now apply IH.
Qed.

(** X11. Link normalization touches nothing but its two markers.  A link
    in which neither [www.dropbox.com] nor [?dl=0] occurs (a link that is
    already direct) is used as it is; and a sharing link without [?dl=0]
    only has its host rewritten, so a [dl=0] that is not the first query
    parameter ([..?rlkey=..&dl=0]) stays in the link. *)
Theorem link_without_markers_is_unchanged :
  (forall u,
     JsString.occurs "www.dropbox.com" u = false ->
     JsString.occurs "?dl=0" u = false ->
     direct_link u = u)
  /\ (forall rest,
        JsString.occurs "?dl=0" rest = false ->
        direct_link ("https://www.dropbox.com/" +:+ rest)
        = "https://dl.dropboxusercontent.com/" +:+ rest).
Proof.
  split.
  - intros u Hhost Hmark. unfold direct_link.
    rewrite (replace_absent "www.dropbox.com" _ u Hhost).
    now apply replace_absent.
  - intros rest Hmark. unfold direct_link.
    change ("https://www.dropbox.com/" +:+ rest)
      with ("https://" +:+ ("www.dropbox.com" +:+ ("/" +:+ rest))).
    rewrite (JsStringFacts.replace_skip "w" "ww.dropbox.com") by reflexivity.
    rewrite JsStringFacts.replace_here.
    change ("https://" +:+ "dl.dropboxusercontent.com" +:+ "/" +:+ rest)
      with ("https://dl.dropboxusercontent.com/" +:+ rest).
    apply replace_absent.
    now rewrite (occurs_skip "?" "dl=0") by reflexivity.
Qed.

(** A sharing link whose [dl=0] is the second parameter keeps it. *)
Lemma link_without_markers_is_unchanged_witness :
  JsString.occurs "?dl=0" "scl/fi/k/a.txt?rlkey=r&dl=0" = false /\
  direct_link "https://www.dropbox.com/scl/fi/k/a.txt?rlkey=r&dl=0"
  = "https://dl.dropboxusercontent.com/scl/fi/k/a.txt?rlkey=r&dl=0" /\
  direct_link "https://dl.dropboxusercontent.com/s/abc" = "https://dl.dropboxusercontent.com/s/abc".
Proof.
  destruct link_without_markers_is_unchanged as [Hsame Hhost].
  split; [reflexivity |]. split.
  - apply (Hhost "scl/fi/k/a.txt?rlkey=r&dl=0"). reflexivity.
  - apply Hsame; reflexivity.
Defined.

(** X12. The search endpoint is read-only: whatever the request, the
    documents and the token cache are left as they were, and the only
    remote call it may issue is one query on [dropbox_files] matching the
    term, exactly as received, against [content] and [filename] with
    highlighting of [content]; the status is 400, 500 or 200. *)
Theorem search_is_read_only {W} (E : Env W) (query : SearchQueryParams) (s : State W) :
  let s' := fst (search_handler E query s) in
  es_docs s' = es_docs s
  /\ dropboxTokens s' = dropboxTokens s
  /\ (calls s' = calls s \/
      exists term,
        q query = Some term /\ term <> "" /\
        calls s' = (calls s ++
                      [EsSearch {| search_index := "dropbox_files";
                                   multi_match_query := term;
                                   multi_match_fields := ["content"; "filename"];
                                   highlight_fields := ["content"] |}])%list)
  /\ In (status (snd (search_handler E query s))) [400; 500; 200].
Proof.
  cbn zeta. destruct query as [[[|c term]|]].
  - rewrite search_handler_rejects by reflexivity. cbn. auto.
  - set (t := String c term).
    destruct (es_search E (search_request t) (world s)) as [w [hits|e]] eqn:H.
    + rewrite (search_handler_answers E t s w hits ltac:(discriminate) H). cbn.
      repeat split; auto. right. exists t. repeat split. discriminate.
    + rewrite (search_handler_fails E t s w e ltac:(discriminate) H). cbn.
      repeat split; auto. right. exists t. repeat split. discriminate.
  - rewrite search_handler_rejects by reflexivity. cbn. auto.
Qed.

(** ** The token handed out *)

(** X18. The client [getDropboxClient] hands out always carries the token
    that is in the cache when the call returns, and never an expired one
    from the cache: either the call exchanged nothing, and then the token
    was already cached and the clock read less than its expiry, or it
    performed exactly one exchange, and then the cache had been empty or
    the clock had reached the expiry of the token it held. *)
Theorem handed_out_token_is_current {W} (E : Env W) (s s' : State W) (c : Dropbox) :
  getDropboxClient E s = (s', Ok c) ->
  exists t,
    dropboxTokens s' = Some t /\
    c = {| accessToken := access_token t |} /\
    ((exchanges s' = exchanges s /\ dropboxTokens s = Some t /\
      (snd (Date_now E (world s)) < expires_at t)%Z)
     \/ (exchanges s' = exchanges s + 1 /\
         (dropboxTokens s = None \/
          exists old, dropboxTokens s = Some old /\
                      (expires_at old <= snd (Date_now E (world s)))%Z))).
Proof.
  intros H. destruct (getDropboxClient_returns E _ _ _ H) as [_ R]. revert R.
  destruct (refresh_due E s) as [w|] eqn:Hdue.
  - intros (w1 & response & data & w2 & tx & _ & _ & _ & _ & -> & ->).
    eexists. split; [reflexivity |]. split; [reflexivity |]. right. split.
    + now apply exchanges_snoc with (req := refresh_request E).
    + unfold refresh_due in Hdue. destruct (dropboxTokens s) as [old|]; [|now left].
      right. exists old. split; [reflexivity |].
      destruct (Date_now E (world s)) as [w' t_now]. cbn.
      destruct (Z.leb_spec (expires_at old) t_now); [assumption | discriminate].
  - intros (t & Ht & -> & Hlt & ->). exists t. cbn. split; [exact Ht |].
    split; [reflexivity |]. left. split; [now apply exchanges_same | auto].
Qed.

(** From the empty cache the first call exchanges once and hands out the
    token it cached. *)
Lemma handed_out_token_is_current_witness :
  let E := Scenario.env Scenario.short_lived in
  let s' := fst (getDropboxClient E Scenario.start) in
  snd (getDropboxClient E Scenario.start) = Ok {| accessToken := "token-0" |} /\
  (access_token <$> dropboxTokens s') = Some "token-0" /\
  exchanges s' = 1.
Proof.
  intros E s'.
  assert (getDropboxClient E Scenario.start = (s', Ok {| accessToken := "token-0" |})) as H
    by (vm_compute; reflexivity).
  destruct (handed_out_token_is_current E _ _ _ H) as (t & Ht & Hc & Hcase).
  split; [now rewrite H |]. split.
  - rewrite Ht. cbn. injection Hc as <-. reflexivity.
  - destruct Hcase as [(_ & Hold & _) | (Hx & _)]; [discriminate Hold | exact Hx].
Defined.

(** ** What the index holds *)

Section TextFilesOnly.

Implicit Types (idx : gmap string FileDocument).

Lemma upserted_text_files files idx idx' :
  Forall (fun f => isTextFile f = true) files ->
  upserted files idx idx' ->
  map_Forall (fun _ doc => JsString.endsWith (filename doc) ".txt" = true) idx ->
  map_Forall (fun _ doc => JsString.endsWith (filename doc) ".txt" = true) idx'.
Proof.
  intros Hall Hu. induction Hu as [|file files i1 i2 i3 Hs Hu IH]; intros Hidx; [assumption |].
  apply Forall_cons in Hall as [Hfile Hall]. apply IH; [assumption |].
  destruct Hs as [-> | (doc & _ & Hname & ->)]; [assumption |].
  apply map_Forall_insert_2; [|assumption]. now rewrite Hname.
Qed.

End TextFilesOnly.

(** X19. A sync run keeps the index to text files filed under their path:
    if every document is stored under the base64 encoding of its own path
    and has a file name ending with [.txt], the same holds after the run,
    whatever the provider answered; in particular it holds of every index
    built from the empty one by sync runs. *)
Theorem index_holds_text_files_only {W} (E : Env W) (s : State W) :
  map_Forall (fun id doc => id = Base64.encode (path doc) /\
                            JsString.endsWith (filename doc) ".txt" = true) (es_docs s) ->
  map_Forall (fun id doc => id = Base64.encode (path doc) /\
                            JsString.endsWith (filename doc) ".txt" = true)
    (es_docs (fst (indexDropboxFiles E s))).
Proof.
  intros Hinv.
  assert (index_keyed (es_docs s)) as Hk by (intros id doc Hid; apply (Hinv id doc Hid)).
  assert (map_Forall (fun _ doc => JsString.endsWith (filename doc) ".txt" = true) (es_docs s))
    as Ht by (intros id doc Hid; apply (Hinv id doc Hid)).
  assert (index_keyed (es_docs (fst (indexDropboxFiles E s))) /\
          map_Forall (fun _ doc => JsString.endsWith (filename doc) ".txt" = true)
            (es_docs (fst (indexDropboxFiles E s)))) as [Hk' Ht'].
  { destruct (listTextFiles E s) as [s1 [files|e]] eqn:Hl.
    - destruct (indexDropboxFiles_upserted E s) as (fs & Hu & Hfs).
      rewrite (Hfs _ _ Hl) in Hu. split.
      + exact (upserted_keyed _ _ _ Hk Hu).
      + exact (upserted_text_files _ _ _ (listTextFiles_filtered E _ _ _ Hl) Hu Ht).
    - rewrite (indexDropboxFiles_aborted E _ _ _ Hl). cbn.
      rewrite (listTextFiles_docs E _ _ _ Hl). auto. }
  intros id doc Hid. split; [exact (Hk' id doc Hid) | exact (Ht' id doc Hid)].
Qed.

(** From the empty index, one run over the three files. *)
Lemma index_holds_text_files_only_witness :
  let E := Scenario.env Scenario.three_files in
  map_Forall (fun id doc => id = Base64.encode (path doc) /\
                            JsString.endsWith (filename doc) ".txt" = true)
    (es_docs (fst (indexDropboxFiles E Scenario.start))) /\
  size (es_docs (fst (indexDropboxFiles E Scenario.start))) = 2.
Proof.
  intros E. split; [|vm_compute; reflexivity].
  apply (index_holds_text_files_only E Scenario.start). apply map_Forall_empty.
Defined.

(** X20. When the provider answers the listing in a single page ([has_more]
    unset), the enumeration is complete: it returns the entries of the
    complete listing whose name ends with [.txt], all of them and in the
    provider's order. *)
Theorem single_page_enumeration_is_complete {W} (E : Env W) (s s1 : State W) (dbx : Dropbox)
    (w : W) (page : ListFolderResult) (fuel : nat) :
  getDropboxClient E s = (s1, Ok dbx) ->
  filesListFolder E dbx "" true (world s1) = (w, Ok page) ->
  has_more page = false ->
  exists listing,
    complete_listing E fuel dbx (world s1) = Some listing /\
    snd (listTextFiles E s)
      = Ok (List.filter (fun entry => JsString.endsWith (name entry) ".txt") listing) /\
    sublist (List.filter (fun entry => JsString.endsWith (name entry) ".txt") listing) listing /\
    forall entry, In entry listing -> JsString.endsWith (name entry) ".txt" = true ->
                  exists files, snd (listTextFiles E s) = Ok files /\ In entry files.
Proof.
  intros H1 H2 Hlast.
  destruct (listTextFiles_single_page E s s1 dbx w page fuel H1 H2 Hlast)
    as (listing & Hc & Hl & Hs & Hin).
  exists listing. repeat split; try assumption.
  intros entry He Hext. eexists. split; [exact Hl |]. now apply Hin.
Qed.

(** The five entries of the three-file account come in one page; the three
    text files are enumerated in order. *)
Lemma single_page_enumeration_is_complete_witness :
  let E := Scenario.env Scenario.three_files in
  snd (listTextFiles E Scenario.start)
  = Ok [Scenario.a_txt; Scenario.b_txt; Scenario.d_txt] /\
  complete_listing E 0 {| accessToken := "token-1" |}
    (world (fst (getDropboxClient E Scenario.start)))
  = Some [Scenario.a_txt; Scenario.b_md; Scenario.b_txt; Scenario.c_TXT; Scenario.d_txt].
Proof.
  intros E.
  assert (getDropboxClient E Scenario.start
          = (fst (getDropboxClient E Scenario.start), Ok {| accessToken := "token-1" |})) as H1
    by (vm_compute; reflexivity).
  destruct (single_page_enumeration_is_complete E _ _ _ 3
              {| entries := [Scenario.a_txt; Scenario.b_md; Scenario.b_txt;
                             Scenario.c_TXT; Scenario.d_txt];
                 cursor := ""; has_more := false |} 0 H1)
    as (listing & Hc & Hl & _); [vm_compute; reflexivity | reflexivity |].
  split; [vm_compute; reflexivity |].
  rewrite Hc. vm_compute in Hc. injection Hc as <-. reflexivity.
Defined.

(** * The sync run, entry by entry *)

Section RunByEntry.

Context {W : Type} (E : Env W).

Implicit Types (files before after : list Entry) (file : Entry).

Lemma loop_reaches_snoc files before file (s1 : State W) :
  loop_reaches E files (before ++ [file])%list s1
  = fst (processFile E file (loop_reaches E files before s1)).
Proof. unfold loop_reaches. rewrite forOf_app, forOf_cons. reflexivity. Qed.

(** A run whose enumeration succeeds goes through every entry: it is the
    iteration of [file] in the state the loop reaches it in, followed by
    the loop over the entries after it. *)
Lemma run_enters (s s1 : State W) before file after :
  listTextFiles E s = (s1, Ok (before ++ file :: after)%list) ->
  indexDropboxFiles E s =
  forOf E after (fst (processFile E file (loop_reaches E (before ++ file :: after)%list before s1))).
Proof.
  intros Hl. rewrite (indexDropboxFiles_listed E _ _ _ Hl), forOf_app, forOf_cons. reflexivity.
Qed.

Lemma run_completes (s s1 : State W) files :
  listTextFiles E s = (s1, Ok files) -> snd (indexDropboxFiles E s) = Ok tt.
Proof. intros Hl. rewrite (indexDropboxFiles_listed E _ _ _ Hl). apply forOf_total. Qed.


(** The steps of a chain that succeeds, and the document it writes. *)
Lemma processFileBody_steps file (s : State W) :
  snd (processFileBody E file s) = Ok tt ->
  exists sc dbx sl link w buffer,
    getDropboxClient E s = (sc, Ok dbx) /\
    resolveLink E dbx file sc = (sl, Ok link) /\
    filesDownload E dbx (path_lower file) (world sl) = (w, Ok {| fileBinary := Some buffer |}) /\
    es_docs (fst (processFileBody E file s))
    = <[document_id file := indexed_document file (toString_utf8 E buffer) link]> (es_docs s) /\
    exists old, calls (fst (processFileBody E file s))
                = (calls s ++ old ++ [EsIndex indexName (document_id file)])%list.
Proof.
  unfold processFileBody, bind. intros H.
  destruct (getDropboxClient E s) as [sc [dbx|e1]] eqn:H1; [|discriminate].
  destruct (resolveLink E dbx file sc) as [sl [link|e2]] eqn:H2; [|discriminate].
  exists sc, dbx, sl, link.
  pose proof (getDropboxClient_docs E _ _ _ H1) as D1.
  pose proof (resolveLink_docs E _ _ _ _ _ H2) as D2.
  assert (exists c1, calls sc = (calls s ++ c1)%list) as [c1 C1].
  { pose proof (getDropboxClient_calls E s) as Hc. rewrite H1 in Hc. cbn in Hc.
    destruct Hc as [-> | ->]; [exists []; now rewrite app_nil_r | eauto]. }
  assert (exists c2, calls sl = (calls sc ++ c2)%list) as [c2 C2].
  { destruct (resolveLink_calls E dbx file sc) as (sharing & l & _ & Hc & _).
    rewrite H2 in Hc. cbn in Hc. eauto. }
  revert H. unfold fetchAndIndex, bind, await, esClient_index, print, ret, throw.
  destruct (filesDownload E dbx (path_lower file) (world sl)) as [w [[[buffer|]]|e]] eqn:H3; cbn;
    try discriminate.
  match goal with |- context [es_index E ?i ?id ?doc w] =>
    destruct (es_index E i id doc w) as [w' [[]|e]] end; cbn; [|discriminate].
  intros _. exists w, buffer.
  split; [first [reflexivity | exact H1] |]. split; [first [reflexivity | exact H2] |].
  split; [first [reflexivity | exact H3] |].
  unfold same_docs in *. split.
  - unfold indexed_document. congruence.
  - exists (c1 ++ c2 ++ [FilesDownload dbx (path_lower file)])%list.
    rewrite C2, C1, <- !app_assoc. reflexivity.
Qed.

(** The entries handled later leave alone the document of a path they do
    not carry. *)
Lemma later_entries_keep after file (s : State W) :
  (forall g, In g after -> path_lower g <> path_lower file) ->
  es_docs (fst (forOf E after s)) !! document_id file = es_docs s !! document_id file.
Proof.
  intros Hlater. apply (upserted_other after); [apply forOf_upserted |].
  intros Hin. apply list_elem_of_In, list_elem_of_fmap in Hin as (g & Heq & Hg).
  apply list_elem_of_In in Hg. apply (Hlater g Hg).
  unfold document_id in Heq. apply Base64Facts.encode_inj in Heq. congruence.
Qed.

(** A document of the path of [file] stored under the id of [file] is only
    ever replaced by another one. *)
Lemma upserted_holds files (idx idx' : gmap string FileDocument) file :
  upserted files idx idx' ->
  (exists doc, idx !! document_id file = Some doc /\ path doc = path_lower file) ->
  exists doc, idx' !! document_id file = Some doc /\ path doc = path_lower file.
Proof.
  intros Hu. induction Hu as [|g files i1 i2 i3 Hs Hu IH]; intros Hdoc; [assumption |].
  apply IH. destruct Hs as [-> | (new & Hp & _ & ->)]; [assumption |].
  destruct (decide (document_id g = document_id file)) as [Heq | Hne].
  - exists new. rewrite Heq, lookup_insert_eq. split; [reflexivity |].
    unfold document_id in Heq. apply Base64Facts.encode_inj in Heq. congruence.
  - now rewrite lookup_insert_ne.
Qed.

(** An entry whose chain succeeds has its document in the index when the
    run ends, whatever happens to the entries after it. *)
Lemma run_indexes (s s1 : State W) before file after :
  listTextFiles E s = (s1, Ok (before ++ file :: after)%list) ->
  snd (processFileBody E file (loop_reaches E (before ++ file :: after)%list before s1)) = Ok tt ->
  exists doc, es_docs (fst (indexDropboxFiles E s)) !! document_id file = Some doc /\
              path doc = path_lower file.
Proof.
  intros Hl Hok. rewrite (run_enters _ _ _ _ _ Hl).
  set (si := loop_reaches E (before ++ file :: after)%list before s1) in *.
  destruct (processFileBody_steps _ _ Hok) as (sc & dbx & sl & link & w & buffer & _ & _ & _ & Hd & _).
  destruct (processFileBody E file si) as [sf r] eqn:Hb. cbn in Hok, Hd. subst r.
  rewrite (processFile_done E _ _ _ Hb). cbn [fst].
  destruct (upserted_holds after (es_docs sf) _ file (forOf_upserted E after sf)) as (doc & H1 & H2).
  - rewrite Hd, lookup_insert_eq. eexists. split; reflexivity.
  - exists doc. auto.
Qed.

(** The trace and the console only grow along a run. *)
Lemma forOf_grows files (s : State W) :
  (exists new, calls (fst (forOf E files s)) = (calls s ++ new)%list) /\
  (exists new, console (fst (forOf E files s)) = (console s ++ new)%list).
Proof.
  split.
  - destruct (forOf_emits E (fun _ => True) files I (fun _ _ _ => I) (fun _ _ _ => I)
                (fun _ _ _ => I) (fun _ _ => I) s _ _ (surjective_pairing _)) as (new & H & _).
    eauto.
  - destruct (forOf_lines E files s) as (new & H & _). eauto.
Qed.

Lemma listTextFiles_grows (s s1 : State W) r :
  listTextFiles E s = (s1, r) ->
  (exists new, calls s1 = (calls s ++ new)%list) /\
  (exists new, console s1 = (console s ++ new)%list).
Proof.
  intros Hl. split.
  - destruct (listTextFiles_emits E (fun _ => True) I (fun _ => I) s _ _ Hl) as (new & H & _).
    eauto.
  - revert Hl. unfold listTextFiles, bind, await, ret.
    destruct (getDropboxClient E s) as [s0 [dbx|e]] eqn:Hc;
      destruct (getDropboxClient_prints E (fun _ => True) I (fun _ => I) s _ _ Hc) as (new & H & _).
    + destruct (filesListFolder E dbx "" true (world s0)) as [w [page|e]];
        intros [= <- _]; cbn; eauto.
    + intros [= <- _]. eauto.
Qed.

Lemma loop_reaches_grows (s s1 : State W) r files before :
  listTextFiles E s = (s1, r) ->
  (exists new, calls (loop_reaches E files before s1) = (calls s ++ new)%list) /\
  (exists new, console (loop_reaches E files before s1) = (console s ++ new)%list).
Proof.
  intros Hl. destruct (listTextFiles_grows _ _ _ Hl) as [[c1 C1] [l1 L1]].
  unfold loop_reaches.
  match goal with |- context [forOf E before ?s0] => set (t := s0) end.
  destruct (forOf_grows before t) as [[c2 C2] [l2 L2]].
  assert (calls t = calls s1) as Hc by reflexivity.
  assert (exists line, console t = (console s1 ++ [line])%list) as [line Hline]
    by (eexists; reflexivity).
  split.
  - exists (c1 ++ c2)%list. rewrite C2, Hc, C1, <- app_assoc. reflexivity.
  - eexists. rewrite L2, Hline, L1, <- !app_assoc. reflexivity.
Qed.

(** What an iteration records stays on record when the run ends. *)
Lemma run_keeps_record (s s1 : State W) before file after :
  listTextFiles E s = (s1, Ok (before ++ file :: after)%list) ->
  let sj := fst (processFile E file (loop_reaches E (before ++ file :: after)%list before s1)) in
  (exists post, calls (fst (indexDropboxFiles E s)) = (calls sj ++ post)%list) /\
  (exists post, console (fst (indexDropboxFiles E s)) = (console sj ++ post)%list).
Proof. intros Hl sj. rewrite (run_enters _ _ _ _ _ Hl). apply forOf_grows. Qed.

End RunByEntry.

(** ** Idempotent sync *)



(** ** Partial failure, seen from the run *)

Section FailingEntry.

Context {W : Type} (E : Env W).

Implicit Types (files before after : list Entry) (file : Entry).

Lemma loop_reaches_keeps files before file (s s1 : State W) r :
  listTextFiles E s = (s1, r) ->
  (forall g, In g before -> path_lower g <> path_lower file) ->
  es_docs (loop_reaches E files before s1) !! document_id file = es_docs s !! document_id file.
Proof.
  intros Hl Hbefore. unfold loop_reaches. rewrite later_entries_keep by assumption.
  cbn [print fst es_docs]. now rewrite (listTextFiles_docs E _ _ _ Hl).
Qed.

(** An entry whose chain throws: the error is logged with the file name,
    the index is as the entry found it, and the line is on the console
    when the run ends. *)
Lemma run_logs_failure (s s1 sf : State W) before file after e :
  listTextFiles E s = (s1, Ok (before ++ file :: after)%list) ->
  let files := (before ++ file :: after)%list in
  let si := loop_reaches E files before s1 in
  let line := {| level := ERROR;
                 message := "Error processing file " +:+ name file +:+ ":";
                 detail := Some e |} in
  processFileBody E file si = (sf, Throw e) ->
  loop_reaches E files (before ++ [file])%list s1
    = fst (print ERROR ("Error processing file " +:+ name file +:+ ":") (Some e) sf)
  /\ es_docs (loop_reaches E files (before ++ [file])%list s1) = es_docs si
  /\ In line (console (fst (indexDropboxFiles E s))).
Proof.
  intros Hl files si line Hb.
  pose proof (processFile_caught E _ _ _ _ Hb) as Hp.
  rewrite loop_reaches_snoc. fold si. rewrite Hp. cbn [fst].
  split; [reflexivity |]. split.
  - cbn. exact (processFileBody_throw E _ _ _ _ Hb).
  - destruct (run_keeps_record E _ _ _ _ _ Hl) as [_ [post Hpost]].
    fold files si in Hpost. rewrite Hp in Hpost. rewrite Hpost.
    cbn [fst print console]. apply in_or_app. left. apply in_or_app. right. now left.
Qed.

End FailingEntry.

(** C2. A failure in the chain of one entry never ends the run.  A run
    whose enumeration succeeds completes normally, whatever happens to the
    entries.  It reaches every entry in listing order.  When the chain of
    an entry throws, the error is caught and logged with the file name,
    the index is left as the entry found it, the next entry is entered in
    the state so obtained, and the line is on the console when the run
    ends; an entry whose chain succeeds has its document in the index when
    the run ends.  The chain throws when the client cannot be obtained, the
    download is rejected, the download cannot be decoded or the index write
    is refused, while a failure of link resolution is caught inside the
    entry.  With three entries of different paths, the download of the
    second rejected and the chains of the first and third succeeding, the
    run completes with the documents of the first and third in the index,
    the second not written and its error logged.  The sync run throws
    exactly when schema creation throws or the enumeration does, the
    enumeration being the first block of [indexDropboxFiles]: the client,
    the listing call, the filter. *)
Theorem per_entry_failure_is_isolated {W} (E : Env W) (s s1 : State W) (files : list Entry) :
  let s' := fst (indexDropboxFiles E s) in
  listTextFiles E s = (s1, Ok files) ->
  snd (indexDropboxFiles E s) = Ok tt
  /\ (forall before file after,
        files = (before ++ file :: after)%list ->
        let si := loop_reaches E files before s1 in
        loop_reaches E files (before ++ [file])%list s1 = fst (processFile E file si)
        /\ (forall sf e,
              processFileBody E file si = (sf, Throw e) ->
              loop_reaches E files (before ++ [file])%list s1
                = fst (print ERROR ("Error processing file " +:+ name file +:+ ":") (Some e) sf)
              /\ es_docs (loop_reaches E files (before ++ [file])%list s1) = es_docs si
              /\ In {| level := ERROR;
                       message := "Error processing file " +:+ name file +:+ ":";
                       detail := Some e |} (console s'))
        /\ (snd (processFileBody E file si) = Ok tt ->
            exists doc, es_docs s' !! document_id file = Some doc /\
                        path doc = path_lower file))
  /\ (forall file (t : State W),
        (forall t1 e, getDropboxClient E t = (t1, Throw e) ->
                      snd (processFileBody E file t) = Throw e)
        /\ (forall t1 dbx,
              getDropboxClient E t = (t1, Ok dbx) ->
              (exists link, snd (resolveLink E dbx file t1) = Ok link)
              /\ (forall t2 link w e,
                    resolveLink E dbx file t1 = (t2, Ok link) ->
                    filesDownload E dbx (path_lower file) (world t2) = (w, Throw e) ->
                    snd (processFileBody E file t) = Throw e)
              /\ (forall t2 link w,
                    resolveLink E dbx file t1 = (t2, Ok link) ->
                    filesDownload E dbx (path_lower file) (world t2)
                      = (w, Ok {| fileBinary := None |}) ->
                    exists e, snd (processFileBody E file t) = Throw e)
              /\ (forall t2 link w buffer w' e,
                    resolveLink E dbx file t1 = (t2, Ok link) ->
                    filesDownload E dbx (path_lower file) (world t2)
                      = (w, Ok {| fileBinary := Some buffer |}) ->
                    es_index E indexName (document_id file)
                      (indexed_document file (toString_utf8 E buffer) link) w = (w', Throw e) ->
                    snd (processFileBody E file t) = Throw e)))
  /\ (forall f1 f2 f3 sc dbx sl link w e,
        files = [f1; f2; f3] ->
        path_lower f2 <> path_lower f1 -> path_lower f2 <> path_lower f3 ->
        snd (processFileBody E f1 (loop_reaches E files [] s1)) = Ok tt ->
        getDropboxClient E (loop_reaches E files [f1] s1) = (sc, Ok dbx) ->
        resolveLink E dbx f2 sc = (sl, Ok link) ->
        filesDownload E dbx (path_lower f2) (world sl) = (w, Throw e) ->
        snd (processFileBody E f3 (loop_reaches E files [f1; f2] s1)) = Ok tt ->
        (exists doc, es_docs s' !! document_id f1 = Some doc /\ path doc = path_lower f1)
        /\ (exists doc, es_docs s' !! document_id f3 = Some doc /\ path doc = path_lower f3)
        /\ es_docs s' !! document_id f2 = es_docs s !! document_id f2
        /\ In {| level := ERROR;
                 message := "Error processing file " +:+ name f2 +:+ ":";
                 detail := Some e |} (console s'))
  /\ (forall (t : State W) e,
        snd (syncRun E t) = Throw e <->
        snd (initializeIndex E t) = Throw e \/
        (snd (initializeIndex E t) = Ok tt /\
         snd (listTextFiles E (fst (initializeIndex E t))) = Throw e)).
Proof.
  intros s' Hl. split; [exact (run_completes E _ _ _ Hl) |].
  split; [|split; [|split]].
  - intros before file after -> si. split; [apply loop_reaches_snoc |]. split.
    + intros sf e Hb. exact (run_logs_failure E _ _ _ _ _ _ _ Hl Hb).
    + intros Hok. exact (run_indexes E _ _ _ _ _ Hl Hok).
  - intros file t. split; [intros t1 e; apply client_failure |].
    intros t1 dbx Hc. split; [apply resolveLink_total |]. split; [|split].
    + intros t2 link w e. now apply download_failure.
    + intros t2 link w. now apply decode_failure.
    + intros t2 link w buffer w' e. now apply write_failure.
  - intros f1 f2 f3 sc dbx sl link w e -> N1 N3 H1 Hc Hr Hd H3.
    assert (snd (processFileBody E f2 (loop_reaches E [f1; f2; f3] [f1] s1)) = Throw e) as H2
      by exact (download_failure E _ _ _ _ _ _ _ _ Hc Hr Hd).
    destruct (processFileBody E f2 (loop_reaches E [f1; f2; f3] [f1] s1)) as [sf r] eqn:Hb.
    cbn in H2. subst r.
    destruct (run_logs_failure E s s1 sf [f1] f2 [f3] e Hl Hb) as (Hnext & Hsame & Hline).
    split; [exact (run_indexes E s s1 [] f1 [f2; f3] Hl H1) |].
    split; [exact (run_indexes E s s1 [f1; f2] f3 [] Hl H3) |].
    split; [|exact Hline].
    unfold s'. rewrite (run_enters E s s1 [f1; f2] f3 [] Hl).
    change (es_docs (fst (processFile E f3 (loop_reaches E [f1; f2; f3] [f1; f2] s1)))
              !! document_id f2 = es_docs s !! document_id f2).
    assert (es_docs (loop_reaches E [f1; f2; f3] [f1; f2] s1)
            = es_docs (loop_reaches E [f1; f2; f3] [f1] s1)) as Hsame' by exact Hsame.
    pose proof (processFile_step E f3 (loop_reaches E [f1; f2; f3] [f1; f2] s1)) as S3.
    assert (es_docs (fst (processFile E f3 (loop_reaches E [f1; f2; f3] [f1; f2] s1)))
              !! document_id f2
            = es_docs (loop_reaches E [f1; f2; f3] [f1; f2] s1) !! document_id f2) as ->.
    { destruct S3 as [-> | (doc & _ & _ & ->)]; [reflexivity |].
      apply lookup_insert_ne. unfold document_id. intros Heq.
      apply Base64Facts.encode_inj in Heq. congruence. }
    rewrite Hsame'.
    apply (loop_reaches_keeps E _ _ _ _ _ _ Hl).
    intros g [<- | []]. congruence.
  - apply syncRun_throws.
Qed.

(** Files [a.txt], [b.txt], [d.txt], the download of [b.txt] rejected: the
    run completes, [a.txt] and [d.txt] are indexed, [b.txt] is not, and the
    failure is on the console. *)
Lemma per_entry_failure_is_isolated_witness :
  let E := Scenario.env Scenario.three_files in
  let s' := fst (indexDropboxFiles E Scenario.start) in
  snd (indexDropboxFiles E Scenario.start) = Ok tt /\
  is_Some (es_docs s' !! document_id Scenario.a_txt) /\
  es_docs s' !! document_id Scenario.b_txt = None /\
  is_Some (es_docs s' !! document_id Scenario.d_txt) /\
  In {| level := ERROR; message := "Error processing file b.txt:";
        detail := Some "download failed" |} (console s').
Proof.
  intros E s'.
  pose (files := [Scenario.a_txt; Scenario.b_txt; Scenario.d_txt]).
  pose (s1 := fst (listTextFiles E Scenario.start)).
  pose (dbx := {| accessToken := "token-1" |}).
  pose (sc := fst (getDropboxClient E (loop_reaches E files [Scenario.a_txt] s1))).
  pose (sl := fst (resolveLink E dbx Scenario.b_txt sc)).
  assert (listTextFiles E Scenario.start = (s1, Ok files)) as Hl by (vm_compute; reflexivity).
  pose proof (per_entry_failure_is_isolated E Scenario.start s1 files Hl) as H.
  cbv zeta in H. fold s' in H. destruct H as (Hdone & _ & _ & H & _).
  pose proof (H Scenario.a_txt Scenario.b_txt Scenario.d_txt sc dbx sl
                "https://dl.dropboxusercontent.com/s/b.txt"
                (fst (filesDownload E dbx "/b.txt" (world sl))) "download failed" eq_refl) as H'.
  assert (path_lower Scenario.b_txt <> path_lower Scenario.a_txt) as N1
    by (vm_compute; discriminate).
  assert (path_lower Scenario.b_txt <> path_lower Scenario.d_txt) as N3
    by (vm_compute; discriminate).
  assert (snd (processFileBody E Scenario.a_txt (loop_reaches E files [] s1)) = Ok tt) as A1
    by (vm_compute; reflexivity).
  assert (getDropboxClient E (loop_reaches E files [Scenario.a_txt] s1) = (sc, Ok dbx)) as A2
    by (vm_compute; reflexivity).
  assert (resolveLink E dbx Scenario.b_txt sc
          = (sl, Ok "https://dl.dropboxusercontent.com/s/b.txt")) as A3
    by (vm_compute; reflexivity).
  assert (filesDownload E dbx (path_lower Scenario.b_txt) (world sl)
          = (fst (filesDownload E dbx "/b.txt" (world sl)), Throw "download failed")) as A4
    by (vm_compute; reflexivity).
  assert (snd (processFileBody E Scenario.d_txt
                 (loop_reaches E files [Scenario.a_txt; Scenario.b_txt] s1)) = Ok tt) as A5
    by (vm_compute; reflexivity).
  destruct (H' N1 N3 A1 A2 A3 A4 A5) as ((d1 & H1 & _) & (d3 & H3 & _) & H2 & Hline).
  split; [exact Hdone |]. split; [eexists; exact H1 |]. split; [rewrite H2; reflexivity |].
  split; [eexists; exact H3 | exact Hline].
Defined.

(** ** Degraded links, seen from the run *)

Section DegradedEntry.

Context {W : Type} (E : Env W).

Implicit Types (files before after : list Entry) (file : Entry).

(** The iteration of an entry whose sharing calls fail: the warning is on
    the console, the download is among the calls, and the write that the
    chain attempts carries the placeholder. *)
Lemma degraded_iteration file (si sc : State W) dbx :
  getDropboxClient E si = (sc, Ok dbx) ->
  sharing_fails E dbx file sc ->
  let sl := fst (resolveLink E dbx file sc) in
  let sj := fst (processFile E file si) in
  snd (resolveLink E dbx file sc) = Ok (placeholder file)
  /\ processFileBody E file si = fetchAndIndex E dbx file (placeholder file) sl
  /\ (exists l1 l2, console sj = (console si ++ l1 ++ sharing_warning file :: l2)%list)
  /\ (exists c1 c2, calls sj = (calls si ++ c1 ++ FilesDownload dbx (path_lower file) :: c2)%list)
  /\ (forall w buffer w',
        filesDownload E dbx (path_lower file) (world sl)
          = (w, Ok {| fileBinary := Some buffer |}) ->
        es_index E indexName (document_id file)
          (indexed_document file (toString_utf8 E buffer) (placeholder file)) w = (w', Ok tt) ->
        snd (processFileBody E file si) = Ok tt /\
        es_docs sj !! document_id file
        = Some (indexed_document file (toString_utf8 E buffer) (placeholder file))).
Proof.
  intros Hc Hfail sl sj.
  destruct (resolveLink_degraded E dbx file sc Hfail) as (s1 & Hr & Hlog & _ & _).
  assert (sl = s1) as Hsl by (subst sl; now rewrite Hr). rewrite Hsl. clear sl Hsl.
  assert (processFileBody E file si = fetchAndIndex E dbx file (placeholder file) s1) as Hbody.
  { unfold processFileBody. rewrite (bind_ok _ _ _ _ _ Hc). now rewrite (bind_ok _ _ _ _ _ Hr). }
  assert (exists l0, console sc = (console si ++ l0)%list) as [l0 L0].
  { destruct (getDropboxClient_prints E (fun _ => True) I (fun _ => I) si _ _ Hc)
      as (new & H & _). eauto. }
  assert (exists c0, calls sc = (calls si ++ c0)%list) as [c0 C0].
  { pose proof (getDropboxClient_calls E si) as H. rewrite Hc in H. cbn in H.
    destruct H as [-> | ->]; [exists []; now rewrite app_nil_r | eauto]. }
  assert (exists c1, calls s1 = (calls sc ++ c1)%list) as [c1 C1].
  { destruct (resolveLink_calls E dbx file sc) as (sharing & l & _ & H & _).
    rewrite Hr in H. cbn in H. eauto. }
  assert (sj = match fetchAndIndex E dbx file (placeholder file) s1 with
               | (s3, Ok _) => s3
               | (s3, Throw e) =>
                   fst (print ERROR ("Error processing file " +:+ name file +:+ ":") (Some e) s3)
               end) as Hsj.
  { subst sj. rewrite processFile_unfold, Hc, Hr. reflexivity. }
  split; [now rewrite Hr |]. split; [exact Hbody |]. split; [|split].
  - pose proof (fetchAndIndex_console E dbx file (placeholder file) s1) as Hcons.
    rewrite Hsj. destruct (fetchAndIndex E dbx file (placeholder file) s1) as [s3 [[]|e]];
      cbn [fst snd print console] in *; rewrite Hcons, Hlog, L0.
    + exists l0. eexists. rewrite <- !app_assoc. reflexivity.
    + exists l0. eexists. rewrite <- !app_assoc. reflexivity.
  - pose proof (fetchAndIndex_calls E dbx file (placeholder file) s1) as Hcalls.
    rewrite Hsj. destruct (fetchAndIndex E dbx file (placeholder file) s1) as [s3 [[]|e]];
      cbn [fst snd print calls] in *; exists (c0 ++ c1)%list;
      destruct Hcalls as [-> | ->]; eexists; rewrite C1, C0, <- !app_assoc; reflexivity.
  - intros w buffer w' Hd Hw.
    assert (exists s2, fetchAndIndex E dbx file (placeholder file) s1 = (s2, Ok tt) /\
              es_docs s2 = <[document_id file :=
                 indexed_document file (toString_utf8 E buffer) (placeholder file)]> (es_docs s1))
      as (s2 & H2 & D2).
    { unfold fetchAndIndex, bind, await, esClient_index, print, ret. rewrite Hd. cbn.
      unfold indexed_document in Hw. rewrite Hw. eexists. split; reflexivity. }
    rewrite Hbody, Hsj, H2. split; [reflexivity |]. rewrite D2. apply lookup_insert_eq.
Qed.

End DegradedEntry.

(** C8. When the sharing calls of an enumerated file fail (the listing is
    rejected, or it is empty and the creation is rejected), the sync run
    does not abort.  Link resolution yields the placeholder
    [temporary-link-for-<name>]; the warning is on the console when the run
    ends; the file is still downloaded, the download being among the calls
    of the run; when the download and the index write succeed, the document
    found in the index when the run ends carries the placeholder as [url]
    (no later entry carrying the same path); and the run goes on with the
    remaining files: each of them whose chain succeeds is in the index when
    the run ends. *)
Theorem sharing_failure_degrades_to_placeholder {W} (E : Env W) (s s1 sc : State W)
    (files before after : list Entry) (file : Entry) (dbx : Dropbox) :
  let si := loop_reaches E files before s1 in
  let sl := fst (resolveLink E dbx file sc) in
  let s' := fst (indexDropboxFiles E s) in
  listTextFiles E s = (s1, Ok files) ->
  files = (before ++ file :: after)%list ->
  getDropboxClient E si = (sc, Ok dbx) ->
  sharing_fails E dbx file sc ->
  snd (indexDropboxFiles E s) = Ok tt
  /\ snd (resolveLink E dbx file sc) = Ok ("temporary-link-for-" +:+ name file)
  /\ In {| level := WARN;
           message := "Could not create shared link for " +:+ name file
                      +:+ ", using temporary link";
           detail := None |} (console s')
  /\ (exists new, calls s' = (calls s ++ new)%list /\
                  In (FilesDownload dbx (path_lower file)) new)
  /\ (forall w buffer w',
        filesDownload E dbx (path_lower file) (world sl)
          = (w, Ok {| fileBinary := Some buffer |}) ->
        es_index E indexName (document_id file)
          {| filename := name file;
             content := toString_utf8 E buffer;
             path := path_lower file;
             lastModified := server_modified file;
             doc_url := "temporary-link-for-" +:+ name file |} w = (w', Ok tt) ->
        (forall g, In g after -> path_lower g <> path_lower file) ->
        es_docs s' !! document_id file =
          Some {| filename := name file;
                  content := toString_utf8 E buffer;
                  path := path_lower file;
                  lastModified := server_modified file;
                  doc_url := "temporary-link-for-" +:+ name file |})
  /\ (forall mid g rest,
        after = (mid ++ g :: rest)%list ->
        snd (processFileBody E g (loop_reaches E files (before ++ file :: mid)%list s1)) = Ok tt ->
        exists doc, es_docs s' !! document_id g = Some doc /\ path doc = path_lower g).
Proof.
  intros si sl s' Hl -> Hc Hfail.
  destruct (degraded_iteration E file si sc dbx Hc Hfail)
    as (Hlink & _ & (l1 & l2 & Hcons) & (c1 & c2 & Hcalls) & Hdoc).
  destruct (run_keeps_record E _ _ _ _ _ Hl) as [[cpost Hcpost] [lpost Hlpost]].
  fold si s' in Hcpost, Hlpost.
  destruct (loop_reaches_grows E _ _ _ (before ++ file :: after)%list before Hl) as [[cpre Hcpre] _].
  fold si in Hcpre.
  split; [exact (run_completes E _ _ _ Hl) |]. split; [exact Hlink |].
  split; [|split; [|split]].
  - rewrite Hlpost, Hcons. apply in_or_app. left. apply in_or_app. right.
    apply in_or_app. right. now left.
  - exists (cpre ++ c1 ++ FilesDownload dbx (path_lower file) :: c2 ++ cpost)%list. split.
    + rewrite Hcpost, Hcalls, Hcpre, <- !app_assoc. reflexivity.
    + apply in_or_app. right. apply in_or_app. right. now left.
  - intros w buffer w' Hd Hw Hlater.
    destruct (Hdoc w buffer w' Hd Hw) as [_ Hstored].
    unfold s'. rewrite (run_enters E _ _ _ _ _ Hl), later_entries_keep by assumption.
    exact Hstored.
  - intros mid g rest -> Hok.
    assert ((before ++ file :: mid ++ g :: rest)%list
            = ((before ++ file :: mid) ++ g :: rest)%list) as Heq
      by (rewrite <- app_assoc; reflexivity).
    rewrite Heq in Hl, Hok. exact (run_indexes E _ _ _ _ _ Hl Hok).
Qed.

(** With the sharing endpoints down, the run over [a.txt] and [d.txt]
    completes, having warned, with both files indexed under their
    placeholders. *)
Lemma sharing_failure_degrades_to_placeholder_witness :
  let E := Scenario.env Scenario.sharing_down in
  let s' := fst (indexDropboxFiles E Scenario.start) in
  snd (indexDropboxFiles E Scenario.start) = Ok tt /\
  In {| level := WARN;
        message := "Could not create shared link for a.txt, using temporary link";
        detail := None |} (console s') /\
  (doc_url <$> es_docs s' !! document_id Scenario.a_txt) = Some "temporary-link-for-a.txt" /\
  is_Some (es_docs s' !! document_id Scenario.d_txt).
Proof.
  intros E s'.
  pose (files := [Scenario.a_txt; Scenario.d_txt]).
  pose (s1 := fst (listTextFiles E Scenario.start)).
  pose (dbx := {| accessToken := "token-1" |}).
  pose (sc := fst (getDropboxClient E (loop_reaches E files [] s1))).
  pose (sl := fst (resolveLink E dbx Scenario.a_txt sc)).
  assert (listTextFiles E Scenario.start = (s1, Ok files)) as Hl by (vm_compute; reflexivity).
  assert (getDropboxClient E (loop_reaches E files [] s1) = (sc, Ok dbx)) as Hc
    by (vm_compute; reflexivity).
  assert (sharing_fails E dbx Scenario.a_txt sc) as Hfail.
  { left. exists (S (world sc)), "sharing unavailable". vm_compute. reflexivity. }
  pose proof (sharing_failure_degrades_to_placeholder E Scenario.start s1 sc files
                [] [Scenario.d_txt] Scenario.a_txt dbx Hl eq_refl Hc Hfail) as H.
  cbv zeta in H. fold s' in H. destruct H as (Hdone & _ & Hwarn & _ & Hdoc & Hrest).
  assert (filesDownload E dbx (path_lower Scenario.a_txt) (world sl)
          = (S (world sl), Ok {| fileBinary := Some "content of /a.txt" |})) as Hd
    by (vm_compute; reflexivity).
  assert (forall g, In g [Scenario.d_txt] -> path_lower g <> path_lower Scenario.a_txt) as Hlater
    by (intros g [<- | []]; vm_compute; discriminate).
  assert (snd (processFileBody E Scenario.d_txt
                 (loop_reaches E files [Scenario.a_txt] s1)) = Ok tt) as Hd_ok
    by (vm_compute; reflexivity).
  split; [exact Hdone |]. split; [exact Hwarn |]. split.
  - rewrite (Hdoc _ _ (S (S (world sl))) Hd); [reflexivity | vm_compute; reflexivity | exact Hlater].
  - destruct (Hrest [] Scenario.d_txt [] eq_refl Hd_ok) as (doc & Hdoc' & _).
    exists doc. exact Hdoc'.
Defined.

(** * Properties of the search page *)

(** ** Submitting a search *)

(** X13. [handleSearch] does nothing for an empty term (no request, the
    page as it was).  For a non-empty term it requests the search URL once,
    leaves the term and the sort settings alone, and ends with [loading]
    off and [hasSearched] on.  When the request succeeds the results are
    replaced by the answer.  When it fails (rejected request, non-2xx
    answer such as the server's 400 or 500, or a body that is not JSON) the
    error goes to the console and the results shown before stay on the
    page; with no earlier results the page then shows [No results found],
    as it does for a search that found nothing. *)
Theorem search_outcomes {W} (B : SearchUI.Browser W) (p : SearchUI.Page W) :
  let c := SearchUI.component p in
  let p' := SearchUI.handleSearch B p in
  let c' := SearchUI.component p' in
  (SearchUI.searchTerm c = "" -> p' = p)
  /\ (SearchUI.searchTerm c <> "" ->
      SearchUI.requested p'
        = (SearchUI.requested p ++ [SearchUI.search_url B (SearchUI.searchTerm c)])%list /\
      SearchUI.searchTerm c' = SearchUI.searchTerm c /\
      SearchUI.sortBy c' = SearchUI.sortBy c /\
      SearchUI.sortOrder c' = SearchUI.sortOrder c /\
      SearchUI.loading c' = false /\
      SearchUI.hasSearched c' = true)
  /\ (SearchUI.searchTerm c <> "" ->
      forall w response data,
        SearchUI.fetch B (SearchUI.search_url B (SearchUI.searchTerm c)) (SearchUI.network p)
          = (w, Ok response) ->
        SearchUI.response_ok response = true ->
        SearchUI.response_json response = Ok data ->
        SearchUI.results c' = data /\ SearchUI.page_console p' = SearchUI.page_console p)
  /\ (SearchUI.searchTerm c <> "" ->
      search_fails B p ->
      SearchUI.results c' = SearchUI.results c /\
      (exists e, SearchUI.page_console p'
                 = (SearchUI.page_console p ++
                      [{| level := ERROR; message := "Search failed:"; detail := Some e |}])%list) /\
      (SearchUI.showsNoResults c' = true <-> SearchUI.results c = [])).
Proof.
  cbn zeta. unfold SearchUI.handleSearch, search_fails.
  destruct (SearchUI.searchTerm (SearchUI.component p)) as [|ch term] eqn:Hterm.
  - cbn. repeat split; try congruence.
  - cbn [JsString.truthy negb].
    destruct (SearchUI.fetch B _ (SearchUI.network p)) as [w [response|e]] eqn:Hf.
    + destruct (SearchUI.response_ok response) eqn:Hok; cbn.
      * destruct (SearchUI.response_json response) as [data|e] eqn:Hj; cbn.
        -- split; [discriminate |]. split; [auto 10 |]. split.
           ++ intros _ w' r' d' [= <- <-] _ Hj'. rewrite Hj in Hj'. injection Hj' as <-. auto.
           ++ intros _ [? | [e He]]; discriminate.
        -- split; [discriminate |]. split; [auto 10 |]. split.
           ++ intros _ w' r' d' [= <- <-] _ Hj'. rewrite Hj in Hj'. discriminate.
           ++ intros _ _. split; [reflexivity |]. split; [eauto |].
              unfold SearchUI.showsNoResults. cbn.
              destruct (SearchUI.results (SearchUI.component p)); cbn; split; congruence.
      * split; [discriminate |]. split; [auto 10 |]. split.
        -- intros _ w' r' d' [= <- <-] Hok'. congruence.
        -- intros _ _. split; [reflexivity |]. split; [eauto |].
           unfold SearchUI.showsNoResults. cbn.
           destruct (SearchUI.results (SearchUI.component p)); cbn; split; congruence.
    + cbn. split; [discriminate |]. split; [auto 10 |]. split.
      * intros _ w' r' d' [=].
      * intros _ _. split; [reflexivity |]. split; [eauto |].
        unfold SearchUI.showsNoResults. cbn.
        destruct (SearchUI.results (SearchUI.component p)); cbn; split; congruence.
Qed.

(** The server answers 500: the earlier result stays on the page and the
    error is on the console. *)
Lemma search_outcomes_witness :
  let B := Browsers.scripted
             (Ok {| SearchUI.response_ok := false; SearchUI.response_status := 500;
                    SearchUI.response_json := Throw "unread" |}) in
  let p' := SearchUI.handleSearch B Browsers.typed in
  SearchUI.searchTerm (SearchUI.component Browsers.typed) <> "" /\
  search_fails B Browsers.typed /\
  SearchUI.results (SearchUI.component p') = [Browsers.result "old.txt" "2024"] /\
  SearchUI.page_console p'
  = [{| level := ERROR; message := "Search failed:";
        detail := Some "HTTP error! status: 500" |}].
Proof.
  intros B p'.
  assert (SearchUI.searchTerm (SearchUI.component Browsers.typed) <> "") as Hne by discriminate.
  assert (search_fails B Browsers.typed) as Hf by (left; reflexivity).
  destruct (search_outcomes B Browsers.typed) as (_ & _ & _ & Hfail).
  destruct (Hfail Hne Hf) as (Hres & _ & _).
  split; [exact Hne |]. split; [exact Hf |]. split; [exact Hres |].
  vm_compute. reflexivity.
Defined.

(** ** The encoded term *)

Module JsUriFacts.
Import JsUri.

Lemma hex_digit_unreserved (b3 b2 b1 b0 : bool) : is_unreserved (hex_digit b3 b2 b1 b0) = true.
Proof. destruct b3, b2, b1, b0; reflexivity. Qed.

Lemma percent_reserved : is_unreserved "%" = false.
Proof. reflexivity. Qed.

Lemma hex_digit_inj (a3 a2 a1 a0 b3 b2 b1 b0 : bool) :
  hex_digit a3 a2 a1 a0 = hex_digit b3 b2 b1 b0 ->
  a3 = b3 /\ a2 = b2 /\ a1 = b1 /\ a0 = b0.
Proof.
  destruct a3, a2, a1, a0, b3, b2, b1, b0; intros H;
    first [discriminate H | repeat split].
Qed.

Lemma encodeURIComponent_safe (s : string) :
  Forall safe_unit (list_ascii_of_string (encodeURIComponent s)).
Proof.
  induction s as [|c s IH]; cbn [encodeURIComponent]; [constructor |].
  destruct (is_unreserved c) eqn:Hc.
  - cbn. constructor; [now left | exact IH].
  - destruct c as [b0 b1 b2 b3 b4 b5 b6 b7]. cbn [escape].
    rewrite !JsStringFacts.append_cons, JsStringFacts.append_nil.
    cbn [list_ascii_of_string].
    constructor; [right; reflexivity |].
    constructor; [left; apply hex_digit_unreserved |].
    constructor; [left; apply hex_digit_unreserved | exact IH].
Qed.

Lemma encodeURIComponent_inj (s1 s2 : string) :
  encodeURIComponent s1 = encodeURIComponent s2 -> s1 = s2.
Proof.
  revert s2. induction s1 as [|c1 s1 IH]; intros [|c2 s2]; cbn [encodeURIComponent].
  - reflexivity.
  - destruct (is_unreserved c2); [discriminate |].
    destruct c2. cbn [escape]. rewrite !JsStringFacts.append_cons. discriminate.
  - destruct (is_unreserved c1); [discriminate |].
    destruct c1. cbn [escape]. rewrite !JsStringFacts.append_cons. discriminate.
  - destruct (is_unreserved c1) eqn:H1, (is_unreserved c2) eqn:H2.
    + intros [= -> H]. f_equal. now apply IH.
    + destruct c2. cbn [escape]. rewrite !JsStringFacts.append_cons, JsStringFacts.append_nil.
      intros [= -> _]. rewrite percent_reserved in H1. discriminate.
    + destruct c1. cbn [escape]. rewrite !JsStringFacts.append_cons, JsStringFacts.append_nil.
      intros [= <- _]. rewrite percent_reserved in H2. discriminate.
    + destruct c1 as [a0 a1 a2 a3 a4 a5 a6 a7], c2 as [b0 b1 b2 b3 b4 b5 b6 b7].
      cbn [escape]. rewrite !JsStringFacts.append_cons, !JsStringFacts.append_nil.
      intros [= Hh Hl H].
      apply hex_digit_inj in Hh as (-> & -> & -> & ->).
      apply hex_digit_inj in Hl as (-> & -> & -> & ->).
      f_equal. now apply IH.
Qed.

End JsUriFacts.

(** X14. The term travels in the request URL as a single, unambiguous query
    parameter: the URL is the API root followed by [/api/search?q=] and the
    encoded term; the encoded term consists of unreserved characters and
    [%] only, so it holds none of [&], [=], [#], [?], [/], [+] or a space;
    and two different terms never give the same URL. *)
Theorem search_url_is_unambiguous {W} (B : SearchUI.Browser W) :
  (forall term,
     SearchUI.search_url B term
     = default "undefined" (SearchUI.VITE_API_URL B) +:+ "/api/search?q="
       +:+ JsUri.encodeURIComponent term)
  /\ (forall term c,
        In c (list_ascii_of_string (JsUri.encodeURIComponent term)) ->
        JsUri.is_unreserved c = true \/ c = "%"%char)
  /\ (forall term c,
        In c (list_ascii_of_string "&=#?/+ ") ->
        ~ In c (list_ascii_of_string (JsUri.encodeURIComponent term)))
  /\ (forall term1 term2,
        SearchUI.search_url B term1 = SearchUI.search_url B term2 -> term1 = term2).
Proof.
  split; [reflexivity |]. split; [|split].
  - intros term c Hin. pose proof (JsUriFacts.encodeURIComponent_safe term) as Hs.
    rewrite Forall_forall in Hs. now apply Hs, list_elem_of_In.
  - intros term c Hc Hin. pose proof (JsUriFacts.encodeURIComponent_safe term) as Hs.
    rewrite Forall_forall in Hs. apply list_elem_of_In, Hs in Hin.
    cbn in Hc. destruct Hin as [Hu | ->].
    + repeat (destruct Hc as [<- | Hc]; [vm_compute in Hu; discriminate Hu |]). exact Hc.
    + repeat (destruct Hc as [Hc | Hc]; [discriminate Hc |]). exact Hc.
  - intros t1 t2. unfold SearchUI.search_url. intros H.
    apply JsUriFacts.encodeURIComponent_inj.
    revert H. generalize (JsUri.encodeURIComponent t1) (JsUri.encodeURIComponent t2).
    generalize (default "undefined" (SearchUI.VITE_API_URL B)). intros root a b.
    induction root as [|ch root IH]; rewrite ?JsStringFacts.append_cons.
    + rewrite !JsStringFacts.append_nil. cbn. now intros [= ->].
    + intros [= H]. now apply IH.
Qed.

(** ** Sorting the results *)

Section SortFacts.

Context {A : Type} (compareFn : A -> A -> option Z).

Local Abbreviation sort := (SearchUI.Array_sort compareFn).
Local Abbreviation insert := (SearchUI.insert_sorted compareFn).
Local Abbreviation cmp := (SearchUI.comparison compareFn).

Lemma insert_sorted_perm (a : A) (l : list A) : insert a l ≡ₚ a :: l.
Proof.
  induction l as [|b l IH]; cbn; [reflexivity |].
  destruct (0 <? cmp a b)%Z; [|reflexivity].
  rewrite IH. apply Permutation_swap.
Qed.

Lemma Array_sort_perm (l : list A) : sort l ≡ₚ l.
Proof.
  induction l as [|a l IH]; cbn; [reflexivity |].
  now rewrite insert_sorted_perm, IH.
Qed.

(** Members of a class of mutually tied elements keep their order. *)
Lemma insert_sorted_ties (C : A -> bool) (a : A) (l : list A) :
  (forall x y, C x = true -> C y = true -> (cmp x y <= 0)%Z) ->
  List.filter C (insert a l) = List.filter C (a :: l).
Proof.
  intros Htie. induction l as [|b l IH]; [reflexivity |].
  cbn [SearchUI.insert_sorted].
  destruct (Z.ltb_spec 0 (cmp a b)) as [Hlt|]; [|reflexivity].
  cbn [List.filter] in *. destruct (C a) eqn:Ca.
  - destruct (C b) eqn:Cb.
    + specialize (Htie a b Ca Cb). lia.
    + exact IH.
  - now rewrite IH.
Qed.

Lemma Array_sort_ties (C : A -> bool) (l : list A) :
  (forall x y, C x = true -> C y = true -> (cmp x y <= 0)%Z) ->
  List.filter C (sort l) = List.filter C l.
Proof.
  intros Htie. induction l as [|a l IH]; [reflexivity |].
  cbn [SearchUI.Array_sort]. rewrite insert_sorted_ties by assumption.
  cbn [List.filter]. now rewrite IH.
Qed.

Section Consistent.

(** The comparator is consistent on the elements satisfying [Q]. *)
Variable Q : A -> Prop.
Hypothesis reversed : forall a b, Q a -> Q b -> (0 < cmp a b)%Z -> (cmp b a <= 0)%Z.
Hypothesis transitive :
  forall a b c, Q a -> Q b -> Q c -> (cmp a b <= 0)%Z -> (cmp b c <= 0)%Z -> (cmp a c <= 0)%Z.

Lemma insert_sorted_sorted (a : A) (l : list A) :
  Q a -> Forall Q l ->
  StronglySorted (in_order compareFn) l ->
  StronglySorted (in_order compareFn) (insert a l).
Proof.
  intros Qa Ql Hs. induction Hs as [|b l Hs IH Hb]; cbn.
  - repeat constructor.
  - apply Forall_cons in Ql as [Qb Ql].
    destruct (Z.ltb_spec 0 (cmp a b)) as [Hlt | Hle].
    + constructor; [now apply IH |].
      rewrite insert_sorted_perm. constructor; [|exact Hb].
      unfold in_order. now apply reversed.
    + constructor; [now constructor |].
      constructor; [exact Hle |].
      rewrite Forall_forall in Hb, Ql |- *. intros z Hz.
      unfold in_order in *. apply (transitive a b z); auto.
Qed.

Lemma Array_sort_sorted (l : list A) :
  Forall Q l -> StronglySorted (in_order compareFn) (sort l).
Proof.
  induction l as [|a l IH]; intros Ql; cbn; [constructor |].
  apply Forall_cons in Ql as [Qa Ql].
  apply insert_sorted_sorted; [exact Qa | now rewrite Array_sort_perm | now apply IH].
Qed.

End Consistent.

End SortFacts.

Lemma StronglySorted_weaken {A} (R R' : A -> A -> Prop) (Q : A -> Prop) (l : list A) :
  (forall a b, Q a -> Q b -> R a b -> R' a b) ->
  Forall Q l -> StronglySorted R l -> StronglySorted R' l.
Proof.
  intros Himp Ql Hs. induction Hs as [|a l Hs IH Ha]; [constructor |].
  apply Forall_cons in Ql as [Qa Ql]. constructor; [now apply IH |].
  rewrite Forall_forall in Ha, Ql |- *. intros b Hb. apply Himp; auto.
Qed.

(** Sorting only rearranges, and results that tie under the comparator keep
    the order in which they were received. *)
Lemma sortResults_rearranges {W} (B : SearchUI.Browser W) (c : SearchUI.Component)
    (rs : list SearchResult) :
  SearchUI.sortResults B c rs ≡ₚ rs
  /\ forall tied : SearchResult -> bool,
       (forall x y, tied x = true -> tied y = true ->
                    (SearchUI.comparison (SearchUI.compareResults B c) x y <= 0)%Z) ->
       List.filter tied (SearchUI.sortResults B c rs) = List.filter tied rs.
Proof.
  unfold SearchUI.sortResults. split; [apply Array_sort_perm |].
  intros tied Htie. now apply Array_sort_ties.
Qed.

(** X15. Sorted by date, results whose dates all parse are rendered by
    timestamp: the list rendered is a rearrangement of the results
    received; ascending, every result stands before all results with a
    greater or equal timestamp after it, and descending the other way
    round; and results with the same timestamp appear in the order the
    server returned them. *)
Theorem results_sorted_by_date {W} (B : SearchUI.Browser W) (c : SearchUI.Component)
    (rs : list SearchResult) :
  SearchUI.sortBy c = SearchUI.by_date ->
  Forall (fun r => is_Some (SearchUI.getTime B (res_lastModified r))) rs ->
  SearchUI.sortResults B c rs ≡ₚ rs
  /\ StronglySorted
       (fun a b =>
          match SearchUI.sortOrder c with
          | SearchUI.asc => (time_of B a <= time_of B b)%Z
          | SearchUI.desc => (time_of B b <= time_of B a)%Z
          end)
       (SearchUI.sortResults B c rs)
  /\ forall t : Z,
       List.filter (fun r => bool_decide (SearchUI.getTime B (res_lastModified r) = Some t))
         (SearchUI.sortResults B c rs)
       = List.filter (fun r => bool_decide (SearchUI.getTime B (res_lastModified r) = Some t)) rs.
Proof.
  intros Hby Hparse.
  destruct (sortResults_rearranges B c rs) as [Hperm Hties].
  split; [exact Hperm |]. split.
  2:{ intros t. apply Hties. intros x y Hx%bool_decide_eq_true Hy%bool_decide_eq_true.
      unfold SearchUI.comparison, SearchUI.compareResults.
      rewrite Hby, Hx, Hy. destruct (SearchUI.sortOrder c); cbn; lia. }
  unfold SearchUI.sortResults.
  set (Q := fun r : SearchResult => is_Some (SearchUI.getTime B (res_lastModified r))).
  assert (forall a b, Q a -> Q b ->
            SearchUI.comparison (SearchUI.compareResults B c) a b
            = match SearchUI.sortOrder c with
              | SearchUI.asc => (time_of B a - time_of B b)%Z
              | SearchUI.desc => (time_of B b - time_of B a)%Z
              end) as Hcmp.
  { intros a b [ta Ha] [tb Hb].
    unfold SearchUI.comparison, SearchUI.compareResults, time_of.
    rewrite Hby, Ha, Hb. now destruct (SearchUI.sortOrder c). }
  apply (StronglySorted_weaken (in_order (SearchUI.compareResults B c)) _ Q).
  - intros a b Qa Qb. unfold in_order. rewrite (Hcmp a b Qa Qb).
    destruct (SearchUI.sortOrder c); lia.
  - rewrite Array_sort_perm. exact Hparse.
  - apply (Array_sort_sorted _ Q); [| |exact Hparse].
    + intros a b Qa Qb. rewrite (Hcmp a b Qa Qb), (Hcmp b a Qb Qa).
      destruct (SearchUI.sortOrder c); lia.
    + intros a b d Qa Qb Qd. rewrite (Hcmp a b Qa Qb), (Hcmp b d Qb Qd), (Hcmp a d Qa Qd).
      destruct (SearchUI.sortOrder c); lia.
Qed.

(** Four dated results, newest first; the two of the same date in the order
    received. *)
Lemma results_sorted_by_date_witness :
  let B := Browsers.scripted (Throw "offline") in
  let rs := [Browsers.result "b.txt" "2024"; Browsers.result "a.txt" "2023-01-01";
             Browsers.result "c.txt" "2025-1"; Browsers.result "d.txt" "1999"] in
  Forall (fun r => is_Some (SearchUI.getTime B (res_lastModified r))) rs /\
  StronglySorted (fun a b => (time_of B b <= time_of B a)%Z)
    (SearchUI.sortResults B Browsers.by_date_descending rs) /\
  res_filename <$> SearchUI.sortResults B Browsers.by_date_descending rs
  = ["a.txt"; "c.txt"; "b.txt"; "d.txt"].
Proof.
  intros B rs.
  assert (Forall (fun r => is_Some (SearchUI.getTime B (res_lastModified r))) rs) as Hparse
    by (repeat constructor; eexists; reflexivity).
  split; [exact Hparse |]. split; [|reflexivity].
  exact (proj1 (proj2 (results_sorted_by_date B Browsers.by_date_descending rs eq_refl Hparse))).
Defined.

(** X16. Sorted by file name under a consistent [localeCompare] (swapping
    the arguments of a positive comparison gives a non-positive one, and
    the order it induces is transitive), the list rendered is a
    rearrangement of the results received, in that order: ascending, every
    result stands before all results after it whose name compares greater
    or equal, and descending the other way round; and results with the same
    file name appear in the order the server returned them. *)
Theorem results_sorted_by_filename {W} (B : SearchUI.Browser W) (c : SearchUI.Component)
    (rs : list SearchResult) :
  SearchUI.sortBy c = SearchUI.by_filename ->
  (forall a b, (0 < SearchUI.localeCompare B a b)%Z -> (SearchUI.localeCompare B b a <= 0)%Z) ->
  (forall a b d, (SearchUI.localeCompare B a b <= 0)%Z -> (SearchUI.localeCompare B b d <= 0)%Z ->
                 (SearchUI.localeCompare B a d <= 0)%Z) ->
  SearchUI.sortResults B c rs ≡ₚ rs
  /\ StronglySorted
       (fun a b =>
          match SearchUI.sortOrder c with
          | SearchUI.asc => (SearchUI.localeCompare B (res_filename a) (res_filename b) <= 0)%Z
          | SearchUI.desc => (SearchUI.localeCompare B (res_filename b) (res_filename a) <= 0)%Z
          end)
       (SearchUI.sortResults B c rs)
  /\ forall file : string,
       List.filter (fun r => String.eqb (res_filename r) file) (SearchUI.sortResults B c rs)
       = List.filter (fun r => String.eqb (res_filename r) file) rs.
Proof.
  intros Hby Hrev Htrans.
  assert (forall a b,
            SearchUI.comparison (SearchUI.compareResults B c) a b
            = match SearchUI.sortOrder c with
              | SearchUI.asc => SearchUI.localeCompare B (res_filename a) (res_filename b)
              | SearchUI.desc => SearchUI.localeCompare B (res_filename b) (res_filename a)
              end) as Hcmp.
  { intros a b. unfold SearchUI.comparison, SearchUI.compareResults.
    rewrite Hby. now destruct (SearchUI.sortOrder c). }
  destruct (sortResults_rearranges B c rs) as [Hperm Hties].
  split; [exact Hperm |]. split.
  2:{ intros file. apply Hties. intros x y Hx%String.eqb_eq Hy%String.eqb_eq.
      rewrite Hcmp, Hx, Hy.
      assert (SearchUI.localeCompare B file file <= 0)%Z as Hself.
      { destruct (Z.le_gt_cases (SearchUI.localeCompare B file file) 0) as [|Hgt]; [assumption |].
        apply Hrev. lia. }
      now destruct (SearchUI.sortOrder c). }
  unfold SearchUI.sortResults.
  apply (StronglySorted_weaken (in_order (SearchUI.compareResults B c)) _ (fun _ => True)).
  - intros a b _ _. unfold in_order. rewrite Hcmp. now destruct (SearchUI.sortOrder c).
  - apply Forall_forall. auto.
  - apply (Array_sort_sorted _ (fun _ => True)); [| |apply Forall_forall; auto].
    + intros a b _ _. rewrite !Hcmp. destruct (SearchUI.sortOrder c); apply Hrev.
    + intros a b d _ _ _. rewrite !Hcmp. destruct (SearchUI.sortOrder c); eauto.
Qed.

(** With names compared by length: shortest first. *)
Lemma results_sorted_by_filename_witness :
  let B := Browsers.scripted (Throw "offline") in
  let rs := [Browsers.result "report.txt" "2024"; Browsers.result "a.txt" "2023";
             Browsers.result "notes.txt" "2025"] in
  StronglySorted
    (fun a b => (SearchUI.localeCompare B (res_filename a) (res_filename b) <= 0)%Z)
    (SearchUI.sortResults B (SearchUI.component Browsers.typed) rs) /\
  res_filename <$> SearchUI.sortResults B (SearchUI.component Browsers.typed) rs
  = ["a.txt"; "notes.txt"; "report.txt"].
Proof.
  intros B rs. split; [|reflexivity].
  refine (proj1 (proj2 (results_sorted_by_filename B (SearchUI.component Browsers.typed) rs
                          eq_refl _ _))).
  - intros a b. cbn. lia.
  - intros a b d. cbn. lia.
Defined.

(** ** Emphasis in the excerpt *)

Module JsRegExpFacts.
Import JsString JsStringFacts JsRegExp.

Lemma startsWith_cons (a b : ascii) (pat s : string) :
  startsWith (String a pat) (String b s) = if Ascii.eqb a b then startsWith pat s else false.
Proof. reflexivity. Qed.

Lemma startsWith_empty (a : ascii) (pat : string) : startsWith (String a pat) "" = false.
Proof. reflexivity. Qed.

Lemma startsWith_nil (s : string) : startsWith "" s = true.
Proof. now destruct s. Qed.

Lemma drop_length (n : nat) (s : string) : String.length (drop n s) <= String.length s.
Proof.
  revert s. induction n as [|n IH]; intros [|c s]; cbn; try lia.
  specialize (IH s). lia.
Qed.

Lemma startsWith_length (pat s : string) :
  startsWith pat s = true ->
  String.length (drop (String.length pat) s) + String.length pat = String.length s.
Proof.
  revert s. induction pat as [|a pat IH]; intros s H; [cbn; lia |].
  destruct s as [|b s]; [discriminate |].
  rewrite startsWith_cons in H. destruct (Ascii.eqb a b); [|discriminate].
  cbn. specialize (IH s H). lia.
Qed.

Lemma lazy_until_close_length (t group rest : string) :
  lazy_until_close t = Some (group, rest) ->
  String.length t = String.length group + 5 + String.length rest.
Proof.
  revert group rest. induction t as [|c t IH]; intros group rest; cbn [lazy_until_close].
  - destruct (startsWith "</em>" "") eqn:Hs; [discriminate Hs |].
    destruct (line_terminator_at ""); discriminate.
  - destruct (startsWith "</em>" (String c t)) eqn:Hs.
    + intros [= <- <-]. apply startsWith_length in Hs. cbn [String.length drop] in *. lia.
    + destruct (line_terminator_at (String c t)); [discriminate |].
      destruct (lazy_until_close t) as [[g r]|]; [|discriminate].
      intros [= <- <-]. specialize (IH g r eq_refl). cbn [String.length]. lia.
Qed.

(** More fuel than code units is as good as any. *)
Lemma replace_em_fuel (f1 f2 : nat) (s : string) :
  String.length s < f1 -> String.length s < f2 -> replace_em f1 s = replace_em f2 s.
Proof.
  revert s f2. induction f1 as [|f1 IH]; intros s f2 H1 H2; [lia |].
  destruct f2 as [|f2]; [lia |].
  destruct s as [|c s]; [reflexivity |].
  cbn [replace_em]. cbn [String.length] in H1, H2.
  destruct (startsWith "<em>" (String c s)).
  - destruct (lazy_until_close (drop 4 (String c s))) as [[group rest]|] eqn:Hl.
    + apply lazy_until_close_length in Hl.
      pose proof (drop_length 4 (String c s)) as Hd. cbn [String.length] in Hd.
      f_equal. f_equal. f_equal. apply IH; lia.
    + f_equal. apply IH; lia.
  - f_equal. apply IH; lia.
Qed.

Lemma replace_em_plain (fuel : nat) (s : string) :
  occurs "<em>" s = false -> replace_em fuel s = s.
Proof.
  revert s. induction fuel as [|fuel IH]; intros s H; [reflexivity |].
  destruct s as [|c s]; [reflexivity |].
  cbn [replace_em]. cbn [occurs] in H.
  destruct (startsWith "<em>" (String c s)); [discriminate |].
  now rewrite IH.
Qed.

Lemma replace_em_skip (fuel : nat) (pre s : string) :
  occurs "<" pre = false ->
  replace_em (String.length pre + fuel) (pre +:+ s) = pre +:+ replace_em fuel s.
Proof.
  induction pre as [|d pre IH]; intros H; [reflexivity |].
  cbn [occurs] in H. rewrite startsWith_cons, startsWith_nil in H.
  destruct (Ascii.eqb_spec "<" d) as [|Hne]; [discriminate |].
  rewrite !append_cons. cbn [String.length Nat.add replace_em].
  rewrite (startsWith_head "<" d) by assumption. now rewrite IH.
Qed.

(** Whether a line terminator starts at a code unit does not depend on a
    closing tag further on. *)
Lemma line_terminator_before_close (c : ascii) (rest post : string) :
  line_terminator_at (String c (rest +:+ "</em>" +:+ post))
  = line_terminator_at (String c rest).
Proof.
  unfold line_terminator_at.
  destruct rest as [|y [|z rest]];
    rewrite ?append_cons, ?append_nil, ?startsWith_cons, ?startsWith_nil, ?startsWith_empty;
    change ("</em>" +:+ post) with (String "<" ("/em>" +:+ post));
    rewrite ?startsWith_cons, ?startsWith_nil, ?startsWith_empty;
    repeat match goal with
           | |- context [Ascii.eqb ?a ?b] =>
               lazymatch b with
               | c => destruct (Ascii.eqb a c)
               | y => destruct (Ascii.eqb a y)
               | z => destruct (Ascii.eqb a z)
               end
           end; reflexivity.
Qed.

Lemma lazy_until_close_found (group post : string) :
  occurs "<" group = false ->
  single_line group = true ->
  lazy_until_close (group +:+ "</em>" +:+ post) = Some (group, post).
Proof.
  induction group as [|c group IH]; intros Hlt Hline.
  - rewrite append_nil. cbn [lazy_until_close].
    change (startsWith "</em>" ("</em>" +:+ post)) with true.
    change (drop 5 ("</em>" +:+ post)) with post. reflexivity.
  - cbn [occurs] in Hlt. rewrite startsWith_cons, startsWith_nil in Hlt.
    destruct (Ascii.eqb_spec "<" c) as [|Hne]; [discriminate |].
    cbn [single_line] in Hline. apply andb_true_iff in Hline as [Hterm Hline].
    rewrite append_cons. cbn [lazy_until_close].
    rewrite (startsWith_head "<" c) by assumption.
    rewrite line_terminator_before_close.
    apply negb_true_iff in Hterm. rewrite Hterm.
    now rewrite IH.
Qed.

End JsRegExpFacts.

Lemma replaceTagWithStrong_some (text : string) :
  SearchUI.replaceTagWithStrong (Some text)
  = JsRegExp.replace_em (S (String.length text)) text.
Proof. reflexivity. Qed.

(** X17. [replaceTagWithStrong] turns highlights into [<strong>] elements
    and nothing else.  An absent excerpt is rendered as the empty string; an
    excerpt in which [<em>] does not occur is rendered as it is; and in an
    excerpt that starts with text free of [<], followed by a highlight
    [<em>..</em>] whose content is free of [<] and of line terminators, the
    text is kept, the highlight becomes [<strong>..</strong>] with the same
    content, and the rest of the excerpt is treated in the same way. *)
Theorem highlights_become_strong :
  SearchUI.replaceTagWithStrong None = ""
  /\ (forall text,
        JsString.occurs "<em>" text = false ->
        SearchUI.replaceTagWithStrong (Some text) = text)
  /\ (forall before hit after,
        JsString.occurs "<" before = false ->
        JsString.occurs "<" hit = false ->
        single_line hit = true ->
        SearchUI.replaceTagWithStrong (Some (before +:+ "<em>" +:+ hit +:+ "</em>" +:+ after))
        = before +:+ "<strong>" +:+ hit +:+ "</strong>"
          +:+ SearchUI.replaceTagWithStrong (Some after)).
Proof.
  split; [reflexivity |]. split.
  - intros text H. rewrite replaceTagWithStrong_some.
    now apply JsRegExpFacts.replace_em_plain.
  - intros before hit after Hb Hh Hl. rewrite !replaceTagWithStrong_some.
    set (tagged := "<em>" +:+ hit +:+ "</em>" +:+ after).
    replace (S (String.length (before +:+ tagged)))
      with (String.length before + S (String.length tagged))
      by (rewrite JsStringFacts.length_append; lia).
    rewrite JsRegExpFacts.replace_em_skip by assumption. f_equal.
    set (rendered := JsRegExp.replace_em (S (String.length after)) after).
    subst tagged.
    change ("<em>" +:+ hit +:+ "</em>" +:+ after)
      with (String "<" (String "e" (String "m" (String ">" (hit +:+ "</em>" +:+ after))))).
    cbn [JsRegExp.replace_em JsString.startsWith JsString.drop].
    change (Ascii.eqb "<" "<") with true. change (Ascii.eqb "e" "e") with true.
    change (Ascii.eqb "m" "m") with true. change (Ascii.eqb ">" ">") with true.
    cbn match.
    rewrite JsRegExpFacts.lazy_until_close_found by assumption.
    f_equal. f_equal. f_equal. subst rendered.
    apply JsRegExpFacts.replace_em_fuel; [|lia].
    cbn [String.length]. rewrite !JsStringFacts.length_append. lia.
Qed.

(** An Elasticsearch excerpt with two highlights. *)
Lemma highlights_become_strong_witness :
  JsString.occurs "<" "say " = false /\ JsString.occurs "<" "hello" = false /\
  single_line "hello" = true /\
  SearchUI.replaceTagWithStrong (Some "say <em>hello</em> to the <em>world</em>")
  = "say <strong>hello</strong> to the <strong>world</strong>".
Proof.
  destruct highlights_become_strong as (_ & _ & H).
  split; [reflexivity |]. split; [reflexivity |]. split; [reflexivity |].
  change (Some "say <em>hello</em> to the <em>world</em>")
    with (Some ("say " +:+ "<em>" +:+ "hello" +:+ "</em>" +:+ " to the <em>world</em>")).
  rewrite (H "say " "hello" " to the <em>world</em>") by reflexivity.
  change (Some " to the <em>world</em>")
    with (Some (" to the " +:+ "<em>" +:+ "world" +:+ "</em>" +:+ "")).
  rewrite (H " to the " "world" "") by reflexivity.
  reflexivity.
Defined.
